(** * The data-lake ETL job ([etl.py]): a shallow embedding and its properties

    [etl.py] reads two JSON data sets through a Spark session (song
    metadata and listening logs), derives four dimension tables and one
    fact table, and writes each as parquet.  The development has three
    layers:

    - [Frame]: the part of the DataFrame interface the script calls
      ([select], [dropDuplicates], [filter], [withColumnRenamed],
      [withColumn], [join], [monotonically_increasing_id]), on frames
      that carry a list of column names and a list of rows;
    - [Calendar]: the timestamp conversion of the script's udf and the
      calendar functions [hour], [dayofmonth], [weekofyear], [month],
      [year], [dayofweek];
    - [Etl]: the script itself, statement by statement, in a state and
      exception monad whose state holds the process environment, the
      diagnostics written, the reads issued and the parquet store. *)

From Stdlib Require Import Ascii String.
From stdpp Require Import base tactics option list numbers strings gmap sorting.

#[local] Open Scope string_scope.
#[local] Open Scope list_scope.
#[local] Open Scope Z_scope.

(** ** Values, exceptions, results *)

(** A cell of a row.  JSON integers are read as [VInt], JSON decimals as
    [VDbl m e], the double [m * 2^e] in the reader's canonical form (the
    script copies and compares doubles from the records, and only
    divides a timestamp by one).  [VTs us] is a timestamp, in
    microseconds since the epoch, as the engine stores it. *)
Inductive value : Type :=
  | VNull
  | VStr (s : string)
  | VInt (n : Z)
  | VDbl (m e : Z)
  | VTs (us : Z).

#[global] Instance value_eq_dec : EqDecision value.
Proof. solve_decision. Defined.

#[global] Instance value_inhabited : Inhabited value := populate VNull.

(** A Python exception: its class and the text [str(e)] that an f-string
    renders for [{e}]. *)
Record exn : Type := Exn { exn_class : string; exn_text : string }.

#[global] Instance exn_eq_dec : EqDecision exn.
Proof. solve_decision. Defined.

(** A call that either raises or returns. *)
Definition result (A : Type) : Type := exn + A.

Definition raise {A : Type} (e : exn) : result A := inl e.

#[global] Instance result_ret : MRet result := λ A a, inr a.
#[global] Instance result_bind : MBind result := λ A B f r,
  match r with
  | inl e => inl e
  | inr a => f a
  end.
#[global] Instance result_fmap : FMap result := λ A B f r,
  match r with
  | inl e => inl e
  | inr a => inr (f a)
  end.

(** [mapM] over a list, stopping at the first exception. *)
Fixpoint result_all {A B : Type} (f : A → result B) (l : list A) : result (list B) :=
  match l with
  | [] => inr []
  | x :: l' =>
      match f x with
      | inl e => inl e
      | inr y =>
          match result_all f l' with
          | inl e => inl e
          | inr ys => inr (y :: ys)
          end
      end
  end.

(** ** Frames *)

Module Frame.

Definition row : Type := list value.

(** A DataFrame: the schema, the rows in schema order, and the
    failure, if any, that evaluating the frame's plan raises.  Spark
    builds plans lazily: a udf that fails on a row fails the job when
    an action (a write) runs the plan, not when the column is
    declared.  [fault] carries that pending failure from the
    transformation to the action. *)
Record DataFrame : Type := mkFrame {
  columns : list string;
  rows : list row;
  fault : option exn
}.

Definition wf (df : DataFrame) : Prop :=
  Forall (λ r : row, length r = length (columns df)) (rows df).

Definition AnalysisException (msg : string) : exn := Exn "AnalysisException" msg.

(** The positions at which a name occurs in a schema.  Names resolve
    exactly, as the engine does under [spark.sql.caseSensitive], and as
    it does by default on a schema in which no name differs in case
    only from another or from the name looked up. *)
Definition positions (c : string) (cols : list string) : list nat :=
  filter (λ i, cols !! i = Some c) (seq 0 (length cols)).

(** Resolving a column name: it must name exactly one column. *)
Definition resolve (c : string) (cols : list string) : result nat :=
  match positions c cols with
  | [] => raise (AnalysisException ("cannot resolve '" +:+ c +:+ "' given input columns"))
  | [i] => inr i
  | _ :: _ :: _ => raise (AnalysisException ("Reference '" +:+ c +:+ "' is ambiguous"))
  end.

(** [df.name], the attribute access of the Python API. *)
Definition attr (df : DataFrame) (c : string) : result nat := resolve c (columns df).

Definition cell (r : row) (i : nat) : value := r !!! i.

(** [df.select(names...)]. *)
Definition select (names : list string) (df : DataFrame) : result DataFrame :=
  idxs ← result_all (λ c, resolve c (columns df)) names;
  mret (mkFrame names (fmap (λ r, fmap (cell r) idxs) (rows df)) (fault df)).

(** [df.dropDuplicates()]: rows equal on every column are merged.  The
    engine fixes no order; the model keeps the last of equal rows. *)
Definition dropDuplicates (df : DataFrame) : DataFrame :=
  mkFrame (columns df) (remove_dups (rows df)) (fault df).

(** [df.filter(col == lit)]: a null never equals a literal. *)
Definition filter_eq (i : nat) (lit : value) (df : DataFrame) : DataFrame :=
  mkFrame (columns df)
          (filter (λ r, cell r i = lit ∧ lit ≠ VNull) (rows df))
          (fault df).

(** [df.withColumnRenamed(old, new)]: no change when [old] names no
    column. *)
Definition withColumnRenamed (old new : string) (df : DataFrame) : DataFrame :=
  mkFrame (fmap (λ c, if decide (c = old) then new else c) (columns df))
          (rows df) (fault df).

(** The schema and a row after [withColumn name]: an existing column
    of that name is replaced in place, otherwise the column is
    appended. *)
Definition put_name (name : string) (cols : list string) : list string :=
  if decide (name ∈ cols) then cols else cols ++ [name].

Definition put_cell (name : string) (cols : list string) (r : row) (v : value) : row :=
  if decide (name ∈ cols)
  then zip_with (λ c x, if decide (c = name) then v else x) cols r
  else r ++ [v].

(** [df.withColumn(name, e)] for a column expression [e] that cannot
    fail, given by its value on each row. *)
Definition withColumn (name : string) (e : row → value) (df : DataFrame) : DataFrame :=
  mkFrame (put_name name (columns df))
          (fmap (λ r, put_cell name (columns df) r (e r)) (rows df))
          (fault df).

(** The value of a udf on a row, null where it raises. *)
Definition value_of (x : result value) : value :=
  match x with
  | inr v => v
  | inl _ => VNull
  end.

(** The first failure of a Python udf over the rows. *)
Fixpoint first_failure (f : row → result value) (rs : list row) : option exn :=
  match rs with
  | [] => None
  | r :: rs' =>
      match f r with
      | inl e => Some e
      | inr _ => first_failure f rs'
      end
  end.

(** [df.withColumn(name, udf(...)(col))]: declaring the column
    succeeds; a row on which the udf raises fails the plan. *)
Definition withColumn_udf (name : string) (f : row → result value) (df : DataFrame)
  : DataFrame :=
  mkFrame (put_name name (columns df))
          (fmap (λ r, put_cell name (columns df) r (value_of (f r))) (rows df))
          (match fault df with
           | Some e => Some e
           | None => first_failure f (rows df)
           end).

(** The equality of a join condition: null matches nothing. *)
Definition sql_eq (a b : value) : Prop := a = b ∧ a ≠ VNull.

#[global] Instance sql_eq_dec a b : Decision (sql_eq a b).
Proof. unfold sql_eq. apply _. Defined.

(** [left.join(right, left.a == right.b)], an inner join: the schema
    is the left one followed by the right one, and there is one row
    per matching pair. *)
Definition join (left right : DataFrame) (a b : nat) : DataFrame :=
  mkFrame (columns left ++ columns right)
          (l ← rows left;
           fmap (λ r, l ++ r) (filter (λ r, sql_eq (cell l a) (cell r b)) (rows right)))
          (match fault left with
           | Some e => Some e
           | None => fault right
           end).

(** 64-bit two's complement wrap-around. *)
Definition wrap64 (z : Z) : Z := (z + 2 ^ 63) `mod` 2 ^ 64 - 2 ^ 63.

(** [monotonically_increasing_id()]: the partition index in the upper
    bits, the record number within the partition in the lower 33
    bits.  [layout] gives the sizes of the partitions the engine cut
    the frame into; rows beyond the layout fall in one last
    partition. *)
Fixpoint monotonic_ids (p : Z) (layout : list nat) (n : nat) : list Z :=
  match layout with
  | [] => fmap (λ i, wrap64 (Z.shiftl p 33 + i)) (seqZ 0 (Z.of_nat n))
  | k :: layout' =>
      fmap (λ i, wrap64 (Z.shiftl p 33 + i)) (seqZ 0 (Z.of_nat (k `min` n)))
      ++ monotonic_ids (p + 1) layout' (n - k)
  end.

(** [df.withColumn(name, monotonically_increasing_id())]. *)
Definition withColumn_id (name : string) (layout : list nat) (df : DataFrame) : DataFrame :=
  mkFrame (put_name name (columns df))
          (zip_with (λ r i, put_cell name (columns df) r (VInt i))
                    (rows df) (monotonic_ids 0 layout (length (rows df))))
          (fault df).

End Frame.

(** ** Timestamps and calendar fields *)

Module Calendar.

(** The proleptic Gregorian date [(year, month, day)] of a day number
    counted from 1970-01-01. *)
Definition civil_from_days (days : Z) : Z * Z * Z :=
  let z := days + 719468 in
  let era := z `div` 146097 in
  let doe := z `mod` 146097 in
  let yoe := (doe - doe `div` 1460 + doe `div` 36524 - doe `div` 146096) `div` 365 in
  let doy := doe - (365 * yoe + yoe `div` 4 - yoe `div` 100) in
  let mp := (5 * doy + 2) `div` 153 in
  let d := doy - (153 * mp + 2) `div` 5 + 1 in
  let m := if decide (mp < 10) then mp + 3 else mp - 9 in
  let y := yoe + era * 400 in
  (if decide (m ≤ 2) then y + 1 else y, m, d).

(** The day number of a Gregorian date. *)
Definition days_from_civil (y m d : Z) : Z :=
  let y' := if decide (m ≤ 2) then y - 1 else y in
  let era := y' `div` 400 in
  let yoe := y' `mod` 400 in
  let mp := if decide (m ≤ 2) then m + 9 else m - 3 in
  let doy := (153 * mp + 2) `div` 5 + d - 1 in
  let doe := yoe * 365 + yoe `div` 4 - yoe `div` 100 + doy in
  era * 146097 + doe - 719468.

(** Wall-clock seconds of a timestamp in a zone [tz] seconds east of
    UTC, and the day number and second of the day there. *)
Definition local_seconds (tz us : Z) : Z := us `div` 1000000 + tz.
Definition local_day (tz us : Z) : Z := local_seconds tz us `div` 86400.
Definition second_of_day (tz us : Z) : Z := local_seconds tz us `mod` 86400.

Definition year (tz us : Z) : Z := (civil_from_days (local_day tz us)).1.1.
Definition month (tz us : Z) : Z := (civil_from_days (local_day tz us)).1.2.
Definition dayofmonth (tz us : Z) : Z := (civil_from_days (local_day tz us)).2.
Definition hour (tz us : Z) : Z := second_of_day tz us `div` 3600.

(** [dayofweek]: 1 is Sunday, 7 is Saturday (day 0 was a Thursday). *)
Definition dayofweek (tz us : Z) : Z := (local_day tz us + 4) `mod` 7 + 1.

(** [weekofyear]: the ISO 8601 week, that is the week, counted within
    its year, of the Thursday of the Monday-to-Sunday week of the
    date. *)
Definition weekofyear (tz us : Z) : Z :=
  let day := local_day tz us in
  let thursday := day - (day + 3) `mod` 7 + 3 in
  let y := (civil_from_days thursday).1.1 in
  (thursday - days_from_civil y 1 1) `div` 7 + 1.

(** Rounding [a / b], for [0 < b], to the nearest integer, ties to
    even. *)
Definition round_half_even (a b : Z) : Z :=
  let q := a `div` b in
  let r := a `mod` b in
  if decide (2 * r < b) then q
  else if decide (b < 2 * r) then q + 1
  else if Z.even q then q else q + 1.

(** Microseconds of [x / 1000.0] seconds, for [x] milliseconds.  The
    quotient is taken exactly.  For an integer [x] of magnitude below
    2^32 seconds the binary64 quotient lies within a quarter of a
    microsecond of it and is rounded to the same microsecond; beyond,
    the rounding of the division is not part of the model. *)
Definition micros_of_millis (x : value) : option Z :=
  match x with
  | VInt n => Some (n * 1000)
  | VDbl m e =>
      if decide (0 ≤ e) then Some (m * 2 ^ e * 1000)
      else Some (round_half_even (m * 1000) (2 ^ (- e)))
  | _ => None
  end.

(** [datetime] holds the years 1 to 9999, and [fromtimestamp] also
    builds the date one day before its argument, to tell a repeated
    hour. *)
Definition representable (tz us : Z) : Prop :=
  1 ≤ year tz (us - 86400000000) ∧ year tz us ≤ 9999.

#[global] Instance representable_dec tz us : Decision (representable tz us).
Proof. unfold representable. apply _. Defined.

(** [datetime.fromtimestamp(x / 1000.0)] returned through a udf of type
    [TimestampType()]: the lambda raises [TypeError] on a value that is
    not a number (a null reaches it as [None]) and an out-of-range error
    past the years [datetime] holds; otherwise the engine stores the
    instant, in microseconds.  The zone is a fixed offset [tz], that
    of the session and of the Python workers alike. *)
Definition fromtimestamp_millis (tz : Z) (x : value) : result value :=
  match micros_of_millis x with
  | None => raise (Exn "TypeError" "unsupported operand type(s) for /")
  | Some us =>
      if decide (representable tz us) then inr (VTs us)
      else raise (Exn "ValueError" "year is out of range")
  end.

(** A calendar function applied to a column: null on a null. *)
Definition on_timestamp (f : Z → Z) (v : value) : value :=
  match v with
  | VTs us => VInt (f us)
  | _ => VNull
  end.

End Calendar.

(** ** The script *)

Module Etl.

Import Frame.

(** *** What the script runs against *)

(** One JSON object of an input file: its keys and scalar values. *)
Definition json_record : Type := list (string * value).

Fixpoint field (c : string) (rec : json_record) : value :=
  match rec with
  | [] => VNull
  | (k, v) :: rec' => if decide (k = c) then v else field c rec'
  end.

(** The frame [spark.read.json] builds from the records of the matched
    files: one column per key that occurs, one row per record, null
    where a record lacks the key. *)
Definition row_of (cols : list string) (rec : json_record) : row :=
  fmap (λ c, field c rec) cols.

(** Values are kept as read.  The engine casts the values of a column
    to one type: the frame is the engine's for records that give each
    key values of one type. *)
Definition frame_of_records (recs : list json_record) : DataFrame :=
  let cols := remove_dups (recs ≫= fmap fst) in
  mkFrame cols (fmap (row_of cols) recs) None.

(** A parquet directory: the partition columns and the table. *)
Record parquet : Type := mkParquet {
  partition_by : list string;
  table : DataFrame
}.

(** The session: what the storage layer holds under each input glob (or
    the failure of reading it), whether it rejects a write to a path,
    the session time zone in seconds east of UTC, and the partition
    sizes into which the engine cuts the joined frame. *)
Record SparkSession : Type := mkSession {
  json_files : string → result (list json_record);
  storage_fault : string → option exn;
  time_zone : Z;
  partition_layout : list nat
}.

(** The file [dl.cfg] as [configparser] sees it: absent (which
    [config.read] passes over in silence), unparsable, or a list of
    sections whose option names the parser has put in lower case. *)
Inductive cfg_file : Type :=
  | Absent
  | Unparsable (e : exn)
  | Parsed (sections : list (string * list (string * string))).

(** The host of one run: the config file, and the outcome of
    [builder.config(...).getOrCreate()] in a process with a given
    environment.  The engine is started with the environment of the
    process, from which its connector to the storage takes the
    credentials. *)
Record host : Type := mkHost {
  dl_cfg : cfg_file;
  getOrCreate : gmap string string → list (string * string) → result SparkSession
}.

(** The state of the process and of the storage it writes. *)
Record world : Type := mkWorld {
  environ : gmap string string;
  diagnostics : list string;
  reads : list string;
  store : gmap string parquet
}.

Definition initial : world := mkWorld ∅ [] [] ∅.

Definition with_environ (E : gmap string string) (w : world) : world :=
  mkWorld E (diagnostics w) (reads w) (store w).
Definition add_read (path : string) (w : world) : world :=
  mkWorld (environ w) (diagnostics w) (reads w ++ [path]) (store w).
Definition with_store (st : gmap string parquet) (w : world) : world :=
  mkWorld (environ w) (diagnostics w) (reads w) st.

(** *** Control flow: exceptions and [exit()] *)

(** How a statement ends: normally, by an exception, or by the
    [SystemExit] that [exit(code)] raises. *)
Inductive outcome (A : Type) : Type :=
  | Normal (a : A)
  | Raised (e : exn)
  | Exited (code : option Z).
Arguments Normal {A} a.
Arguments Raised {A} e.
Arguments Exited {A} code.

Definition M (A : Type) : Type := world → world * outcome A.

#[global] Instance M_ret : MRet M := λ A a w, (w, Normal a).
#[global] Instance M_bind : MBind M := λ A B f m w,
  match m w with
  | (w', Normal a) => f a w'
  | (w', Raised e) => (w', Raised e)
  | (w', Exited c) => (w', Exited c)
  end.

Definition lift {A : Type} (r : result A) : M A := λ w,
  match r with
  | inl e => (w, Raised e)
  | inr a => (w, Normal a)
  end.

(** [try: body / except Exception as e: handler e].  [SystemExit] is not
    an [Exception] and passes through. *)
Definition try_except {A : Type} (body : M A) (handler : exn → M A) : M A := λ w,
  match body w with
  | (w', Raised e) => handler e w'
  | r => r
  end.

(** [exit()]: no status is given, so the status is that of
    [SystemExit(None)]. *)
Definition exit {A : Type} : M A := λ w, (w, Exited None).

(** The status with which the interpreter leaves the process. *)
Definition exit_status {A : Type} (o : outcome A) : Z :=
  match o with
  | Normal _ => 0
  | Raised _ => 1
  | Exited None => 0
  | Exited (Some n) => n
  end.

(** The exception of a name that is bound nowhere. *)
Definition NameError (name : string) : exn :=
  Exn "NameError" ("name '" +:+ name +:+ "' is not defined").

(** [error(...)], the first statement of every handler.  The script
    neither defines nor imports the name [error]: evaluating it raises
    [NameError], before the message is built and before the [exit()]
    that follows is reached.  [diagnostics], the lines the script
    writes, therefore stays as it is. *)
Definition error (msg : string) : M () := λ w, (w, Raised (NameError "error")).

(** The rendering of [{e}] in an f-string. *)
Definition str (e : exn) : string := exn_text e.

(** *** The engine's actions *)

(** [spark.read.json(path)]. *)
Definition read_json (spark : SparkSession) (path : string) : M DataFrame := λ w,
  (add_read path w,
   match json_files spark path with
   | inl e => Raised e
   | inr recs => Normal (frame_of_records recs)
   end).

(** The analysis of [df.write.partitionBy(cols).parquet(...)]: the
    schema has no duplicate name, every partition column is a column of
    the frame, and some column is left for the files. *)
Definition check_write (cols : list string) (df : DataFrame) : result () :=
  if decide (¬ NoDup (columns df))
  then raise (AnalysisException "Found duplicate column(s) when inserting")
  else
    match list_find (λ c, c ∉ columns df) cols with
    | Some (_, c) =>
        raise (AnalysisException ("Partition column `" +:+ c +:+ "` not found in schema"))
    | None =>
        if decide (columns df ≠ [] ∧ columns df ⊆ cols)
        then raise (AnalysisException "Cannot use all columns for partition columns")
        else inr ()
    end.

(** [df.write.partitionBy(cols).parquet(path, mode='overwrite')] ([cols]
    empty without [partitionBy]).  A write that passes the analysis
    clears the destination, then runs the plan; the table is in place
    once the plan has run. *)
Definition write_parquet (spark : SparkSession) (cols : list string) (path : string)
    (df : DataFrame) : M () := λ w,
  match check_write cols df with
  | inl e => (w, Raised e)
  | inr _ =>
      match storage_fault spark path with
      | Some e => (w, Raised e)
      | None =>
          match fault df with
          | Some e => (with_store (delete path (store w)) w, Raised e)
          | None => (with_store (<[path := mkParquet cols df]> (store w)) w, Normal ())
          end
      end
  end.

(** *** Module-level statements: the credentials *)

Definition lower_ascii (a : ascii) : ascii :=
  let n := nat_of_ascii a in
  if decide (65 ≤ n ≤ 90)%nat then ascii_of_nat (n + 32) else a.

Fixpoint lower (s : string) : string :=
  match s with
  | EmptyString => EmptyString
  | String a s' => String (lower_ascii a) (lower s')
  end.

Fixpoint assoc {A : Type} (k : string) (l : list (string * A)) : option A :=
  match l with
  | [] => None
  | (k', v) :: l' => if decide (k' = k) then Some v else assoc k l'
  end.

Definition KeyError (k : string) : exn := Exn "KeyError" ("'" +:+ k +:+ "'").

Fixpoint occurs (a : ascii) (s : string) : bool :=
  match s with
  | EmptyString => false
  | String b s' => bool_decide (a = b) || occurs a s'
  end.

(** [config.read('dl.cfg')]. *)
Definition config_read (file : cfg_file) : result (list (string * list (string * string))) :=
  match file with
  | Absent => inr []
  | Unparsable e => raise e
  | Parsed sections => inr sections
  end.

(** What the pattern [%\(([^)]+)\)s] of [BasicInterpolation] looks for
    after [%(]: the text up to the first [)], and what follows that
    [)]. *)
Fixpoint until_close (s : string) : option (string * string) :=
  match s with
  | EmptyString => None
  | String a s' =>
      if bool_decide (a = ")"%char) then Some (EmptyString, s')
      else
        match until_close s' with
        | Some (name, rest) => Some (String a name, rest)
        | None => None
        end
  end.

Definition InterpolationSyntaxError : exn :=
  Exn "InterpolationSyntaxError" "bad interpolation syntax".
Definition InterpolationMissingOptionError (name : string) : exn :=
  Exn "InterpolationMissingOptionError" ("Bad value substitution: key '" +:+ name +:+ "'").
Definition InterpolationDepthError : exn :=
  Exn "InterpolationDepthError" "Recursion limit exceeded in value substitution".

(** [BasicInterpolation._interpolate_some] on [rest]: [%%] stands for
    [%], [%(name)s] for the value of the option [name] (in lower case)
    in [map], itself interpolated by [deeper] when it holds a [%]; any
    other [%] is an error.  [fuel] bounds the scan by the length of
    [rest]. *)
Fixpoint interpolate_some (deeper : string → result string) (map : list (string * string))
    (fuel : nat) (rest : string) : result string :=
  match fuel, rest with
  | _, EmptyString => inr EmptyString
  | O, _ => inr EmptyString
  | S fuel', String a s' =>
      if bool_decide (a = "%"%char) then
        match s' with
        | String b s'' =>
            if bool_decide (b = "%"%char)
            then String "%"%char <$> interpolate_some deeper map fuel' s''
            else if bool_decide (b = "("%char) then
              match until_close s'' with
              | Some (String n name, String c after) =>
                  if bool_decide (c = "s"%char) then
                    match assoc (lower (String n name)) map with
                    | None => raise (InterpolationMissingOptionError (lower (String n name)))
                    | Some v =>
                        x ← (if occurs "%"%char v then deeper v else inr v);
                        y ← interpolate_some deeper map fuel' after;
                        mret (x +:+ y)
                    end
                  else raise InterpolationSyntaxError
              | _ => raise InterpolationSyntaxError
              end
            else raise InterpolationSyntaxError
        | EmptyString => raise InterpolationSyntaxError
        end
      else String a <$> interpolate_some deeper map fuel' s'
  end.

(** Interpolation of a value, to a nesting of at most [depth]. *)
Fixpoint interpolate (depth : nat) (map : list (string * string)) (value : string)
  : result string :=
  match depth with
  | O => raise InterpolationDepthError
  | S depth' =>
      interpolate_some (interpolate depth' map) map (String.length value) value
  end.

Definition MAX_INTERPOLATION_DEPTH : nat := 10.

(** [BasicInterpolation.before_get], which every lookup of a value goes
    through. *)
Definition before_get (map : list (string * string)) (value : string) : result string :=
  interpolate MAX_INTERPOLATION_DEPTH map value.

(** [config[section][option]]: the section must exist, the option is
    looked up in lower case in the section and then among the defaults,
    and its value is interpolated over both. *)
Definition config_get (config : list (string * list (string * string)))
    (section option : string) : result string :=
  let defaults := default [] (assoc "DEFAULT" config) in
  match assoc section config with
  | None =>
      if decide (section = "DEFAULT")
      then match assoc (lower option) defaults with
           | Some v => before_get defaults v
           | None => raise (KeyError option)
           end
      else raise (KeyError section)
  | Some opts =>
      match assoc (lower option) (opts ++ defaults) with
      | Some v => before_get (opts ++ defaults) v
      | None => raise (KeyError option)
      end
  end.

(** [os.environ[k] = v]: a value that holds a null byte is refused. *)
Definition putenv_check (v : string) : result () :=
  if occurs "000"%char v then raise (Exn "ValueError" "embedded null byte") else inr ().

Definition setenv (k v : string) : M () := λ w,
  match putenv_check v with
  | inl e => (w, Raised e)
  | inr _ => (with_environ (<[k := v]> (environ w)) w, Normal ())
  end.

(** Lines 9 to 21. *)
Definition module_level (file : cfg_file) : M () :=
  config ← try_except (lift (config_read file))
                      (λ e, error ("Error reading config file: " +:+ str e);; exit);
  try_except
    (key ← lift (config_get config "KEY" "AWS_ACCESS_KEY_ID");
     setenv "AWS_ACCESS_KEY_ID" key;;
     secret ← lift (config_get config "SECRET" "AWS_SECRET_ACCESS_KEY");
     setenv "AWS_SECRET_ACCESS_KEY" secret)
    (λ e, error ("Error setting AWS credential Environment Variables: " +:+ str e);; exit).

(** *** Paths *)

Fixpoint ends_with_sep (s : string) : bool :=
  match s with
  | EmptyString => false
  | String a EmptyString => bool_decide (a = "/"%char)
  | String _ s' => ends_with_sep s'
  end.

(** [os.path.join(a, b)] of [posixpath]: an absolute [b] replaces what
    came before it. *)
Definition os_path_join (a b : string) : string :=
  if String.prefix "/" b then b
  else if bool_decide (a = "") || ends_with_sep a then a +:+ b
  else a +:+ "/" +:+ b.

(** *** [process_song_data] *)

(** Lines 53 and 54. *)
Definition songs_table_of (df : DataFrame) : result DataFrame :=
  dropDuplicates <$>
    select ["song_id"; "title"; "artist_id"; "year"; "duration"] df.

(** Lines 69 and 70. *)
Definition artists_table_of (df : DataFrame) : result DataFrame :=
  dropDuplicates <$>
    select ["artist_id"; "artist_name"; "artist_location";
            "artist_latitude"; "artist_longitude"] df.

Definition process_song_data (spark : SparkSession) (input_data output_data : string)
  : M () :=
  (* get filepath to song data file *)
  let song_data := input_data +:+ "song_data/*/*/*/*.json" in
  (* read song data file *)
  df ← try_except (read_json spark song_data)
         (λ e, error ("Error reading songs data files while processing songs data: "
                      +:+ str e);; exit);
  (* extract columns to create songs table *)
  songs_table ← try_except (lift (songs_table_of df))
         (λ e, error ("Error creating songs_table dataframe: " +:+ str e);; exit);
  (* write songs table to parquet files partitioned by year and artist *)
  try_except
         (write_parquet spark ["year"; "artist_id"] (output_data +:+ "/songs") songs_table)
         (λ e, error ("Error writing songs table to S3: " +:+ str e);; exit);;
  (* extract columns to create artists table *)
  artists_table ← try_except (lift (artists_table_of df))
         (λ e, error ("Error creating artists_table dataframe: " +:+ str e);; exit);
  (* write artists table to parquet files *)
  try_except
         (write_parquet spark [] (output_data +:+ "/artists") artists_table)
         (λ e, error ("Error writing artists table to S3: " +:+ str e);; exit).

(** *** [process_log_data], stage by stage *)

(** Lines 100 to 106: the filter on [page] and the six renamings. *)
Definition filter_and_rename (df : DataFrame) : result DataFrame :=
  page ← attr df "page";
  let df := filter_eq page (VStr "NextSong") df in
  let df := withColumnRenamed "userId" "user_id" df in
  let df := withColumnRenamed "firstName" "first_name" df in
  let df := withColumnRenamed "lastName" "last_name" df in
  let df := withColumnRenamed "userAgent" "user_agent" df in
  let df := withColumnRenamed "sessionId" "session_id" df in
  let df := withColumnRenamed "itemInSession" "item_in_session" df in
  mret df.

(** Lines 113 and 114. *)
Definition users_table_of (df : DataFrame) : result DataFrame :=
  dropDuplicates <$>
    select ["user_id"; "first_name"; "last_name"; "gender"; "level"] df.

(** The return type given to [udf]. *)
Inductive data_type : Type := Timestamp.

(** [TimestampType()], the second argument of [udf] at lines 127 and
    136.  The script does not import the name (its imports are lines 1
    to 7): evaluating it raises [NameError], outside every [try]. *)
Definition TimestampType : result data_type := raise (NameError "TimestampType").

(** [udf(f, returnType)]: [f], applied to a column row by row. *)
Definition udf (f : value → result value) (returnType : data_type)
  : value → result value := f.

(** [lambda x: datetime.fromtimestamp(x / 1000.0)], the function both
    udfs are meant to wrap. *)
Definition millis_to_datetime (tz : Z) (x : value) : result value :=
  Calendar.fromtimestamp_millis tz x.

(** Line 130, for the udf bound to [get_timestamp]. *)
Definition add_start_time (get_timestamp : value → result value) (df : DataFrame)
  : result DataFrame :=
  ts ← attr df "ts";
  mret (withColumn_udf "start_time" (λ r, get_timestamp (cell r ts)) df).

(** Lines 137 to 143, outside every [try], for the udf bound to
    [get_datetime]. *)
Definition add_calendar (tz : Z) (get_datetime : value → result value) (df : DataFrame)
  : result DataFrame :=
  ts ← attr df "ts";
  let df := withColumn_udf "datetime" (λ r, get_datetime (cell r ts)) df in
  c ← attr df "datetime";
  let df := withColumn "hour" (λ r, Calendar.on_timestamp (Calendar.hour tz) (cell r c)) df in
  c ← attr df "datetime";
  let df := withColumn "day"
              (λ r, Calendar.on_timestamp (Calendar.dayofmonth tz) (cell r c)) df in
  c ← attr df "datetime";
  let df := withColumn "week"
              (λ r, Calendar.on_timestamp (Calendar.weekofyear tz) (cell r c)) df in
  c ← attr df "datetime";
  let df := withColumn "month" (λ r, Calendar.on_timestamp (Calendar.month tz) (cell r c)) df in
  c ← attr df "datetime";
  let df := withColumn "year" (λ r, Calendar.on_timestamp (Calendar.year tz) (cell r c)) df in
  c ← attr df "datetime";
  let df := withColumn "weekday"
              (λ r, Calendar.on_timestamp (Calendar.dayofweek tz) (cell r c)) df in
  mret df.

(** Lines 148 and 149. *)
Definition time_table_of (df : DataFrame) : result DataFrame :=
  dropDuplicates <$>
    select ["start_time"; "hour"; "day"; "week"; "month"; "year"; "weekday"] df.

(** Lines 172 to 175: the join, the id and the projection. *)
Definition songplays_table_of (layout : list nat) (df song_df : DataFrame)
  : result DataFrame :=
  artist ← attr df "artist";
  artist_name ← attr song_df "artist_name";
  let songplays_table := join df song_df artist artist_name in
  let songplays_table := withColumn_id "songplay_id" layout songplays_table in
  select ["songplay_id"; "start_time"; "user_id"; "level"; "song_id";
          "artist_id"; "session_id"; "location"; "user_agent"] songplays_table.

Definition process_log_data (spark : SparkSession) (input_data output_data : string)
  : M () :=
  (* get filepath to log data file *)
  let log_data := input_data +:+ "log_data/*.json" in
  (* read log data file *)
  df ← try_except (read_json spark log_data)
         (λ e, error ("Error reading log data files: " +:+ str e);; exit);
  (* filter by actions for song plays *)
  df ← try_except (lift (filter_and_rename df))
         (λ e, error ("Error filtering log dataframe: " +:+ str e);; exit);
  (* extract columns for users table *)
  users_table ← try_except (lift (users_table_of df))
         (λ e, error ("Error creating users_table dataframe: " +:+ str e);; exit);
  (* write users table to parquet files *)
  try_except
         (write_parquet spark [] (os_path_join output_data "/users") users_table)
         (λ e, error ("Error writing users table to S3: " +:+ str e);; exit);;
  (* create timestamp column from original timestamp column *)
  get_timestamp ← lift (udf (millis_to_datetime (time_zone spark)) <$> TimestampType);
  df ← try_except (lift (add_start_time get_timestamp df))
         (λ e, error ("Error adding 'timestamp' column to log dataframe: " +:+ str e);;
               exit);
  (* create datetime column from original timestamp column *)
  get_datetime ← lift (udf (millis_to_datetime (time_zone spark)) <$> TimestampType);
  df ← lift (add_calendar (time_zone spark) get_datetime df);
  (* extract columns to create time table *)
  time_table ← try_except (lift (time_table_of df))
         (λ e, error ("Error creating time_table dataframe: " +:+ str e);; exit);
  (* write time table to parquet files partitioned by year and month *)
  try_except
         (write_parquet spark ["year"; "month"] (output_data +:+ "/time") time_table)
         (λ e, error ("time_table write error: " +:+ str e);; exit);;
  (* read in song data to use for songplays table *)
  song_df ← try_except (read_json spark (input_data +:+ "song_data/*/*/*/*.json"))
         (λ e, error ("Error reading songs data files while processing log data: "
                      +:+ str e);; exit);
  (* extract columns from joined song and log datasets to create songplays table *)
  songplays_table ← try_except
         (lift (songplays_table_of (partition_layout spark) df song_df))
         (λ e, error ("Error creating songplays dataframe: " +:+ str e);; exit);
  (* write songplays table to parquet files partitioned by year and month *)
  try_except
         (write_parquet spark ["year"; "month"] (output_data +:+ "/song_plays")
                        songplays_table)
         (λ e, error ("Error writing songplays table to S3: " +:+ str e);; exit).

(** *** [main] and the script *)

Definition create_spark_session (h : host) : M SparkSession := λ w,
  lift (getOrCreate h (environ w)
          [("spark.jars.packages", "org.apache.hadoop:hadoop-aws:2.7.0")]) w.

Definition main (h : host) : M () :=
  spark ← try_except (create_spark_session h)
         (λ e, error ("Error creating SparkSession " +:+ str e);; exit);
  let input_data := "s3a://udacity-dend/" in
  let output_data := "s3a://gy-nano-bkt/" in
  process_song_data spark input_data output_data;;
  process_log_data spark input_data output_data.

(** The whole file, run as a script. *)
Definition script (h : host) : M () :=
  module_level (dl_cfg h);;
  main h.

Definition run (h : host) : world * outcome () := script h initial.

(** *** The tables as functions of the frames read *)

(** The log frame as lines 100 to 143 make it, for udfs around the
    function of lines 127 and 136. *)
Definition prepare (tz : Z) (log_df : DataFrame) : result DataFrame :=
  df ← filter_and_rename log_df;
  df ← add_start_time (udf (millis_to_datetime tz) Timestamp) df;
  add_calendar tz (udf (millis_to_datetime tz) Timestamp) df.

(** The three tables [process_log_data] builds, from the log frame and
    the song frame it reads: the statements of lines 100 to 175 in
    their order, without the writes between them. *)
Definition users_of_log (log_df : DataFrame) : result DataFrame :=
  df ← filter_and_rename log_df;
  users_table_of df.

Definition time_of_log (tz : Z) (log_df : DataFrame) : result DataFrame :=
  df ← prepare tz log_df;
  time_table_of df.

Definition songplays_of_log (tz : Z) (layout : list nat) (log_df song_df : DataFrame)
  : result DataFrame :=
  df ← prepare tz log_df;
  songplays_table_of layout df song_df.

(** The two values lines 17 and 18 export, when both statements
    pass. *)
Definition credentials (file : cfg_file) : result (string * string) :=
  config ← config_read file;
  key ← config_get config "KEY" "AWS_ACCESS_KEY_ID";
  putenv_check key;;
  secret ← config_get config "SECRET" "AWS_SECRET_ACCESS_KEY";
  putenv_check secret;;
  mret (key, secret).

(** *** Vocabulary of the statements *)

(** A name that occurs at most once in a schema. *)
Definition at_most_once (c : string) (cols : list string) : Prop :=
  ∀ i j : nat, cols !! i = Some c → cols !! j = Some c → i = j.

(** The names the six renamings of lines 101 to 106 touch. *)
Definition renamed : list string :=
  ["userId"; "user_id"; "firstName"; "first_name"; "lastName"; "last_name";
   "userAgent"; "user_agent"; "sessionId"; "session_id";
   "itemInSession"; "item_in_session"].

(** The value a row holds in the column a name resolves to. *)
Definition named (df : DataFrame) (r : row) (c : string) : value :=
  match attr df c with
  | inr i => cell r i
  | inl _ => VNull
  end.

(** [views df r v]: the row [r] fits the schema of [df] and holds [v c]
    under every name [c] that resolves. *)
Definition views (df : DataFrame) (r : row) (v : string → value) : Prop :=
  length r = length (columns df)
  ∧ ∀ c, named df r c = match attr df c with inr _ => v c | inl _ => VNull end.

(** What line 130 and lines 137 to 143 make of a row that holds [v]. *)
Definition start_time_view (tz : Z) (v : string → value) (c : string) : value :=
  if decide (c = "start_time") then value_of (millis_to_datetime tz (v "ts")) else v c.

Definition calendar_view (tz : Z) (v : string → value) (c : string) : value :=
  let dt := value_of (millis_to_datetime tz (v "ts")) in
  if decide (c = "weekday") then Calendar.on_timestamp (Calendar.dayofweek tz) dt
  else if decide (c = "year") then Calendar.on_timestamp (Calendar.year tz) dt
  else if decide (c = "month") then Calendar.on_timestamp (Calendar.month tz) dt
  else if decide (c = "week") then Calendar.on_timestamp (Calendar.weekofyear tz) dt
  else if decide (c = "day") then Calendar.on_timestamp (Calendar.dayofmonth tz) dt
  else if decide (c = "hour") then Calendar.on_timestamp (Calendar.hour tz) dt
  else if decide (c = "datetime") then dt
  else v c.

(** The schema after the six renamings. *)
Definition rename_all (cols : list string) : list string :=
  fmap (λ c, if decide (c = "itemInSession") then "item_in_session" else c)
  (fmap (λ c, if decide (c = "sessionId") then "session_id" else c)
  (fmap (λ c, if decide (c = "userAgent") then "user_agent" else c)
  (fmap (λ c, if decide (c = "lastName") then "last_name" else c)
  (fmap (λ c, if decide (c = "firstName") then "first_name" else c)
  (fmap (λ c, if decide (c = "userId") then "user_id" else c) cols))))).

(** A log record of a song being played. *)
Definition played (rec : json_record) : Prop := field "page" rec = VStr "NextSong".

#[global] Instance played_dec rec : Decision (played rec).
Proof. unfold played. apply _. Defined.

(** The row of the time table for the timestamp [n] milliseconds. *)
Definition time_row (tz n : Z) : row :=
  let us := n * 1000 in
  [VTs us; VInt (Calendar.hour tz us); VInt (Calendar.dayofmonth tz us);
   VInt (Calendar.weekofyear tz us); VInt (Calendar.month tz us);
   VInt (Calendar.year tz us); VInt (Calendar.dayofweek tz us)].

(** The row of the time table for the value of a [ts] cell. *)
Definition time_row_of (tz : Z) (x : value) : row :=
  match x with
  | VInt n => time_row tz n
  | _ => []
  end.

(** The columns of the fact table after [songplay_id]. *)
Definition fact_names : list string :=
  ["start_time"; "user_id"; "level"; "song_id"; "artist_id"; "session_id";
   "location"; "user_agent"].

(** The columns of a fact row after the id, for a log row [l] of the
    frame [df] joined with a song row [s] of the frame [song_df]. *)
Definition fact_row (df song_df : DataFrame) (l s : row) : row :=
  [named df l "start_time"; named df l "user_id"; named df l "level";
   named song_df s "song_id"; named song_df s "artist_id";
   named df l "session_id"; named df l "location"; named df l "user_agent"].

(** The song rows whose [artist_name] equals the [artist] of a log
    row. *)
Definition matching_songs (df song_df : DataFrame) (l : row) : list row :=
  filter (λ s, sql_eq (named df l "artist") (named song_df s "artist_name"))
         (rows song_df).

(** *** Specifications of statements *)

(** [attempt I m Q], for the body of a [try]: [m] does not leave the
    process; it moves the world along [I], and a value it returns
    satisfies [Q]. *)
Definition attempt (I : relation world) {A : Type} (m : M A) (Q : A → Prop) : Prop :=
  ∀ w, match m w with
       | (w', Normal a) => I w w' ∧ Q a
       | (w', Raised _) => I w w'
       | (_, Exited _) => False
       end.

(** The exceptions of the two names the script uses and binds
    nowhere. *)
Definition unbound (e : exn) : Prop :=
  e = NameError "error" ∨ e = NameError "TimestampType".

(** [tidy I m Q], for the statements of the script: [m] moves the world
    along [I]; either it returns a value satisfying [Q], or it ends by
    the [NameError] of an unbound name.  It never reaches [exit()]. *)
Definition tidy (I : relation world) {A : Type} (m : M A) (Q : A → Prop) : Prop :=
  ∀ w, match m w with
       | (w', Normal a) => I w w' ∧ Q a
       | (w', Raised e) => I w w' ∧ unbound e
       | (_, Exited _) => False
       end.

(** [footprint R W]: no diagnostic is written, reads are of paths in
    [R] only, and the store changes at paths in [W] only. *)
Definition footprint (R W : list string) (w w' : world) : Prop :=
  diagnostics w' = diagnostics w
  ∧ (∀ p, p ∈ reads w' → p ∈ reads w ∨ p ∈ R)
  ∧ (∀ p, p ∉ W → store w' !! p = store w !! p).

(** What the script reads and where it writes. *)
Definition song_data_glob : string := "s3a://udacity-dend/song_data/*/*/*/*.json".
Definition log_data_glob : string := "s3a://udacity-dend/log_data/*.json".
Definition script_reads : list string := [song_data_glob; log_data_glob].
Definition script_writes : list string :=
  ["s3a://gy-nano-bkt//songs"; "s3a://gy-nano-bkt//artists"; "/users";
   "s3a://gy-nano-bkt//time"].

(** The environment stays as it is. *)
Definition same_environ (w w' : world) : Prop := environ w' = environ w.

(** *** Vocabulary of the further properties *)

(** The keys that occur in the records read. *)
Definition keys (recs : list json_record) : list string := recs ≫= fmap fst.

(** The columns of the two tables of [process_song_data]. *)
Definition songs_columns : list string :=
  ["song_id"; "title"; "artist_id"; "year"; "duration"].
Definition artists_columns : list string :=
  ["artist_id"; "artist_name"; "artist_location"; "artist_latitude"; "artist_longitude"].

(** The fields of a log record that make a row of the [users] table. *)
Definition users_fields : list string :=
  ["userId"; "firstName"; "lastName"; "gender"; "level"].

(** Every column name the script spells out. *)
Definition script_names : list string :=
  songs_columns ++ artists_columns
  ++ ["page"; "userId"; "user_id"; "firstName"; "first_name"; "lastName"; "last_name";
      "userAgent"; "user_agent"; "sessionId"; "session_id"; "itemInSession";
      "item_in_session"; "gender"; "level"; "ts"; "start_time"; "datetime"; "hour";
      "day"; "week"; "month"; "year"; "weekday"; "artist"; "songplay_id"; "location"].

(** Names no two of which differ in case only. *)
Definition case_distinct (names : list string) : Prop :=
  Forall (λ a, Forall (λ b, lower a = lower b → a = b) names) names.

(** The type the reader infers for a value. *)
Definition kind (v : value) : nat :=
  match v with
  | VNull => 0
  | VStr _ => 1
  | VInt _ => 2
  | VDbl _ _ => 3
  | VTs _ => 4
  end.

(** Records that give each key values of one type. *)
Definition uniform (recs : list json_record) : Prop :=
  Forall (λ c, Forall (λ r1, Forall (λ r2,
            field c r1 ≠ VNull → field c r2 ≠ VNull →
            kind (field c r1) = kind (field c r2)) recs) recs)
         (recs ≫= fmap fst).

(** Records for which [frame_of_records] and [resolve] are exact.  The
    engine gives a column one type and casts its values to it, and by
    default it resolves names without regard to case; the frame of the
    reader and the exact resolution of [resolve] are the engine's when
    no record holds a key twice, the values under each key are of one
    type, and neither two keys, nor a key and a name the script spells
    out, differ in case only. *)
Definition plain (recs : list json_record) : Prop :=
  Forall (λ rec : json_record, NoDup rec.*1) recs
  ∧ case_distinct ((recs ≫= fmap fst) ++ script_names)
  ∧ uniform recs.

#[global] Instance plain_dec recs : Decision (plain recs).
Proof. unfold plain, case_distinct, uniform. apply _. Defined.

(** A change of the store: a table put at a path, or a path cleared. *)
Inductive store_op : Type :=
  | Put (path : string) (pq : parquet)
  | Clear (path : string).

Definition op_path (op : store_op) : string :=
  match op with
  | Put path _ => path
  | Clear path => path
  end.

Definition apply_op (st : gmap string parquet) (op : store_op) : gmap string parquet :=
  match op with
  | Put path pq => <[path := pq]> st
  | Clear path => delete path st
  end.

Definition apply_ops (ops : list store_op) (st : gmap string parquet)
  : gmap string parquet :=
  foldl apply_op st ops.

(** [m] only writes to the store: what it does, and the changes it
    makes to the store, do not depend on what the store holds. *)
Definition writes_only {A : Type} (m : M A) : Prop :=
  ∀ w, ∃ ops w' o, ∀ st, m (with_store st w) = (with_store (apply_ops ops st) w', o).

(** [issues l m]: the reads of [m] are those of [l], in this order;
    [m] stops short of some only when it does not return. *)
Definition issues {A : Type} (l : list string) (m : M A) : Prop :=
  ∀ w, ∃ l', l' `prefix_of` l
             ∧ reads (m w).1 = reads w ++ l'
             ∧ ∀ a, (m w).2 = Normal a → l' = l.

End Etl.

(** ** Sample inputs *)

Module Sample.

Import Frame Etl.

Definition song (song_id title artist_id artist_name : string) : json_record :=
  [("song_id", VStr song_id); ("title", VStr title); ("artist_id", VStr artist_id);
   ("artist_name", VStr artist_name); ("artist_location", VStr "LA");
   ("artist_latitude", VNull); ("artist_longitude", VNull);
   ("year", VInt 2000); ("duration", VDbl 45 2)].

Definition event (page artist user_id level : string) (ts : Z) : json_record :=
  [("page", VStr page); ("artist", VStr artist); ("ts", VInt ts);
   ("userId", VStr user_id); ("firstName", VStr "Jo"); ("lastName", VStr "Doe");
   ("gender", VStr "F"); ("level", VStr level); ("sessionId", VInt 5);
   ("userAgent", VStr "UA"); ("location", VStr "LA")].

(** Two songs of one artist name (the first under two titles), one
    song of another. *)
Definition songs : list json_record :=
  [song "S1" "T" "AR1" "Band"; song "S1" "T (live)" "AR1" "Band";
   song "S2" "U" "AR2" "band"].

(** Two plays at one instant, one page view, one play of an unknown
    artist. *)
Definition events : list json_record :=
  [event "NextSong" "Band" "7" "free" 1000000000000;
   event "NextSong" "Band" "8" "paid" 1000000000000;
   event "Home" "Band" "7" "free" 1000000000500;
   event "NextSong" "Nobody" "7" "free" 1000000001000].

Definition not_found : exn := Exn "AnalysisException" "Path does not exist".

Definition files (path : string) : result (list json_record) :=
  if decide (path = song_data_glob) then inr songs
  else if decide (path = log_data_glob) then inr events
  else raise not_found.

(** A session over the sample files, in UTC, whose joins come in
    partitions of two rows. *)
Definition spark : SparkSession := mkSession files (λ _, None) 0 [2%nat; 2%nat].

(** A session that finds no song file. *)
Definition spark_without_songs : SparkSession :=
  mkSession (λ _, raise not_found) (λ _, None) 0 [].

Definition dl_cfg_sample : cfg_file :=
  Parsed [("KEY", [("aws_access_key_id", "AKIA")]);
          ("SECRET", [("aws_secret_access_key", "hunter2")])].

Definition dl_cfg_other : cfg_file :=
  Parsed [("KEY", [("aws_access_key_id", "AKIB")]);
          ("SECRET", [("aws_secret_access_key", "swordfish")])].

(** A config that gives the same two values through the defaults and an
    interpolation. *)
Definition dl_cfg_interpolated : cfg_file :=
  Parsed [("DEFAULT", [("id", "AKIA")]);
          ("KEY", [("aws_access_key_id", "%(id)s")]);
          ("SECRET", [("aws_secret_access_key", "hunter2")])].

Definition machine : host := mkHost dl_cfg_sample (λ _ _, inr spark).
Definition machine_without_config : host := mkHost Absent (λ _ _, inr spark).
Definition machine_without_songs : host :=
  mkHost dl_cfg_sample (λ _ _, inr spark_without_songs).

(** The frames of lines 46 and 93, and the log frame as prepared for
    the join. *)
Definition song_df : DataFrame := frame_of_records songs.
Definition log_df : DataFrame := frame_of_records events.
Definition table_of (r : result DataFrame) : DataFrame :=
  match r with
  | inr df => df
  | inl _ => mkFrame [] [] None
  end.
Definition prepared : DataFrame := table_of (prepare 0 log_df).

(** Three of the tables built from them. *)
Definition songs_table : DataFrame := table_of (songs_table_of song_df).
Definition time_table : DataFrame := table_of (time_of_log 0 log_df).
Definition songplays_table : DataFrame :=
  table_of (songplays_table_of [2%nat; 2%nat] prepared song_df).

(** A song record without the columns of the artist, and a session
    that reads it. *)
Definition song_without_artist : json_record :=
  [("song_id", VStr "S1"); ("title", VStr "T"); ("artist_id", VStr "AR1");
   ("year", VInt 2000); ("duration", VDbl 45 2)].

Definition spark_without_artists : SparkSession :=
  mkSession (λ _, inr [song_without_artist]) (λ _, None) 0 [].

(** A play whose timestamp is null, and a session that reads it. *)
Definition event_without_ts : json_record :=
  [("page", VStr "NextSong"); ("artist", VStr "Band"); ("ts", VNull);
   ("userId", VStr "7"); ("firstName", VStr "Jo"); ("lastName", VStr "Doe");
   ("gender", VStr "F"); ("level", VStr "free"); ("sessionId", VInt 5);
   ("userAgent", VStr "UA"); ("location", VStr "LA")].

Definition spark_without_ts : SparkSession :=
  mkSession (λ _, inr [event_without_ts]) (λ _, None) 0 [].

Definition access_denied : exn := Exn "Py4JJavaError" "Access Denied".

(** The failure of a session whose gateway does not start. *)
Definition no_gateway : exn :=
  Exn "Exception" "Java gateway process exited before sending its port number".

(** A session over the sample files whose storage refuses every
    write. *)
Definition spark_read_only : SparkSession :=
  mkSession files (λ _, Some access_denied) 0 [2%nat; 2%nat].

(** A session whose storage refuses every read and every write. *)
Definition spark_denied : SparkSession :=
  mkSession (λ _, raise access_denied) (λ _, Some access_denied) 0 [].

(** An engine whose storage knows one access key: the session it gives
    reads the sample files when the environment holds that key, and is
    refused otherwise. *)
Definition gateway (env : gmap string string) (conf : list (string * string))
  : result SparkSession :=
  if decide (env !! "AWS_ACCESS_KEY_ID" = Some "AKIA") then inr spark else inr spark_denied.

End Sample.

(** * Properties *)

Import Frame Etl.

(** ** Results *)

Section Results.
Context {A B : Type}.
Implicit Types (f : A → result B) (l : list A).

Lemma result_bind_inr {C D : Type} (g : C → result D) (r : result C) (d : D) :
  r ≫= g = inr d ↔ ∃ c, r = inr c ∧ g c = inr d.
Proof.
  destruct r as [e|c]; simpl; split.
  - discriminate.
  - intros (c & ? & _). discriminate.
  - eauto.
  - intros (c' & [= <-] & ?). done.
Qed.

Lemma result_fmap_inr {C D : Type} (g : C → D) (r : result C) (d : D) :
  g <$> r = inr d ↔ ∃ c, r = inr c ∧ d = g c.
Proof.
  destruct r as [e|c]; simpl; split.
  - discriminate.
  - intros (c & ? & _). discriminate.
  - intros [= <-]. eauto.
  - intros (c' & [= <-] & ->). done.
Qed.

Lemma result_all_inr f l ys :
  result_all f l = inr ys ↔ Forall2 (λ x y, f x = inr y) l ys.
Proof.
  revert ys. induction l as [|x l IH]; intros ys; simpl.
  - split; [intros [= <-]; constructor | by inversion 1].
  - destruct (f x) as [e|y] eqn:Hx.
    + split; [discriminate | inversion 1; congruence].
    + destruct (result_all f l) as [e|ys'] eqn:Hl.
      * split; [discriminate|]. inversion 1; subst.
        match goal with H : Forall2 _ l _ |- _ => apply IH in H; discriminate end.
      * split.
        -- intros [= <-]. constructor; [done | by apply IH].
        -- inversion 1; subst.
           match goal with H : Forall2 _ l _ |- _ => apply IH in H end.
           congruence.
Qed.

End Results.

(** ** Resolution of column names *)

Section Resolve.
Implicit Types (c : string) (cols : list string) (i j : nat).

Lemma elem_of_positions c cols i : i ∈ positions c cols ↔ cols !! i = Some c.
Proof.
  unfold positions. rewrite list_elem_of_filter, elem_of_seq. split.
  - tauto.
  - intros H. split; [done|]. apply lookup_lt_Some in H. lia.
Qed.

Lemma NoDup_positions c cols : NoDup (positions c cols).
Proof. apply NoDup_filter, NoDup_seq. Qed.

Lemma resolve_inr c cols i :
  resolve c cols = inr i ↔ cols !! i = Some c ∧ ∀ j, cols !! j = Some c → j = i.
Proof.
  unfold resolve. pose proof (NoDup_positions c cols) as Hnd.
  destruct (positions c cols) as [|i0 [|i1 l]] eqn:Hp.
  - split; [discriminate|]. intros [Hi _].
    apply elem_of_positions in Hi. rewrite Hp in Hi. by apply elem_of_nil in Hi.
  - split.
    + intros [= <-]. split.
      * apply elem_of_positions. rewrite Hp. by left.
      * intros j Hj. apply elem_of_positions in Hj. rewrite Hp in Hj.
        by apply list_elem_of_singleton in Hj.
    + intros [Hi _]. apply elem_of_positions in Hi. rewrite Hp in Hi.
      apply list_elem_of_singleton in Hi. by subst.
  - split; [discriminate|]. intros [_ Hu].
    assert (i0 = i) by (apply Hu, elem_of_positions; rewrite Hp; by left).
    assert (i1 = i) by (apply Hu, elem_of_positions; rewrite Hp; right; by left).
    subst. apply NoDup_cons in Hnd as [Hni _]. exfalso. apply Hni. by left.
Qed.

Lemma resolve_lookup c cols i : resolve c cols = inr i → cols !! i = Some c.
Proof. intros H. by apply resolve_inr in H as [? _]. Qed.

Lemma resolve_lt c cols i : resolve c cols = inr i → (i < length cols)%nat.
Proof. intros H. eapply lookup_lt_Some, resolve_lookup, H. Qed.

Lemma resolve_elem_of c cols i : resolve c cols = inr i → c ∈ cols.
Proof. intros H. eapply list_elem_of_lookup_2, resolve_lookup, H. Qed.

Lemma resolve_unique c cols i j : resolve c cols = inr i → cols !! j = Some c → j = i.
Proof. intros H. apply resolve_inr in H as [_ H]. apply H. Qed.

(** A name that occurs in no schema cannot be resolved. *)
Lemma resolve_not_elem_of c cols : c ∉ cols → ∃ e, resolve c cols = inl e.
Proof.
  intros Hc. destruct (resolve c cols) as [e|i] eqn:H; [eauto|].
  by apply resolve_elem_of in H.
Qed.

(** In a schema without duplicates every column resolves. *)
Lemma resolve_NoDup c cols : NoDup cols → c ∈ cols → ∃ i, resolve c cols = inr i.
Proof.
  intros Hnd [i Hi]%list_elem_of_lookup. exists i. apply resolve_inr. split; [done|].
  intros j Hj. eapply NoDup_lookup; eauto.
Qed.

(** Resolution in the schema of a join. *)
Lemma resolve_app_l c cols1 cols2 i :
  resolve c (cols1 ++ cols2) = inr i → c ∈ cols1 →
  resolve c cols1 = inr i.
Proof.
  intros [Hi Hu]%resolve_inr [j Hj]%list_elem_of_lookup.
  assert (j = i) as -> by (apply Hu; by apply lookup_app_l_Some).
  apply resolve_inr. split; [done|]. intros k Hk. apply Hu. by apply lookup_app_l_Some.
Qed.

Lemma resolve_app_r c cols1 cols2 i :
  resolve c (cols1 ++ cols2) = inr i → c ∈ cols2 →
  ∃ j, i = (length cols1 + j)%nat ∧ resolve c cols2 = inr j.
Proof.
  intros [Hi Hu]%resolve_inr [j Hj]%list_elem_of_lookup.
  assert ((cols1 ++ cols2) !! (length cols1 + j)%nat = Some c) as Hj'
    by by rewrite lookup_app_r, Nat.add_comm, Nat.add_sub by lia.
  exists j. split; [symmetry; by apply Hu|].
  apply resolve_inr. split; [done|]. intros k Hk.
  assert ((length cols1 + k)%nat = i) as Hk'.
  { apply Hu. by rewrite lookup_app_r, Nat.add_comm, Nat.add_sub by lia. }
  apply Hu in Hj'. lia.
Qed.

(** Renaming a column leaves the resolution of the other names alone. *)
Lemma resolve_rename c old new cols :
  c ≠ old → c ≠ new →
  resolve c (fmap (λ c', if decide (c' = old) then new else c') cols) = resolve c cols.
Proof.
  intros Ho Hn.
  assert (∀ i, fmap (λ c', if decide (c' = old) then new else c') cols !! i = Some c
               ↔ cols !! i = Some c) as Hiff.
  { intros i. rewrite list_lookup_fmap. destruct (cols !! i) as [c'|]; simpl; [|done].
    case_decide; split; intros [= ?]; congruence. }
  unfold resolve.
  assert (positions c (fmap (λ c', if decide (c' = old) then new else c') cols)
          = positions c cols) as ->; [|done].
  unfold positions. rewrite length_map. apply list_filter_iff. intros i. apply Hiff.
Qed.

(** The renamed column resolves where the old name did. *)
Lemma resolve_renamed old new cols i :
  resolve new (fmap (λ c', if decide (c' = old) then new else c') cols) = inr i →
  old ∈ cols → resolve old cols = inr i.
Proof.
  intros [Hi Hu]%resolve_inr [j Hj]%list_elem_of_lookup.
  assert (∀ k, cols !! k = Some old →
               fmap (λ c', if decide (c' = old) then new else c') cols !! k = Some new) as Hn.
  { intros k Hk. rewrite list_lookup_fmap, Hk. simpl. by rewrite decide_True. }
  assert (j = i) as -> by (apply Hu, Hn, Hj).
  apply resolve_inr. split; [done|]. intros k Hk. apply Hu, Hn, Hk.
Qed.

End Resolve.

(** ** Columns added by [withColumn] *)

Section PutColumn.
Implicit Types (c name : string) (cols : list string) (r : row) (v : value).

Lemma positions_snoc_ne c name cols :
  c ≠ name → positions c (cols ++ [name]) = positions c cols.
Proof.
  intros Hne. unfold positions.
  replace (length (cols ++ [name])) with (S (length cols))
    by (rewrite length_app; simpl; lia).
  rewrite seq_S, filter_app. simpl.
  rewrite filter_cons_False, filter_nil, app_nil_r.
  - induction (seq 0 (length cols)) as [|i l IH] using rev_ind; [done|].
    rewrite !filter_app, IH. f_equal.
    destruct (decide (i < length cols)%nat) as [Hi|Hi].
    + rewrite !filter_cons, !filter_nil. rewrite lookup_app_l by done. done.
    + rewrite !filter_cons_False, !filter_nil; [done| |].
      * intros H%lookup_lt_Some. lia.
      * rewrite lookup_app_r by lia. intros H.
        destruct (i - length cols)%nat; simpl in H; [congruence|done].
  - rewrite lookup_app_r, Nat.sub_diag by lia. simpl. congruence.
Qed.

Lemma resolve_put_name_ne c name cols :
  c ≠ name → resolve c (put_name name cols) = resolve c cols.
Proof.
  intros Hne. unfold put_name. case_decide; [done|].
  unfold resolve. by rewrite positions_snoc_ne.
Qed.

Lemma elem_of_put_name name cols : name ∈ put_name name cols.
Proof. unfold put_name. case_decide; [done|]. apply elem_of_app. right. by left. Qed.

Lemma put_name_subseteq name cols : cols ⊆ put_name name cols.
Proof.
  unfold put_name. case_decide; [done|]. intros c Hc. apply elem_of_app. by left.
Qed.

Lemma length_put_cell name cols r v :
  length r = length cols →
  length (put_cell name cols r v) = length (put_name name cols).
Proof.
  intros Hlen. unfold put_cell, put_name. case_decide.
  - rewrite length_zip_with. lia.
  - rewrite !length_app. simpl. lia.
Qed.

(** The column [withColumn] sets holds the new value. *)
Lemma cell_put_cell_same name cols r v j :
  length r = length cols →
  resolve name (put_name name cols) = inr j →
  cell (put_cell name cols r v) j = v.
Proof.
  intros Hlen Hj. unfold cell. apply list_lookup_total_correct.
  unfold put_cell, put_name in *. case_decide as Hin.
  - apply resolve_lookup in Hj as Hc.
    destruct (lookup_lt_is_Some_2 r j) as [x Hx].
    { rewrite Hlen. by eapply lookup_lt_Some. }
    rewrite lookup_zip_with, Hc. simpl. rewrite Hx. simpl. by rewrite decide_True.
  - apply resolve_lookup in Hj as Hc.
    destruct (decide (j < length cols)%nat) as [Hlt|Hge].
    + rewrite lookup_app_l in Hc by done. by apply list_elem_of_lookup_2 in Hc.
    + apply lookup_lt_Some in Hc as Hlt. rewrite length_app in Hlt. simpl in Hlt.
      assert (j = length r) as -> by lia.
      by rewrite lookup_app_r, Nat.sub_diag by lia.
Qed.

(** The other columns keep their value. *)
Lemma cell_put_cell_ne c name cols r v i :
  c ≠ name →
  length r = length cols →
  resolve c cols = inr i →
  cell (put_cell name cols r v) i = cell r i.
Proof.
  intros Hne Hlen Hi. unfold cell. apply resolve_lookup in Hi as Hc.
  apply lookup_lt_Some in Hc as Hlt.
  destruct (lookup_lt_is_Some_2 r i) as [x Hx]; [lia|].
  rewrite (list_lookup_total_correct r i x Hx).
  apply list_lookup_total_correct. unfold put_cell. case_decide.
  - rewrite lookup_zip_with, Hc. simpl. rewrite Hx. simpl.
    by rewrite decide_False by done.
  - by rewrite lookup_app_l by lia.
Qed.

End PutColumn.

(** ** Well-formed frames *)

Section WellFormed.
Implicit Types (df : DataFrame).

Lemma wf_frame_of_records recs : wf (frame_of_records recs).
Proof.
  unfold wf, frame_of_records. simpl. apply Forall_fmap, Forall_forall.
  intros rec _. unfold compose, row_of. by rewrite length_fmap.
Qed.

Lemma wf_filter_eq i lit df : wf df → wf (filter_eq i lit df).
Proof.
  unfold wf. simpl. rewrite !Forall_forall. intros H r Hr.
  apply list_elem_of_filter in Hr as [_ Hr]. by apply H.
Qed.

Lemma wf_withColumnRenamed old new df : wf df → wf (withColumnRenamed old new df).
Proof. unfold wf. simpl. by rewrite length_fmap. Qed.

Lemma wf_withColumn name e df : wf df → wf (withColumn name e df).
Proof.
  unfold wf. simpl. intros H. apply Forall_fmap. eapply Forall_impl; [exact H|].
  intros r Hr. simpl. by apply length_put_cell.
Qed.

Lemma wf_withColumn_udf name f df : wf df → wf (withColumn_udf name f df).
Proof.
  unfold wf. simpl. intros H. apply Forall_fmap. eapply Forall_impl; [exact H|].
  intros r Hr. simpl. by apply length_put_cell.
Qed.

Lemma wf_join left right a b : wf left → wf right → wf (join left right a b).
Proof.
  unfold wf. simpl. intros Hl Hr. apply Forall_forall. intros x Hx.
  apply list_elem_of_bind in Hx as (l & Hx & Hl').
  apply list_elem_of_fmap in Hx as (r & -> & Hr').
  apply list_elem_of_filter in Hr' as [_ Hr'].
  rewrite Forall_forall in Hl, Hr. rewrite !length_app. rewrite (Hl l), (Hr r); done.
Qed.

End WellFormed.

(** ** Projection and deduplication *)

Section Select.
Implicit Types (df t : DataFrame) (names : list string).

Lemma select_inr names df t :
  select names df = inr t ↔
  ∃ idxs, Forall2 (λ c i, resolve c (columns df) = inr i) names idxs
          ∧ t = mkFrame names ((λ r, cell r <$> idxs) <$> rows df) (fault df).
Proof.
  unfold select. rewrite result_bind_inr. split.
  - intros (idxs & H%result_all_inr & [= <-]). eauto.
  - intros (idxs & H%result_all_inr & ->). eauto.
Qed.

(** The projected row, column by column. *)
Lemma select_row names df idxs r :
  Forall2 (λ c i, resolve c (columns df) = inr i) names idxs →
  cell r <$> idxs = (λ c, named df r c) <$> names.
Proof.
  induction 1 as [|c i names idxs Hc _ IH]; [done|].
  rewrite !fmap_cons, IH. f_equal. unfold named, attr. by rewrite Hc.
Qed.

Lemma select_rows names df t :
  select names df = inr t →
  columns t = names ∧ fault t = fault df
  ∧ rows t = (λ r, (λ c, named df r c) <$> names) <$> rows df.
Proof.
  intros (idxs & H & ->)%select_inr. simpl. repeat split.
  apply list_fmap_ext. intros _ r _. by apply select_row.
Qed.

Lemma select_columns_elem_of names df t c :
  select names df = inr t → c ∈ names → c ∈ columns df.
Proof.
  intros (idxs & H & ->)%select_inr Hc.
  induction H as [|c' i names idxs Hc' _ IH]; [by apply elem_of_nil in Hc|].
  apply elem_of_cons in Hc as [->|Hc]; [by eapply resolve_elem_of|by apply IH].
Qed.

Lemma wf_select names df t : select names df = inr t → wf t.
Proof.
  intros (Hcols & _ & Hrows)%select_rows. unfold wf. rewrite Hrows, Hcols.
  apply Forall_fmap, Forall_forall. intros r _. simpl. by rewrite length_fmap.
Qed.

Lemma length_remove_dups `{EqDecision A} (l : list A) :
  (length (remove_dups l) ≤ length l)%nat.
Proof.
  induction l as [|x l IH]; simpl; [done|]. case_match; simpl; lia.
Qed.

(** A table built by [select] and [dropDuplicates]. *)
Lemma select_distinct names df t :
  dropDuplicates <$> select names df = inr t →
  columns t = names
  ∧ fault t = fault df
  ∧ NoDup (rows t)
  ∧ (length (rows t) ≤ length (rows df))%nat
  ∧ rows t = remove_dups ((λ r, (λ c, named df r c) <$> names) <$> rows df)
  ∧ ∀ o, o ∈ rows t ↔ ∃ r, r ∈ rows df ∧ o = (λ c, named df r c) <$> names.
Proof.
  intros (s & (Hc & Hf & Hr)%select_rows & ->)%result_fmap_inr. simpl.
  split_and!; [done|done|apply NoDup_remove_dups| |by rewrite Hr|].
  - etrans; [apply length_remove_dups|]. by rewrite Hr, length_fmap.
  - intros o. rewrite elem_of_remove_dups, Hr, list_elem_of_fmap.
    split; intros (r & ? & ?); eauto.
Qed.

End Select.

(** ** Rows through [withColumn] *)

Section Named.
Implicit Types (df : DataFrame) (r : row) (c name : string).

Lemma named_cell df r c i : resolve c (columns df) = inr i → named df r c = cell r i.
Proof. intros H. unfold named, attr. by rewrite H. Qed.

Lemma named_ext df df' r c : columns df = columns df' → named df r c = named df' r c.
Proof. unfold named, attr. by intros ->. Qed.

(** [withColumn] on a row: the new column holds the new value (when its
    name resolves), the other names keep theirs. *)
Lemma named_put_cell df df' name r v c :
  columns df' = put_name name (columns df) →
  length r = length (columns df) →
  named df' (put_cell name (columns df) r v) c =
    if decide (c = name)
    then match resolve name (columns df') with inr _ => v | inl _ => VNull end
    else named df r c.
Proof.
  intros Hcols Hlen. unfold named, attr. rewrite Hcols. case_decide as Hc.
  - subst c. destruct (resolve name (put_name name (columns df))) as [e|j] eqn:H; [done|].
    by apply cell_put_cell_same.
  - rewrite resolve_put_name_ne by done.
    destruct (resolve c (columns df)) as [e|i] eqn:H; [done|].
    by eapply cell_put_cell_ne.
Qed.

End Named.

(** ** The reader *)

Section Reader.
Implicit Types (recs : list json_record) (rec : json_record) (c : string).

Lemma rows_frame_of_records recs :
  rows (frame_of_records recs) = row_of (columns (frame_of_records recs)) <$> recs.
Proof. done. Qed.

Lemma NoDup_columns_frame_of_records recs : NoDup (columns (frame_of_records recs)).
Proof. apply NoDup_remove_dups. Qed.

Lemma field_not_key c rec : c ∉ rec.*1 → field c rec = VNull.
Proof.
  induction rec as [|[k v] rec IH]; simpl; [done|]. intros Hc.
  apply not_elem_of_cons in Hc as [Hk Hc]. rewrite decide_False by done. by apply IH.
Qed.

(** A row of the frame read holds, under each name, the field of its
    record. *)
Lemma named_frame_of_records recs rec c :
  rec ∈ recs →
  named (frame_of_records recs) (row_of (columns (frame_of_records recs)) rec) c
  = field c rec.
Proof.
  intros Hrec. unfold named, attr.
  destruct (resolve c (columns (frame_of_records recs))) as [e|i] eqn:H.
  - symmetry. apply field_not_key. intros Hc.
    destruct (resolve_NoDup c (columns (frame_of_records recs))) as [i Hi];
      [apply NoDup_columns_frame_of_records| |congruence].
    simpl. apply elem_of_remove_dups, list_elem_of_bind. eauto.
  - apply resolve_lookup in H. unfold cell, row_of.
    apply list_lookup_total_correct. by rewrite list_lookup_fmap, H.
Qed.

End Reader.

(** ** The stages of [process_log_data] *)

Section Stages.
Implicit Types (df : DataFrame) (c : string) (cols : list string).

Lemma at_most_once_NoDup c cols : NoDup cols → at_most_once c cols.
Proof. intros Hnd i j Hi Hj. eapply NoDup_lookup; eauto. Qed.

Lemma at_most_once_rename c old new cols :
  c ≠ old → c ≠ new → at_most_once c cols →
  at_most_once c ((λ c', if decide (c' = old) then new else c') <$> cols).
Proof.
  intros Ho Hn H i j Hi Hj. apply H.
  - rewrite list_lookup_fmap in Hi. destruct (cols !! i) as [c'|]; simpl in *; [|done].
    case_decide; simplify_eq; done.
  - rewrite list_lookup_fmap in Hj. destruct (cols !! j) as [c'|]; simpl in *; [|done].
    case_decide; simplify_eq; done.
Qed.

Lemma at_most_once_put_name c name cols :
  at_most_once c cols → at_most_once c (put_name name cols).
Proof.
  intros H. unfold put_name. case_decide as Hin; [done|]. intros i j Hi Hj.
  apply lookup_app_Some in Hi as [Hi|[Hi1 Hi2]], Hj as [Hj|[Hj1 Hj2]].
  - by apply H.
  - apply list_lookup_singleton_Some in Hj2 as [_ ->].
    by apply list_elem_of_lookup_2 in Hi.
  - apply list_lookup_singleton_Some in Hi2 as [_ ->].
    by apply list_elem_of_lookup_2 in Hj.
  - apply list_lookup_singleton_Some in Hi2 as [? _].
    apply list_lookup_singleton_Some in Hj2 as [? _]. lia.
Qed.

(** A column just set resolves unless its name was already ambiguous. *)
Lemma resolve_put_name c cols :
  at_most_once c cols → ∃ j, resolve c (put_name c cols) = inr j.
Proof.
  intros H. pose proof (elem_of_put_name c cols) as [j Hj]%list_elem_of_lookup.
  exists j. apply resolve_inr. split; [done|]. intros k Hk.
  by apply (at_most_once_put_name c c cols H).
Qed.

Lemma resolve_at_most_once c cols i : resolve c cols = inr i → at_most_once c cols.
Proof.
  intros [_ H]%resolve_inr j k Hj Hk. rewrite (H j Hj), (H k Hk). done.
Qed.

(** *** Lines 100 to 106 *)

Lemma filter_and_rename_inr df0 df :
  filter_and_rename df0 = inr df ↔
  ∃ page, resolve "page" (columns df0) = inr page
          ∧ df = mkFrame (rename_all (columns df0))
                         (filter (λ r, cell r page = VStr "NextSong" ∧ VStr "NextSong" ≠ VNull)
                                 (rows df0))
                         (fault df0).
Proof.
  unfold filter_and_rename. rewrite result_bind_inr. unfold attr. split.
  - intros (page & Hp & [= <-]). eauto.
  - intros (page & Hp & ->). eauto.
Qed.

Lemma resolve_rename_all c cols :
  c ∉ renamed → resolve c (rename_all cols) = resolve c cols.
Proof.
  intros Hc. unfold rename_all.
  rewrite !resolve_rename; first done;
    intros ->; apply Hc; by apply (bool_decide_unpack _).
Qed.

Lemma at_most_once_rename_all c cols :
  c ∉ renamed → at_most_once c cols → at_most_once c (rename_all cols).
Proof.
  intros Hc H. unfold rename_all.
  repeat (apply at_most_once_rename;
          [intros ->; apply Hc; by apply (bool_decide_unpack _)
          |intros ->; apply Hc; by apply (bool_decide_unpack _)|]).
  done.
Qed.

Lemma length_rename_all cols : length (rename_all cols) = length cols.
Proof. unfold rename_all. by rewrite !length_fmap. Qed.

Lemma wf_filter_and_rename df0 df : filter_and_rename df0 = inr df → wf df0 → wf df.
Proof.
  intros (page & _ & ->)%filter_and_rename_inr H. unfold wf in *. simpl.
  rewrite length_rename_all. rewrite !Forall_forall in *. intros r Hr.
  apply list_elem_of_filter in Hr as [_ Hr]. by apply H.
Qed.

(** *** Line 130 *)

Lemma add_start_time_inr tz df df' :
  add_start_time (millis_to_datetime tz) df = inr df' ↔
  ∃ ts, resolve "ts" (columns df) = inr ts
        ∧ df' = withColumn_udf "start_time" (λ r, millis_to_datetime tz (cell r ts)) df.
Proof.
  unfold add_start_time. rewrite result_bind_inr. unfold attr. split.
  - intros (ts & Hp & [= <-]). eauto.
  - intros (ts & Hp & ->). eauto.
Qed.

End Stages.

(** ** What a row holds, stage after stage *)

Section Views.
Implicit Types (df : DataFrame) (r : row) (v : string → value) (c name : string).

Lemma views_named df r : length r = length (columns df) → views df r (named df r).
Proof. intros H. split; [done|]. intros c. unfold named. by destruct (attr df c). Qed.

Lemma views_resolved df r v c i :
  views df r v → resolve c (columns df) = inr i → cell r i = v c.
Proof.
  intros [_ H] Hi. specialize (H c). unfold named, attr in H. by rewrite Hi in H.
Qed.

Lemma views_put_cell df df' name r v x :
  columns df' = put_name name (columns df) →
  views df r v →
  views df' (put_cell name (columns df) r x) (λ c, if decide (c = name) then x else v c).
Proof.
  intros Hcols [Hlen Hv]. split.
  - rewrite Hcols. by apply length_put_cell.
  - intros c. rewrite (named_put_cell df df') by done. unfold attr. case_decide as Hc.
    + by subst.
    + rewrite Hcols, resolve_put_name_ne by done. apply Hv.
Qed.

Lemma views_ext df r v v' :
  views df r v → (∀ c i, resolve c (columns df) = inr i → v c = v' c) → views df r v'.
Proof.
  intros [Hlen Hv] Hext. split; [done|]. intros c. rewrite Hv. unfold attr.
  destruct (resolve c (columns df)) as [e|i] eqn:Hc; [done|]. by eapply Hext.
Qed.

(** Line 130 on the rows. *)
Lemma add_start_time_views tz df df' :
  add_start_time (millis_to_datetime tz) df = inr df' →
  ∃ g, rows df' = g <$> rows df
       ∧ ∀ r v, views df r v → views df' (g r) (start_time_view tz v).
Proof.
  intros (ts & Hts & ->)%add_start_time_inr. eexists. split; [reflexivity|].
  intros r v Hv. simpl.
  rewrite (views_resolved df r v "ts" ts) by auto.
  eapply views_ext; [apply (views_put_cell df); [done|exact Hv]|].
  intros c i _. unfold start_time_view. by case_decide.
Qed.

(** One column of lines 138 to 143: the [datetime] cell it reads holds
    [dt]. *)
Ltac calendar_step dt Hv Hc :=
  match type of Hc with
  | resolve _ _ = inr ?c =>
      match goal with
      | |- context [cell ?x c] =>
          let E := fresh "E" in
          assert (cell x c = dt) as E
            by (rewrite (views_resolved _ x _ _ c Hv Hc); cbv beta;
                repeat case_decide; done);
          rewrite E; clear E
      end
  end.

(** Lines 137 to 143 on the rows. *)
Lemma add_calendar_views tz df df' :
  add_calendar tz (millis_to_datetime tz) df = inr df' →
  ∃ g, rows df' = g <$> rows df
       ∧ ∀ r v, views df r v → views df' (g r) (calendar_view tz v).
Proof.
  unfold add_calendar. intros H.
  apply result_bind_inr in H as (ts & Hts & H).
  set (d0 := withColumn_udf "datetime" _ df) in H.
  apply result_bind_inr in H as (c1 & Hc1 & H).
  set (d1 := withColumn "hour" _ d0) in H.
  apply result_bind_inr in H as (c2 & Hc2 & H).
  set (d2 := withColumn "day" _ d1) in H.
  apply result_bind_inr in H as (c3 & Hc3 & H).
  set (d3 := withColumn "week" _ d2) in H.
  apply result_bind_inr in H as (c4 & Hc4 & H).
  set (d4 := withColumn "month" _ d3) in H.
  apply result_bind_inr in H as (c5 & Hc5 & H).
  set (d5 := withColumn "year" _ d4) in H.
  apply result_bind_inr in H as (c6 & Hc6 & H).
  injection H as <-.
  exists (λ r,
    let r0 := put_cell "datetime" (columns df) r (value_of (millis_to_datetime tz (cell r ts))) in
    let r1 := put_cell "hour" (columns d0) r0
                (Calendar.on_timestamp (Calendar.hour tz) (cell r0 c1)) in
    let r2 := put_cell "day" (columns d1) r1
                (Calendar.on_timestamp (Calendar.dayofmonth tz) (cell r1 c2)) in
    let r3 := put_cell "week" (columns d2) r2
                (Calendar.on_timestamp (Calendar.weekofyear tz) (cell r2 c3)) in
    let r4 := put_cell "month" (columns d3) r3
                (Calendar.on_timestamp (Calendar.month tz) (cell r3 c4)) in
    let r5 := put_cell "year" (columns d4) r4
                (Calendar.on_timestamp (Calendar.year tz) (cell r4 c5)) in
    put_cell "weekday" (columns d5) r5
                (Calendar.on_timestamp (Calendar.dayofweek tz) (cell r5 c6))).
  split.
  { simpl. rewrite <- !list_fmap_compose. apply list_fmap_ext. intros _ r _. done. }
  intros r v V0. unfold attr in *. cbv beta zeta.
  set (dt := value_of (millis_to_datetime tz (cell r ts))).
  pose proof (views_put_cell df d0 "datetime" r _ dt eq_refl V0) as V1.
  calendar_step dt V1 Hc1.
  pose proof (views_put_cell d0 d1 "hour" _ _
                (Calendar.on_timestamp (Calendar.hour tz) dt) eq_refl V1) as V2.
  calendar_step dt V2 Hc2.
  pose proof (views_put_cell d1 d2 "day" _ _
                (Calendar.on_timestamp (Calendar.dayofmonth tz) dt) eq_refl V2) as V3.
  calendar_step dt V3 Hc3.
  pose proof (views_put_cell d2 d3 "week" _ _
                (Calendar.on_timestamp (Calendar.weekofyear tz) dt) eq_refl V3) as V4.
  calendar_step dt V4 Hc4.
  pose proof (views_put_cell d3 d4 "month" _ _
                (Calendar.on_timestamp (Calendar.month tz) dt) eq_refl V4) as V5.
  calendar_step dt V5 Hc5.
  pose proof (views_put_cell d4 d5 "year" _ _
                (Calendar.on_timestamp (Calendar.year tz) dt) eq_refl V5) as V6.
  calendar_step dt V6 Hc6.
  pose proof (views_put_cell d5 (withColumn "weekday"
                (λ r, Calendar.on_timestamp (Calendar.dayofweek tz) (cell r c6)) d5)
                "weekday" _ _
                (Calendar.on_timestamp (Calendar.dayofweek tz) dt) eq_refl V6) as V7.
  eapply views_ext; [exact V7|].
  intros c i _. unfold calendar_view.
  rewrite <- (views_resolved df r v "ts" ts) by auto. fold dt.
  repeat case_decide; done.
Qed.

End Views.

(** ** Lists *)

Section Lists.
Context {A B : Type}.

Lemma filter_fmap_elem_of (f : A → B) (P : B → Prop) (Q : A → Prop)
    `{!∀ y, Decision (P y), !∀ x, Decision (Q x)} (l : list A) :
  (∀ x, x ∈ l → P (f x) ↔ Q x) →
  filter P (f <$> l) = f <$> filter Q l.
Proof.
  induction l as [|x l IH]; intros Hiff; [done|].
  rewrite fmap_cons, !filter_cons. rewrite IH by (intros y Hy; apply Hiff; by right).
  destruct (decide (Q x)) as [Hq|Hq].
  - rewrite decide_True by (apply Hiff; [by left|done]). done.
  - rewrite decide_False; [done|]. intros Hp. apply Hq, Hiff; [by left|done].
Qed.

Lemma remove_dups_fmap_inj `{EqDecision A, EqDecision B} (f : A → B) (l : list A) :
  (∀ x y, x ∈ l → y ∈ l → f x = f y → x = y) →
  remove_dups (f <$> l) = f <$> remove_dups l.
Proof.
  induction l as [|x l IH]; intros Hinj; [done|]. rewrite fmap_cons.
  change (remove_dups (f x :: (f <$> l)))
    with (if decide_rel elem_of (f x) (f <$> l)
          then remove_dups (f <$> l) else f x :: remove_dups (f <$> l)).
  change (remove_dups (x :: l))
    with (if decide_rel elem_of x l then remove_dups l else x :: remove_dups l).
  rewrite IH by (intros y z Hy Hz; apply Hinj; by right).
  destruct (decide_rel elem_of x l) as [Hx|Hx].
  - destruct (decide_rel elem_of (f x) (f <$> l)) as [|Hn]; [done|].
    exfalso. by apply Hn, list_elem_of_fmap_2.
  - destruct (decide_rel elem_of (f x) (f <$> l)) as [Hy|]; [|done].
    apply list_elem_of_fmap in Hy as (y & Hxy & Hy).
    apply Hinj in Hxy; [by subst|by left|by right].
Qed.

Lemma first_failure_None (f : row → result value) (rs : list row) :
  (∀ r, r ∈ rs → ∃ v, f r = inr v) → first_failure f rs = None.
Proof.
  induction rs as [|r rs IH]; intros Hok; [done|]. simpl.
  destruct (Hok r) as [v ->]; [by left|]. apply IH. intros r' Hr'. apply Hok. by right.
Qed.

End Lists.

(** ** Calendar fields *)

Section CalendarRanges.

Lemma civil_from_days_ranges (days : Z) :
  1 ≤ (Calendar.civil_from_days days).1.2 ≤ 12
  ∧ 1 ≤ (Calendar.civil_from_days days).2 ≤ 31.
Proof.
  unfold Calendar.civil_from_days. cbv zeta. simpl.
  set (z := days + 719468).
  set (doe := z `mod` 146097).
  assert (0 ≤ doe < 146097) as Hdoe by (apply Z.mod_pos_bound; lia).
  clearbody doe.
  set (yoe := (doe - doe `div` 1460 + doe `div` 36524 - doe `div` 146096) `div` 365).
  set (doy := doe - (365 * yoe + yoe `div` 4 - yoe `div` 100)).
  assert (0 ≤ doy ≤ 365) as Hdoy by (unfold doy, yoe; Z.div_mod_to_equations; lia).
  clearbody doy.
  set (mp := (5 * doy + 2) `div` 153).
  assert (0 ≤ mp ≤ 11) as Hmp by (unfold mp; Z.div_mod_to_equations; lia).
  assert (1 ≤ doy - (153 * mp + 2) `div` 5 + 1 ≤ 31) as Hd
    by (unfold mp; Z.div_mod_to_equations; lia).
  clearbody mp. repeat case_decide; lia.
Qed.

Lemma hour_range tz us : 0 ≤ Calendar.hour tz us ≤ 23.
Proof.
  unfold Calendar.hour, Calendar.second_of_day.
  pose proof (Z.mod_pos_bound (Calendar.local_seconds tz us) 86400).
  Z.div_mod_to_equations; lia.
Qed.

Lemma dayofmonth_range tz us : 1 ≤ Calendar.dayofmonth tz us ≤ 31.
Proof. apply civil_from_days_ranges. Qed.

Lemma month_range tz us : 1 ≤ Calendar.month tz us ≤ 12.
Proof. apply civil_from_days_ranges. Qed.

Lemma fromtimestamp_millis_int tz n :
  Calendar.representable tz (n * 1000) →
  Calendar.fromtimestamp_millis tz (VInt n) = inr (VTs (n * 1000)).
Proof. intros H. unfold Calendar.fromtimestamp_millis. simpl. by rewrite decide_True. Qed.

End CalendarRanges.

(** ** Pending failures of the udf columns *)

Section Faults.
Implicit Types (df : DataFrame).

Lemma add_start_time_fault tz df df' :
  add_start_time (millis_to_datetime tz) df = inr df' →
  (∀ r, r ∈ rows df → ∃ v x, views df r v ∧ millis_to_datetime tz (v "ts") = inr x) →
  fault df' = fault df.
Proof.
  intros (ts & Hts & ->)%add_start_time_inr Hok. simpl.
  destruct (fault df); [done|]. apply first_failure_None. intros r Hr.
  destruct (Hok r Hr) as (v & x & Hv & Hx).
  rewrite (views_resolved df r v "ts" ts) by auto. eauto.
Qed.

Lemma add_calendar_fault tz df df' :
  add_calendar tz (millis_to_datetime tz) df = inr df' →
  (∀ r, r ∈ rows df → ∃ v x, views df r v ∧ millis_to_datetime tz (v "ts") = inr x) →
  fault df' = fault df.
Proof.
  unfold add_calendar. intros H Hok.
  apply result_bind_inr in H as (ts & Hts & H).
  repeat (apply result_bind_inr in H as (? & _ & H)).
  injection H as <-. simpl.
  destruct (fault df); [done|]. apply first_failure_None. intros r Hr.
  destruct (Hok r Hr) as (v & y & Hv & Hy).
  rewrite (views_resolved df r v "ts" ts) by auto. eauto.
Qed.

End Faults.

(** ** The prepared log frame *)

Section Prepare.
Implicit Types (df : DataFrame) (recs : list json_record).

Lemma prepare_inr tz df0 df3 :
  prepare tz df0 = inr df3 ↔
  ∃ df1 df2, filter_and_rename df0 = inr df1
             ∧ add_start_time (millis_to_datetime tz) df1 = inr df2
             ∧ add_calendar tz (millis_to_datetime tz) df2 = inr df3.
Proof.
  unfold prepare. rewrite result_bind_inr. split.
  - intros (df1 & H1 & (df2 & H2 & H3)%result_bind_inr). eauto.
  - intros (df1 & df2 & H1 & H2 & H3). exists df1. split; [done|].
    apply result_bind_inr. eauto.
Qed.

(** The rows of the frame filtered from the records read. *)
Lemma filter_and_rename_records recs df1 :
  filter_and_rename (frame_of_records recs) = inr df1 →
  rows df1 = row_of (columns (frame_of_records recs)) <$> filter played recs
  ∧ fault df1 = None
  ∧ wf df1
  ∧ ∀ rec c, rec ∈ recs → c ∉ renamed →
      named df1 (row_of (columns (frame_of_records recs)) rec) c = field c rec.
Proof.
  intros H. pose proof (wf_filter_and_rename _ _ H (wf_frame_of_records recs)) as Hwf.
  apply filter_and_rename_inr in H as (page & Hpage & ->).
  split_and!; [|done|done|].
  - simpl. apply filter_fmap_elem_of. intros rec Hrec. unfold played.
    rewrite <- (named_frame_of_records recs rec "page" Hrec).
    rewrite (named_cell _ _ _ _ Hpage). split; [by intros [? _]|done].
  - intros rec c Hrec Hc. rewrite <- (named_frame_of_records recs rec c Hrec).
    unfold named, attr. simpl. by rewrite resolve_rename_all.
Qed.

(** What the prepared frame holds for each record of a played song. *)
Lemma prepare_records tz recs df3 :
  prepare tz (frame_of_records recs) = inr df3 →
  ∃ (g : json_record → row) (V : json_record → string → value),
    rows df3 = g <$> filter played recs
    ∧ (∀ rec, rec ∈ recs →
         views df3 (g rec) (calendar_view tz (start_time_view tz (V rec)))
         ∧ ∀ c, c ∉ renamed → V rec c = field c rec)
    ∧ ((∀ rec, rec ∈ recs → played rec →
          ∃ x, Calendar.fromtimestamp_millis tz (field "ts" rec) = inr x) →
       fault df3 = None).
Proof.
  intros (df1 & df2 & H1 & H2 & H3)%prepare_inr.
  destruct (filter_and_rename_records recs df1 H1) as (Hrows & Hfault & Hwf & Hnamed).
  set (cols := columns (frame_of_records recs)) in *.
  assert (∀ rec, views df1 (row_of cols rec) (named df1 (row_of cols rec))) as HV1.
  { intros rec. apply views_named. unfold row_of. rewrite length_fmap.
    apply filter_and_rename_inr in H1 as (page & _ & ->). simpl.
    by rewrite length_rename_all. }
  destruct (add_start_time_views tz df1 df2 H2) as (g1 & Hrows2 & HV2).
  destruct (add_calendar_views tz df2 df3 H3) as (g2 & Hrows3 & HV3).
  exists (λ rec, g2 (g1 (row_of cols rec))), (λ rec, named df1 (row_of cols rec)).
  split_and!.
  - by rewrite Hrows3, Hrows2, Hrows, <- !list_fmap_compose.
  - intros rec Hrec. split; [by apply HV3, HV2|]. intros c Hc. by apply Hnamed.
  - intros Hok.
    assert ("ts" ∉ renamed) as Hts by by apply (bool_decide_unpack _).
    rewrite (add_calendar_fault tz df2 df3 H3).
    + rewrite (add_start_time_fault tz df1 df2 H2); [done|].
      intros r Hr. rewrite Hrows in Hr.
      apply list_elem_of_fmap in Hr as (rec & -> & [Hp Hrec]%list_elem_of_filter).
      destruct (Hok rec Hrec Hp) as [x Hx].
      exists (named df1 (row_of cols rec)), x. split; [done|].
      unfold millis_to_datetime. by rewrite Hnamed.
    + intros r Hr. rewrite Hrows2, Hrows in Hr.
      apply list_elem_of_fmap in Hr as (r1 & -> & Hr).
      apply list_elem_of_fmap in Hr as (rec & -> & [Hp Hrec]%list_elem_of_filter).
      destruct (Hok rec Hrec Hp) as [x Hx].
      exists (start_time_view tz (named df1 (row_of cols rec))), x.
      split; [by apply HV2|].
      unfold millis_to_datetime, start_time_view. rewrite decide_False by done.
      by rewrite Hnamed.
Qed.

End Prepare.

(** ** The dimension tables *)

Section Dimensions.
Implicit Types (df t : DataFrame) (recs : list json_record).

Lemma select_resolves names df t c :
  select names df = inr t → c ∈ names → ∃ i, resolve c (columns df) = inr i.
Proof.
  intros (idxs & H & _)%select_inr Hc.
  induction H as [|c' i names idxs Hc' _ IH]; [by apply elem_of_nil in Hc|].
  apply elem_of_cons in Hc as [->|Hc]; eauto.
Qed.

Lemma views_named_resolved df r v c i :
  views df r v → resolve c (columns df) = inr i → named df r c = v c.
Proof. intros [_ H] Hc. rewrite H. unfold attr. by rewrite Hc. Qed.

(** The seven columns of the time table, for a row whose [ts] is the
    integer [n]. *)
Lemma time_columns tz df r v n :
  views df r (calendar_view tz (start_time_view tz v)) →
  v "ts" = VInt n →
  Calendar.representable tz (n * 1000) →
  (∀ c, c ∈ ["start_time"; "hour"; "day"; "week"; "month"; "year"; "weekday"] →
        ∃ i, resolve c (columns df) = inr i) →
  (λ c, named df r c) <$> ["start_time"; "hour"; "day"; "week"; "month"; "year"; "weekday"]
  = time_row tz n.
Proof.
  intros Hv Hts Hrep Hres.
  assert (∀ c, c ∈ ["start_time"; "hour"; "day"; "week"; "month"; "year"; "weekday"] →
               named df r c = calendar_view tz (start_time_view tz v) c) as Hn.
  { intros c Hc. destruct (Hres c Hc) as [i Hi]. by eapply views_named_resolved. }
  simpl. rewrite !Hn by by apply (bool_decide_unpack _).
  unfold calendar_view, start_time_view, millis_to_datetime, millis_to_datetime. simpl.
  rewrite Hts, fromtimestamp_millis_int by done. done.
Qed.

End Dimensions.

(** ** The time table *)

Section TimeTable.
Implicit Types (t : DataFrame) (recs : list json_record).

Lemma time_of_log_rows tz recs t :
  time_of_log tz (frame_of_records recs) = inr t →
  (∀ rec, rec ∈ recs → played rec →
          ∃ n, field "ts" rec = VInt n ∧ Calendar.representable tz (n * 1000)) →
  columns t = ["start_time"; "hour"; "day"; "week"; "month"; "year"; "weekday"]
  ∧ fault t = None
  ∧ rows t = remove_dups (time_row_of tz <$> (field "ts" <$> filter played recs)).
Proof.
  unfold time_of_log. intros (df3 & Hprep & Ht)%result_bind_inr Hts.
  destruct (prepare_records tz recs df3 Hprep) as (g & V & Hrows & Hviews & Hfault).
  pose proof Ht as (s & Hs & _)%result_fmap_inr.
  apply select_distinct in Ht as (Hcols & Hf & _ & _ & Hr & _).
  split_and!; [done| |].
  - rewrite Hf. apply Hfault. intros rec Hrec Hp.
    destruct (Hts rec Hrec Hp) as (n & -> & Hrep).
    rewrite fromtimestamp_millis_int by done. eauto.
  - rewrite Hr, Hrows, <- !list_fmap_compose. f_equal.
    apply list_fmap_ext. intros _ rec Hrec%list_elem_of_lookup_2.
    apply list_elem_of_filter in Hrec as [Hp Hrec]. simpl.
    destruct (Hts rec Hrec Hp) as (n & Hn & Hrep).
    destruct (Hviews rec Hrec) as [Hv HV].
    rewrite Hn. simpl. apply (time_columns tz df3 (g rec) (V rec) n); [done| |done|].
    + rewrite HV; [done|]. by apply (bool_decide_unpack _).
    + intros c Hc. by eapply select_resolves.
Qed.

End TimeTable.

(** ** Row counts *)

Section RowCounts.
Implicit Types (df t : DataFrame).

Lemma length_filter_and_rename df0 df :
  filter_and_rename df0 = inr df → (length (rows df) ≤ length (rows df0))%nat.
Proof. intros (page & _ & ->)%filter_and_rename_inr. simpl. apply length_filter. Qed.

Lemma length_prepare tz df0 df :
  prepare tz df0 = inr df → (length (rows df) ≤ length (rows df0))%nat.
Proof.
  intros (df1 & df2 & H1 & H2 & H3)%prepare_inr.
  destruct (add_start_time_views tz df1 df2 H2) as (g1 & Hr2 & _).
  destruct (add_calendar_views tz df2 df H3) as (g2 & Hr3 & _).
  rewrite Hr3, Hr2, !length_fmap. by eapply length_filter_and_rename.
Qed.

End RowCounts.

(** ** Zips and binds *)

Section Zips.
Context {A B C D : Type}.

Lemma fmap_zip_with (h : C → D) (f : A → B → C) (l : list A) (k : list B) :
  h <$> zip_with f l k = zip_with (λ x y, h (f x y)) l k.
Proof. revert k. induction l as [|x l IH]; intros [|y k]; f_equal/=; auto. Qed.

Lemma zip_with_const_l (f : A → C) (l : list A) (k : list B) :
  (length l ≤ length k)%nat → zip_with (λ x _, f x) l k = f <$> l.
Proof.
  revert k. induction l as [|x l IH]; intros [|y k] Hlen; simpl in *; try done; try lia.
  f_equal. apply IH. lia.
Qed.

Lemma zip_with_const_r (f : B → C) (l : list A) (k : list B) :
  (length k ≤ length l)%nat → zip_with (λ _ y, f y) l k = f <$> k.
Proof.
  revert k. induction l as [|x l IH]; intros [|y k] Hlen; simpl in *; try done; try lia.
  f_equal. apply IH. lia.
Qed.

Lemma zip_with_ext_elem_of (f g : A → B → C) (l : list A) (k : list B) :
  (∀ x y, x ∈ l → f x y = g x y) → zip_with f l k = zip_with g l k.
Proof.
  revert k. induction l as [|x l IH]; intros [|y k] Hfg; simpl; try done.
  f_equal; [apply Hfg; by left|]. apply IH. intros x' y' Hx'. apply Hfg. by right.
Qed.

Lemma list_bind_ext_elem_of (f g : A → list B) (l : list A) :
  (∀ x, x ∈ l → f x = g x) → l ≫= f = l ≫= g.
Proof.
  induction l as [|x l IH]; intros Hfg; [done|]. rewrite !bind_cons. f_equal.
  - apply Hfg. by left.
  - apply IH. intros y Hy. apply Hfg. by right.
Qed.

Lemma list_fmap_bind_r (h : B → C) (f : A → list B) (l : list A) :
  h <$> (l ≫= f) = l ≫= (λ x, h <$> f x).
Proof.
  induction l as [|x l IH]; [done|]. by rewrite !bind_cons, fmap_app, IH.
Qed.

End Zips.

(** ** Identifiers *)

Section Identifiers.

Lemma wrap64_small z : - 2 ^ 63 ≤ z < 2 ^ 63 → wrap64 z = z.
Proof. intros Hz. unfold wrap64. rewrite Z.mod_small by lia. lia. Qed.

Lemma length_monotonic_ids p layout n : length (monotonic_ids p layout n) = n.
Proof.
  revert p n. induction layout as [|k layout IH]; intros p n; simpl.
  - rewrite length_fmap, length_seqZ. lia.
  - rewrite length_app, length_fmap, length_seqZ, IH. lia.
Qed.

Lemma StronglySorted_lt_NoDup (l : list Z) : StronglySorted Z.lt l → NoDup l.
Proof.
  induction 1 as [|x l _ IH Hx]; constructor; [|done].
  intros Hin. rewrite Forall_forall in Hx. specialize (Hx x Hin). lia.
Qed.

(** The ids of one partition. *)
Lemma partition_ids_sorted p n :
  0 ≤ p < 2 ^ 30 → n ≤ 2 ^ 33 →
  StronglySorted Z.lt ((λ i, wrap64 (Z.shiftl p 33 + i)) <$> seqZ 0 n)
  ∧ Forall (λ x, p * 2 ^ 33 ≤ x < (p + 1) * 2 ^ 33)
           ((λ i, wrap64 (Z.shiftl p 33 + i)) <$> seqZ 0 n).
Proof.
  intros Hp Hn.
  assert (∀ i, 0 ≤ i < n → wrap64 (Z.shiftl p 33 + i) = p * 2 ^ 33 + i) as Hw.
  { intros i Hi. rewrite Z.shiftl_mul_pow2 by lia. apply wrap64_small. lia. }
  split.
  - apply (StronglySorted_fmap _ (λ x y, 0 ≤ x ∧ x < y ∧ y < n)).
    + intros x y (Hx & Hxy & Hy). rewrite !Hw by lia. lia.
    + destruct (decide (0 ≤ n)) as [Hn0|Hn0]; [|rewrite seqZ_nil by lia; constructor].
      assert (∀ m : nat, Z.of_nat m ≤ n →
                StronglySorted (λ x y, 0 ≤ x ∧ x < y ∧ y < n) (seqZ 0 (Z.of_nat m))) as Hm.
      { intros m. induction m as [|m IH]; intros Hle.
        - rewrite seqZ_nil by lia. constructor.
        - rewrite seqZ_S. apply StronglySorted_app_2.
          + intros x y Hx%elem_of_seqZ Hy%list_elem_of_singleton. lia.
          + apply IH. lia.
          + repeat constructor. }
      specialize (Hm (Z.to_nat n)). rewrite Z2Nat.id in Hm by done. apply Hm. lia.
  - apply Forall_fmap, Forall_forall. intros i Hi%elem_of_seqZ. simpl.
    rewrite Hw by lia. lia.
Qed.

(** Ids grow along the rows as long as no partition outgrows its 33
    bits and the partition index stays within its range. *)
Lemma monotonic_ids_sorted p layout n :
  0 ≤ p → p + Z.of_nat (length layout) < 2 ^ 30 →
  Forall (λ k, Z.of_nat k ≤ 2 ^ 33) layout →
  Z.of_nat (n - sum_list layout) ≤ 2 ^ 33 →
  StronglySorted Z.lt (monotonic_ids p layout n)
  ∧ Forall (λ x, p * 2 ^ 33 ≤ x) (monotonic_ids p layout n).
Proof.
  revert p n. induction layout as [|k layout IH]; intros p n Hp Hlen Hk Hrest; simpl in *.
  - destruct (partition_ids_sorted p (Z.of_nat n)) as [Hs Hb]; [lia|lia|].
    split; [done|]. eapply Forall_impl; [exact Hb|]. intros x Hx. simpl in Hx. lia.
  - apply Forall_cons in Hk as [Hk Hks].
    destruct (partition_ids_sorted p (Z.of_nat (k `min` n))) as [Hs Hb]; [lia|lia|].
    destruct (IH (p + 1) (n - k)%nat) as [Hs' Hb']; [lia|lia|done| |].
    { replace (n - k - sum_list layout)%nat with (n - (k + sum_list layout))%nat by lia.
      done. }
    split.
    + apply StronglySorted_app_2; [|done|done].
      intros x y Hx Hy. rewrite Forall_forall in Hb, Hb'.
      specialize (Hb x Hx). specialize (Hb' y Hy). simpl in *. lia.
    + apply Forall_app. split.
      * eapply Forall_impl; [exact Hb|]. intros x Hx. simpl in Hx. lia.
      * eapply Forall_impl; [exact Hb'|]. intros x Hx. simpl in Hx. lia.
Qed.

End Identifiers.

(** ** The fact table *)

Section Songplays.
Implicit Types (df song_df sp : DataFrame) (l s : row) (c : string).

Lemma songplays_table_of_inr layout df song_df sp :
  songplays_table_of layout df song_df = inr sp ↔
  ∃ a b, resolve "artist" (columns df) = inr a
         ∧ resolve "artist_name" (columns song_df) = inr b
         ∧ select ("songplay_id" :: fact_names)
                  (withColumn_id "songplay_id" layout (join df song_df a b)) = inr sp.
Proof.
  unfold songplays_table_of, attr. rewrite result_bind_inr. split.
  - intros (a & Ha & (b & Hb & H)%result_bind_inr). eauto.
  - intros (a & b & Ha & Hb & H). exists a. split; [done|].
    apply result_bind_inr. eauto.
Qed.

(** A row of the join holds, under the names of the left frame, what
    the left row holds, and likewise on the right. *)
Lemma named_join_l df song_df a b l s c i :
  resolve c (columns (join df song_df a b)) = inr i →
  c ∈ columns df →
  length l = length (columns df) →
  named (join df song_df a b) (l ++ s) c = named df l c.
Proof.
  simpl. intros Hi Hc Hlen. unfold named, attr. simpl. rewrite Hi.
  apply resolve_app_l in Hi; [|done]. rewrite Hi.
  unfold cell. apply lookup_total_app_l. rewrite Hlen. by eapply resolve_lt.
Qed.

Lemma named_join_r df song_df a b l s c i :
  resolve c (columns (join df song_df a b)) = inr i →
  c ∈ columns song_df →
  length l = length (columns df) →
  named (join df song_df a b) (l ++ s) c = named song_df s c.
Proof.
  simpl. intros Hi Hc Hlen. unfold named, attr. simpl. rewrite Hi.
  apply resolve_app_r in Hi as (j & -> & Hj); [|done]. rewrite Hj.
  unfold cell. etrans; [apply lookup_total_app_r; lia|]. f_equal. lia.
Qed.

(** The rows of the fact table: the id, then the eight columns read
    from the joined row. *)
Lemma songplays_rows layout df song_df sp :
  wf df → wf song_df →
  songplays_table_of layout df song_df = inr sp →
  ∃ a b,
    resolve "artist" (columns df) = inr a
    ∧ resolve "artist_name" (columns song_df) = inr b
    ∧ columns sp = "songplay_id" :: fact_names
    ∧ (∀ c, c ∈ fact_names → ∃ i, resolve c (columns (join df song_df a b)) = inr i)
    ∧ rows sp =
        zip_with (λ j i, VInt i :: ((λ c, named (join df song_df a b) j c) <$> fact_names))
                 (rows (join df song_df a b))
                 (monotonic_ids 0 layout (length (rows (join df song_df a b)))).
Proof.
  intros Hwf Hwfs (a & b & Ha & Hb & Hsel)%songplays_table_of_inr.
  exists a, b. set (J := join df song_df a b) in *.
  set (W := withColumn_id "songplay_id" layout J) in *.
  pose proof (select_rows _ _ _ Hsel) as (Hcols & _ & Hrows).
  assert (∀ c, c ∈ "songplay_id" :: fact_names → ∃ i, resolve c (columns W) = inr i)
    as Hres by (intros c Hc; by eapply select_resolves).
  assert (∀ c, c ∈ fact_names → ∃ i, resolve c (columns J) = inr i) as HresJ.
  { intros c Hc. destruct (Hres c) as [i Hi]; [by right|]. exists i.
    rewrite <- Hi. symmetry. apply resolve_put_name_ne. intros ->.
    revert Hc. by apply (bool_decide_unpack _). }
  split_and!; [done|done|done|done|].
  rewrite Hrows. unfold W at 1. simpl rows at 1. rewrite fmap_zip_with.
  apply zip_with_ext_elem_of. intros j i Hj.
  assert (views J j (named J j)) as Hv.
  { apply views_named. pose proof (wf_join df song_df a b Hwf Hwfs) as HwfJ.
    unfold wf in HwfJ. rewrite Forall_forall in HwfJ. by apply HwfJ. }
  pose proof (views_put_cell J W "songplay_id" j _ (VInt i) eq_refl Hv) as Hv'.
  assert (∀ c, c ∈ "songplay_id" :: fact_names →
               named W (put_cell "songplay_id" (columns J) j (VInt i)) c
               = if decide (c = "songplay_id") then VInt i else named J j c) as Hn.
  { intros c Hc. destruct (Hres c Hc) as [k Hk].
    by rewrite (views_named_resolved _ _ _ _ _ Hv' Hk). }
  unfold fact_names. simpl. rewrite !Hn by by apply (bool_decide_unpack _). done.
Qed.

(** The filter of the join, by names. *)
Lemma join_filter df song_df a b l :
  resolve "artist" (columns df) = inr a →
  resolve "artist_name" (columns song_df) = inr b →
  filter (λ s, sql_eq (cell l a) (cell s b)) (rows song_df) = matching_songs df song_df l.
Proof.
  intros Ha Hb. unfold matching_songs. apply list_filter_iff. intros s.
  by rewrite (named_cell _ _ _ _ Ha), (named_cell _ _ _ _ Hb).
Qed.

(** The eight columns of a joined row, by the frame they come from. *)
Lemma fact_columns df song_df a b l s :
  length l = length (columns df) →
  ["start_time"; "user_id"; "level"; "session_id"; "location"; "user_agent"] ⊆ columns df →
  ["song_id"; "artist_id"] ⊆ columns song_df →
  (∀ c, c ∈ fact_names → ∃ i, resolve c (columns (join df song_df a b)) = inr i) →
  (λ c, named (join df song_df a b) (l ++ s) c) <$> fact_names = fact_row df song_df l s.
Proof.
  intros Hlen Hl Hs Hres. unfold fact_names, fact_row. simpl.
  repeat match goal with
  | |- context [named (join df song_df a b) (l ++ s) ?c] =>
      let i := fresh "i" in let Hi := fresh "Hi" in
      destruct (Hres c) as [i Hi]; [by apply (bool_decide_unpack _)|];
      first [ rewrite (named_join_l df song_df a b l s c i Hi);
                [|apply Hl; by apply (bool_decide_unpack _)|done]
            | rewrite (named_join_r df song_df a b l s c i Hi);
                [|apply Hs; by apply (bool_decide_unpack _)|done] ];
      clear i Hi
  end.
  done.
Qed.

End Songplays.

(** ** Rules for statements *)

Section Rules.
Context (I : relation world) `{!PreOrder I}.
Context (can_read can_write : string → Prop).
Hypothesis I_read : ∀ w path, can_read path → I w (add_read path w).
Hypothesis I_write : ∀ w path st,
  can_write path → (∀ p, p ≠ path → st !! p = store w !! p) → I w (with_store st w).

Lemma tidy_ret {A} (a : A) (Q : A → Prop) : Q a → tidy I (mret a) Q.
Proof. intros Ha w. simpl. done. Qed.

Lemma tidy_bind {A B} (m : M A) (f : A → M B) (Q : A → Prop) (Q' : B → Prop) :
  tidy I m Q → (∀ a, Q a → tidy I (f a) Q') → tidy I (m ≫= f) Q'.
Proof.
  intros Hm Hf w. unfold mbind, M_bind. specialize (Hm w).
  destruct (m w) as [w1 [a|e|c]]; [|done|done].
  destruct Hm as [HI Ha]. specialize (Hf a Ha w1).
  destruct (f a w1) as [w2 [b|e|c]]; [| |done].
  - destruct Hf as [HI' Hb]. split; [by etrans|done].
  - destruct Hf as [HI' Hb]. split; [by etrans|done].
Qed.

Lemma tidy_weaken {A} (m : M A) (Q Q' : A → Prop) :
  tidy I m Q → (∀ a, Q a → Q' a) → tidy I m Q'.
Proof.
  intros Hm HQ w. specialize (Hm w). destruct (m w) as [w1 [a|e|c]]; [|done|done].
  destruct Hm. split; auto.
Qed.

(** A guarded statement, [try: body / except Exception as e:
    error(msg {e}); exit()]: the handler ends at [error], which is
    unbound. *)
Lemma tidy_try_except {A} (msg : string) (body : M A) (Q : A → Prop) :
  attempt I body Q →
  tidy I (try_except body (λ e, error (msg +:+ str e);; exit)) Q.
Proof.
  intros Hbody w. unfold try_except. specialize (Hbody w).
  destruct (body w) as [w1 [a|e|c]]; [done| |done].
  unfold mbind, M_bind, error. simpl. split; [done|by left].
Qed.

Lemma attempt_lift {A} (r : result A) (Q : A → Prop) :
  (∀ a, r = inr a → Q a) → attempt I (lift r) Q.
Proof.
  intros HQ w. unfold lift. destruct r as [e|a]; simpl; [reflexivity|].
  split; [reflexivity|auto].
Qed.

(** Lines 127 and 136, outside every [try]: [TimestampType] is
    unbound. *)
Lemma tidy_udf (f : value → result value) (Q : (value → result value) → Prop) :
  tidy I (lift (udf f <$> TimestampType)) Q.
Proof. intros w. simpl. split; [reflexivity|by right]. Qed.

Lemma attempt_read_json spark path :
  can_read path →
  attempt I (read_json spark path) (λ df, ∃ recs, df = frame_of_records recs).
Proof.
  intros Hp w. unfold read_json. destruct (json_files spark path) as [e|recs]; simpl.
  - by apply I_read.
  - split; [by apply I_read|eauto].
Qed.

(** A write either fails its analysis and changes nothing, or touches
    its destination only. *)
Lemma attempt_write_parquet spark cols path df :
  can_write path ∨ (∃ e, check_write cols df = inl e) →
  attempt I (write_parquet spark cols path df) (λ _, check_write cols df = inr ()).
Proof.
  intros Hp w. unfold write_parquet.
  destruct (check_write cols df) as [e|[]] eqn:Hcheck; [done|].
  destruct Hp as [Hp|[e He]]; [|done].
  destruct (storage_fault spark path) as [e|]; [done|].
  destruct (fault df) as [e|].
  - apply (I_write w path); [done|]. intros p Hne. by apply lookup_delete_ne.
  - split; [|done]. apply (I_write w path); [done|]. intros p Hne.
    by apply lookup_insert_ne.
Qed.

Lemma attempt_create_spark_session h :
  attempt I (create_spark_session h) (λ _, True).
Proof.
  intros w. unfold create_spark_session, lift.
  destruct (getOrCreate h (environ w) _); simpl; [reflexivity|]. split; [reflexivity|done].
Qed.

Lemma attempt_weaken {A} (m : M A) (Q Q' : A → Prop) :
  attempt I m Q → (∀ a, Q a → Q' a) → attempt I m Q'.
Proof.
  intros Hm HQ w. specialize (Hm w). destruct (m w) as [w1 [a|e|c]]; [|done|done].
  destruct Hm. split; auto.
Qed.

(** A statement that never returns ends at an unbound name. *)
Lemma tidy_never {A} (m : M A) w :
  tidy I m (λ _, False) → ∃ e, (m w).2 = Raised e ∧ unbound e ∧ I w (m w).1.
Proof.
  intros H. specialize (H w). destruct (m w) as [w' [a|e|c]]; [by destruct H| |done].
  destruct H. by exists e.
Qed.

End Rules.

(** ** The unguarded statements *)

Section Unguarded.

(** Lines 137 to 143 cannot raise once line 130 has passed, on a frame
    that came from the reader: [ts] resolved at line 130 and [datetime]
    is no duplicate. *)
Lemma add_calendar_total tz df :
  (∃ ts, resolve "ts" (columns df) = inr ts) →
  at_most_once "datetime" (columns df) →
  ∃ df', add_calendar tz (millis_to_datetime tz) df = inr df'.
Proof.
  intros [ts Hts] Hdt. unfold add_calendar, attr. rewrite Hts. simpl.
  destruct (resolve_put_name "datetime" (columns df) Hdt) as [c Hc].
  rewrite Hc. simpl.
  repeat (rewrite !resolve_put_name_ne by done; rewrite Hc; simpl).
  eauto.
Qed.

Lemma add_calendar_after_start_time tz recs df1 df2 :
  filter_and_rename (frame_of_records recs) = inr df1 →
  add_start_time (millis_to_datetime tz) df1 = inr df2 →
  ∃ df3, add_calendar tz (millis_to_datetime tz) df2 = inr df3.
Proof.
  intros (page & _ & ->)%filter_and_rename_inr (ts & Hts & ->)%add_start_time_inr.
  simpl in *. apply add_calendar_total; simpl.
  - exists ts. by rewrite resolve_put_name_ne.
  - apply at_most_once_put_name, at_most_once_rename_all.
    + by apply (bool_decide_unpack _).
    + apply at_most_once_NoDup, NoDup_columns_frame_of_records.
Qed.

(** The projection of lines 174 and 175 keeps neither [year] nor
    [month]. *)
Lemma songplays_not_partitionable layout df song_df sp :
  songplays_table_of layout df song_df = inr sp →
  check_write ["year"; "month"] sp
  = inl (AnalysisException "Partition column `year` not found in schema").
Proof.
  intros (a & b & _ & _ & (Hcols & _)%select_rows)%songplays_table_of_inr.
  unfold check_write. rewrite Hcols. by vm_compute.
Qed.

End Unguarded.

(** A guarded statement. *)
Ltac guarded := apply tidy_try_except.

(** ** The two functions, statement by statement *)

Section Programs.
Context (I : relation world) `{!PreOrder I}.
Context (can_read can_write : string → Prop).
Hypothesis I_read : ∀ w path, can_read path → I w (add_read path w).
Hypothesis I_write : ∀ w path st,
  can_write path → (∀ p, p ≠ path → st !! p = store w !! p) → I w (with_store st w).

Lemma tidy_process_song_data spark input_data output_data :
  can_read (input_data +:+ "song_data/*/*/*/*.json") →
  can_write (output_data +:+ "/songs") →
  can_write (output_data +:+ "/artists") →
  tidy I (process_song_data spark input_data output_data) (λ _, True).
Proof.
  intros Hr Hw1 Hw2. unfold process_song_data. cbv zeta.
  eapply tidy_bind; [done| |]; [guarded; eapply attempt_read_json; eauto|].
  intros df _.
  eapply tidy_bind; [done| |]; [guarded; by apply (attempt_lift _ _ (λ _, True))|].
  intros songs_table _.
  eapply tidy_bind; [done| |];
    [guarded; eapply attempt_weaken; [eapply attempt_write_parquet; eauto|done]|].
  intros _ _.
  eapply tidy_bind; [done| |]; [guarded; by apply (attempt_lift _ _ (λ _, True))|].
  intros artists_table _.
  guarded. eapply attempt_weaken; [eapply attempt_write_parquet; eauto|done].
Qed.

(** [process_log_data] never returns: it writes at most the [users]
    table, and past that write it ends at line 127. *)
Lemma tidy_process_log_data spark input_data output_data :
  can_read (input_data +:+ "log_data/*.json") →
  can_write (os_path_join output_data "/users") →
  tidy I (process_log_data spark input_data output_data) (λ _, False).
Proof.
  intros Hr1 Hw1. unfold process_log_data. cbv zeta.
  eapply tidy_bind; [done| |]; [guarded; eapply attempt_read_json; eauto|].
  intros df0 _.
  eapply tidy_bind; [done| |]; [guarded; by apply (attempt_lift _ _ (λ _, True))|].
  intros df1 _.
  eapply tidy_bind; [done| |]; [guarded; by apply (attempt_lift _ _ (λ _, True))|].
  intros users_table _.
  eapply tidy_bind; [done| |];
    [guarded; eapply attempt_weaken; [eapply attempt_write_parquet; eauto|done]|].
  intros _ _.
  eapply tidy_bind; [done|by apply (tidy_udf _ _ (λ _, False))|].
  by intros get_timestamp.
Qed.

Lemma tidy_main h :
  can_read song_data_glob → can_read log_data_glob →
  can_write "s3a://gy-nano-bkt//songs" → can_write "s3a://gy-nano-bkt//artists" →
  can_write "/users" →
  tidy I (main h) (λ _, False).
Proof.
  intros Hr1 Hr2 Hw1 Hw2 Hw3. unfold main. cbv zeta.
  eapply tidy_bind; [done| |]; [guarded; by apply attempt_create_spark_session|].
  intros spark _.
  eapply tidy_bind; [done| |]; [by eapply tidy_process_song_data|].
  intros _ _. by eapply tidy_process_log_data.
Qed.

End Programs.

(** ** The footprint of the script *)

Lemma footprint_preorder (R W : list string) : PreOrder (footprint R W).
Proof.
  split.
  - intros w. split_and!; [done|by left|done].
  - intros w1 w2 w3 (Hd & Hr & Hs) (Hd' & Hr' & Hs'). split_and!.
    + congruence.
    + intros p Hp. destruct (Hr' p Hp) as [Hp'|]; [|by right]. by apply Hr.
    + intros p Hp. rewrite Hs', Hs; done.
Qed.

#[local] Existing Instance footprint_preorder.

Lemma same_environ_preorder : PreOrder same_environ.
Proof.
  split.
  - by intros w.
  - intros w1 w2 w3 H1 H2. unfold same_environ in *. congruence.
Qed.

#[local] Existing Instance same_environ_preorder.

Section Footprint.
Context (R W : list string).

Lemma footprint_read w path : path ∈ R → footprint R W w (add_read path w).
Proof.
  intros Hp. split_and!; [done| |done]. simpl.
  intros p [?|Hp'%list_elem_of_singleton]%elem_of_app; [by left|]. subst. by right.
Qed.

Lemma footprint_write w path st :
  path ∈ W → (∀ p, p ≠ path → st !! p = store w !! p) → footprint R W w (with_store st w).
Proof.
  intros Hp Hst. split_and!; [done|by left|]. simpl. intros p Hn. apply Hst. by intros ->.
Qed.

Lemma footprint_environ w E : footprint R W w (with_environ E w).
Proof. split_and!; [done|by left|done]. Qed.

Lemma attempt_bind {A B} (m : M A) (f : A → M B) (Q : A → Prop) (Q' : B → Prop) :
  attempt (footprint R W) m Q →
  (∀ a, Q a → attempt (footprint R W) (f a) Q') →
  attempt (footprint R W) (m ≫= f) Q'.
Proof.
  intros Hm Hf w. unfold mbind, M_bind. specialize (Hm w).
  destruct (m w) as [w1 [a|e|c]]; [|done|done].
  destruct Hm as [HI Ha]. specialize (Hf a Ha w1).
  destruct (f a w1) as [w2 [b|e|c]]; [|by etrans|done].
  destruct Hf. split; [by etrans|done].
Qed.

Lemma attempt_setenv k v : attempt (footprint R W) (setenv k v) (λ _, True).
Proof.
  intros w. unfold setenv. destruct (putenv_check v); simpl; [reflexivity|].
  split; [apply footprint_environ|done].
Qed.

Lemma tidy_module_level file : tidy (footprint R W) (module_level file) (λ _, True).
Proof.
  unfold module_level.
  eapply tidy_bind; [apply _| |]; [guarded; by apply (attempt_lift _ _ (λ _, True))|].
  intros config _. guarded.
  eapply attempt_bind; [by apply (attempt_lift _ _ (λ _, True))|]. intros key _.
  eapply attempt_bind; [apply attempt_setenv|]. intros _ _.
  eapply attempt_bind; [by apply (attempt_lift _ _ (λ _, True))|]. intros secret _.
  apply attempt_setenv.
Qed.

End Footprint.

(** ** The script as a whole *)

Section Script.

Lemma os_path_join_absolute a : os_path_join a "/users" = "/users".
Proof. done. Qed.

Lemma same_environ_read w path : same_environ w (add_read path w).
Proof. done. Qed.

Lemma same_environ_write w st : same_environ w (with_store st w).
Proof. done. Qed.

Lemma footprint_main h : tidy (footprint script_reads script_writes) (main h) (λ _, False).
Proof.
  apply (tidy_main _ (λ p, p ∈ script_reads) (λ p, p ∈ script_writes)).
  - apply footprint_read.
  - apply footprint_write.
  - by apply (bool_decide_unpack _).
  - by apply (bool_decide_unpack _).
  - by apply (bool_decide_unpack _).
  - by apply (bool_decide_unpack _).
  - by apply (bool_decide_unpack _).
Qed.

(** [main] leaves the environment as it finds it. *)
Lemma environ_main h : tidy same_environ (main h) (λ _, False).
Proof.
  apply (tidy_main _ (λ _, True) (λ _, True)); try done.
Qed.

Lemma tidy_script h : tidy (footprint script_reads script_writes) (script h) (λ _, False).
Proof.
  unfold script. eapply tidy_bind; [apply _|apply tidy_module_level|].
  intros _ _. apply footprint_main.
Qed.

(** Every run ends at an unbound name, having written no line, with
    reads and writes at the script's paths only. *)
Lemma run_outcome h :
  ∃ e, (run h).2 = Raised e
       ∧ unbound e
       ∧ diagnostics (run h).1 = []
       ∧ (∀ p, p ∈ reads (run h).1 → p ∈ script_reads)
       ∧ (∀ p, p ∉ script_writes → store (run h).1 !! p = None).
Proof.
  destruct (tidy_never _ (script h) initial (tidy_script h)) as (e & He & Hu & Hd & Hr & Hs).
  exists e. split_and!; [done|done|done| |].
  - intros p Hp. destruct (Hr p Hp) as [Hp'|]; [|done]. by apply elem_of_nil in Hp'.
  - intros p Hp. unfold run. by rewrite Hs.
Qed.

End Script.

(** ** Paths *)

Section Paths.

Lemma string_app_inj (s a b : string) : s +:+ a = s +:+ b → a = b.
Proof. induction s as [|c s IH]; simpl; [done|]. intros [= ?]. auto. Qed.

Lemma string_length_app (s a : string) :
  String.length (s +:+ a) = (String.length s + String.length a)%nat.
Proof. induction s as [|c s IH]; simpl; [done|]. by rewrite IH. Qed.

Lemma users_path_not_song_plays output_data :
  os_path_join output_data "/users" ≠ output_data +:+ "/song_plays".
Proof.
  rewrite os_path_join_absolute. intros H. apply (f_equal String.length) in H.
  rewrite string_length_app in H. simpl in H. lia.
Qed.

Lemma time_path_not_users output_data : output_data +:+ "/time" ≠ "/users".
Proof.
  destruct output_data as [|c [|c' s]]; simpl; [done| |].
  - intros [= _ ?].
  - intros H. apply (f_equal String.length) in H. simpl in H.
    rewrite string_length_app in H. simpl in H. lia.
Qed.

End Paths.

(** ** Running guarded statements *)

Section Running.
Context {A B : Type}.

Lemma run_guarded_lift (msg : string) (r : result A) (k : A → M B) w :
  (try_except (lift r) (λ e, error (msg +:+ str e);; exit) ≫= k) w
  = match r with
    | inl e => (w, Raised (NameError "error"))
    | inr a => k a w
    end.
Proof. unfold try_except, lift, mbind, M_bind. by destruct r. Qed.

Lemma run_lift (r : result A) (k : A → M B) w :
  (lift r ≫= k) w = match r with inl e => (w, Raised e) | inr a => k a w end.
Proof. unfold lift, mbind, M_bind. by destruct r. Qed.

Lemma run_guarded_read (msg : string) spark path (k : DataFrame → M B) w :
  (try_except (read_json spark path) (λ e, error (msg +:+ str e);; exit) ≫= k) w
  = match json_files spark path with
    | inl e => (add_read path w, Raised (NameError "error"))
    | inr recs => k (frame_of_records recs) (add_read path w)
    end.
Proof.
  unfold try_except, read_json, mbind, M_bind. by destruct (json_files spark path).
Qed.

Lemma run_guarded_write (msg : string) spark cols path df (k : () → M B) w :
  (try_except (write_parquet spark cols path df) (λ e, error (msg +:+ str e);; exit) ≫= k) w
  = match write_parquet spark cols path df w with
    | (w', Normal _) => k () w'
    | (w', Raised e) => (w', Raised (NameError "error"))
    | (w', Exited c) => (w', Exited c)
    end.
Proof.
  unfold try_except, mbind, M_bind.
  by destruct (write_parquet spark cols path df w) as [w' [[]|e|c]].
Qed.

End Running.

Lemma run_guarded_write_last (msg : string) spark cols path df w :
  try_except (write_parquet spark cols path df) (λ e, error (msg +:+ str e);; exit) w
  = match write_parquet spark cols path df w with
    | (w', Normal a) => (w', Normal a)
    | (w', Raised e) => (w', Raised (NameError "error"))
    | (w', Exited c) => (w', Exited c)
    end.
Proof.
  unfold try_except. by destruct (write_parquet spark cols path df w) as [w' [[]|e|c]].
Qed.

Lemma write_parquet_store spark cols path df w p :
  p ≠ path →
  store (write_parquet spark cols path df w).1 !! p = store w !! p.
Proof.
  intros Hp. unfold write_parquet. destruct (check_write cols df); [done|].
  destruct (storage_fault spark path); [done|]. destruct (fault df); simpl.
  - by apply lookup_delete_ne.
  - by apply lookup_insert_ne.
Qed.

Lemma write_parquet_ok spark cols path df w :
  check_write cols df = inr () →
  storage_fault spark path = None →
  fault df = None →
  write_parquet spark cols path df w
  = (with_store (<[path := mkParquet cols df]> (store w)) w, Normal ()).
Proof. intros Hc Hs Hf. unfold write_parquet. by rewrite Hc, Hs, Hf. Qed.

Lemma write_parquet_normal spark cols path df w w' a :
  write_parquet spark cols path df w = (w', Normal a) →
  check_write cols df = inr () ∧ storage_fault spark path = None ∧ fault df = None.
Proof.
  unfold write_parquet. destruct (check_write cols df) as [e|[]]; [done|].
  destruct (storage_fault spark path); [done|]. by destruct (fault df).
Qed.
(** ** The credentials and the session *)

Section Credentials.

(** A value without [%] is its own interpolation. *)
Lemma interpolate_some_plain deeper map fuel s :
  occurs "%"%char s = false → (String.length s ≤ fuel)%nat →
  interpolate_some deeper map fuel s = inr s.
Proof.
  revert fuel. induction s as [|a s IH]; intros fuel Hs Hf; [by destruct fuel|].
  destruct fuel as [|fuel]; [simpl in Hf; lia|]. simpl in *.
  apply orb_false_iff in Hs as [Ha Hs]. apply bool_decide_eq_false in Ha.
  rewrite bool_decide_false by congruence.
  rewrite IH by (done || lia). done.
Qed.

Lemma before_get_plain map v : occurs "%"%char v = false → before_get map v = inr v.
Proof. intros Hv. unfold before_get. simpl. by apply interpolate_some_plain. Qed.

(** With both credentials in the config, lines 9 to 21 export them and
    do nothing else. *)
Lemma module_level_credentials file key secret w :
  credentials file = inr (key, secret) →
  module_level file w
  = (with_environ (<["AWS_SECRET_ACCESS_KEY" := secret]>
                     (<["AWS_ACCESS_KEY_ID" := key]> (environ w))) w,
     Normal ()).
Proof.
  unfold credentials, module_level, try_except, lift, setenv, mbind, M_bind, result_bind.
  destruct (config_read file) as [e|config]; [done|].
  destruct (config_get config "KEY" "AWS_ACCESS_KEY_ID") as [e|k]; [done|].
  destruct (putenv_check k) as [e|[]]; [done|].
  destruct (config_get config "SECRET" "AWS_SECRET_ACCESS_KEY") as [e|s]; [done|].
  simpl. destruct (putenv_check s) as [e|[]]; [done|].
  by intros [= <- <-].
Qed.

(** Without them, lines 9 to 21 end at the unbound [error], with at
    most the key exported. *)
Lemma module_level_failure file e w :
  credentials file = inl e →
  ∃ E, module_level file w = (with_environ E w, Raised (NameError "error"))
       ∧ (E = environ w ∨ ∃ key, E = <["AWS_ACCESS_KEY_ID" := key]> (environ w)).
Proof.
  unfold credentials, module_level, try_except, lift, setenv, mbind, M_bind, result_bind,
    error.
  destruct (config_read file) as [e0|config].
  { intros _. exists (environ w). split; [by destruct w|by left]. }
  destruct (config_get config "KEY" "AWS_ACCESS_KEY_ID") as [e0|k].
  { intros _. exists (environ w). split; [by destruct w|by left]. }
  destruct (putenv_check k) as [e0|[]].
  { intros _. exists (environ w). split; [by destruct w|by left]. }
  destruct (config_get config "SECRET" "AWS_SECRET_ACCESS_KEY") as [e0|s].
  { intros _. eexists. split; [reflexivity|]. right. by exists k. }
  simpl. destruct (putenv_check s) as [e0|[]]; [|done].
  intros _. eexists. split; [reflexivity|]. right. by exists k.
Qed.

Lemma script_credentials h key secret w :
  credentials (dl_cfg h) = inr (key, secret) →
  script h w
  = main h (with_environ (<["AWS_SECRET_ACCESS_KEY" := secret]>
                            (<["AWS_ACCESS_KEY_ID" := key]> (environ w))) w).
Proof.
  intros Hc. unfold script. unfold mbind at 1. unfold M_bind.
  by rewrite (module_level_credentials _ _ _ _ Hc).
Qed.

Lemma script_failure h e w :
  credentials (dl_cfg h) = inl e →
  ∃ E, script h w = (with_environ E w, Raised (NameError "error"))
       ∧ (E = environ w ∨ ∃ key, E = <["AWS_ACCESS_KEY_ID" := key]> (environ w)).
Proof.
  intros Hc. destruct (module_level_failure _ _ w Hc) as (E & Hm & HE).
  exists E. split; [|done]. unfold script. unfold mbind at 1. unfold M_bind. by rewrite Hm.
Qed.

(** [main] looks at its host through [getOrCreate] only. *)
Lemma main_config file1 file2 g : main (mkHost file1 g) = main (mkHost file2 g).
Proof. done. Qed.

(** [main] when the session cannot be created. *)
Lemma main_without_session h w e :
  getOrCreate h (environ w) [("spark.jars.packages", "org.apache.hadoop:hadoop-aws:2.7.0")]
  = inl e →
  main h w = (w, Raised (NameError "error")).
Proof.
  intros Hg. unfold main, create_spark_session, try_except, lift, mbind, M_bind.
  by rewrite Hg.
Qed.

(** [main] with a session. *)
Lemma main_with_session h w spark :
  getOrCreate h (environ w) [("spark.jars.packages", "org.apache.hadoop:hadoop-aws:2.7.0")]
  = inr spark →
  main h w
  = match process_song_data spark "s3a://udacity-dend/" "s3a://gy-nano-bkt/" w with
    | (w', Normal _) => process_log_data spark "s3a://udacity-dend/" "s3a://gy-nano-bkt/" w'
    | (w', Raised e) => (w', Raised e)
    | (w', Exited c) => (w', Exited c)
    end.
Proof.
  intros Hg. unfold main, create_spark_session, try_except, lift, mbind, M_bind.
  by rewrite Hg.
Qed.

End Credentials.
(** ** Statements that only write to the store *)

Section StoreOps.
Implicit Types (ops : list store_op) (st : gmap string parquet) (p : string).

Lemma apply_ops_app ops1 ops2 st :
  apply_ops (ops1 ++ ops2) st = apply_ops ops2 (apply_ops ops1 st).
Proof. unfold apply_ops. by rewrite foldl_app. Qed.

(** A path that no change names keeps what it held. *)
Lemma apply_ops_untouched ops st p :
  p ∉ op_path <$> ops → apply_ops ops st !! p = st !! p.
Proof.
  revert st. induction ops as [|op ops IH]; intros st Hp; [done|].
  rewrite fmap_cons in Hp. apply not_elem_of_cons in Hp as [Hne Hp].
  change (apply_ops (op :: ops) st) with (apply_ops ops (apply_op st op)).
  rewrite IH by done. destruct op as [path pq|path]; simpl in *.
  - by apply lookup_insert_ne.
  - by apply lookup_delete_ne.
Qed.

(** What a path holds after the changes depends on what it held before
    only if no change names it. *)
Lemma apply_ops_lookup ops st st' p :
  p ∈ op_path <$> ops ∨ st !! p = st' !! p →
  apply_ops ops st !! p = apply_ops ops st' !! p.
Proof.
  revert st st'. induction ops as [|op ops IH]; intros st st' Hp.
  - destruct Hp as [Hp|Hp]; [by apply elem_of_nil in Hp|done].
  - change (apply_ops (op :: ops) st) with (apply_ops ops (apply_op st op)).
    change (apply_ops (op :: ops) st') with (apply_ops ops (apply_op st' op)).
    apply IH. destruct (decide (p = op_path op)) as [->|Hne].
    + right. destruct op as [path pq|path]; simpl.
      * by rewrite !lookup_insert_eq.
      * by rewrite !lookup_delete_eq.
    + destruct Hp as [Hp|Hp].
      * rewrite fmap_cons in Hp. apply elem_of_cons in Hp as [?|Hp]; [done|by left].
      * right. destruct op as [path pq|path]; simpl in *.
        -- by rewrite !lookup_insert_ne.
        -- by rewrite !lookup_delete_ne.
Qed.

(** Making the same changes twice is making them once. *)
Lemma apply_ops_idemp ops st : apply_ops ops (apply_ops ops st) = apply_ops ops st.
Proof.
  apply map_eq. intros p. destruct (decide (p ∈ op_path <$> ops)) as [Hp|Hp].
  - apply apply_ops_lookup. by left.
  - by rewrite !apply_ops_untouched.
Qed.

End StoreOps.

Section WritesOnly.

Lemma writes_only_ret {A} (a : A) : writes_only (mret a : M A).
Proof. intros w. by exists [], w, (Normal a). Qed.

Lemma writes_only_bind {A B} (m : M A) (f : A → M B) :
  writes_only m → (∀ a, writes_only (f a)) → writes_only (m ≫= f).
Proof.
  intros Hm Hf w. destruct (Hm w) as (ops & w1 & o & H). destruct o as [a|e|c].
  - destruct (Hf a w1) as (ops' & w2 & o' & H'). exists (ops ++ ops'), w2, o'.
    intros st. unfold mbind, M_bind. by rewrite H, H', apply_ops_app.
  - exists ops, w1, (Raised e). intros st. unfold mbind, M_bind. by rewrite H.
  - exists ops, w1, (Exited c). intros st. unfold mbind, M_bind. by rewrite H.
Qed.

Lemma writes_only_try_except {A} (body : M A) (handler : exn → M A) :
  writes_only body → (∀ e, writes_only (handler e)) → writes_only (try_except body handler).
Proof.
  intros Hb Hh w. destruct (Hb w) as (ops & w1 & o & H). destruct o as [a|e|c].
  - exists ops, w1, (Normal a). intros st. unfold try_except. by rewrite H.
  - destruct (Hh e w1) as (ops' & w2 & o' & H'). exists (ops ++ ops'), w2, o'.
    intros st. unfold try_except. by rewrite H, H', apply_ops_app.
  - exists ops, w1, (Exited c). intros st. unfold try_except. by rewrite H.
Qed.

Lemma writes_only_lift {A} (r : result A) : writes_only (lift r).
Proof.
  intros w. destruct r as [e|a]; [by exists [], w, (Raised e)|by exists [], w, (Normal a)].
Qed.

Lemma writes_only_exit {A} : writes_only (exit : M A).
Proof. intros w. by exists [], w, (Exited None). Qed.

Lemma writes_only_error msg : writes_only (error msg).
Proof. intros w. by exists [], w, (Raised (NameError "error")). Qed.

Lemma writes_only_setenv k v : writes_only (setenv k v).
Proof.
  intros w. unfold setenv. destruct (putenv_check v) as [e|[]].
  - by exists [], w, (Raised e).
  - by exists [], (with_environ (<[k := v]> (environ w)) w), (Normal ()).
Qed.

Lemma writes_only_create_spark_session h : writes_only (create_spark_session h).
Proof.
  intros w. unfold create_spark_session, lift. simpl.
  destruct (getOrCreate h (environ w) _) as [e|spark].
  - by exists [], w, (Raised e).
  - by exists [], w, (Normal spark).
Qed.

Lemma writes_only_read_json spark path : writes_only (read_json spark path).
Proof.
  intros w. unfold read_json. destruct (json_files spark path) as [e|recs].
  - by exists [], (add_read path w), (Raised e).
  - by exists [], (add_read path w), (Normal (frame_of_records recs)).
Qed.

Lemma writes_only_write_parquet spark cols path df :
  writes_only (write_parquet spark cols path df).
Proof.
  intros w. unfold write_parquet. destruct (check_write cols df) as [e|[]].
  { by exists [], w, (Raised e). }
  destruct (storage_fault spark path) as [e|].
  { by exists [], w, (Raised e). }
  destruct (fault df) as [e|].
  - by exists [Clear path], w, (Raised e).
  - by exists [Put path (mkParquet cols df)], w, (Normal ()).
Qed.

End WritesOnly.

Ltac writes_only :=
  repeat first
    [ apply writes_only_bind; [|intros ?]
    | apply writes_only_try_except; [|intros ?]
    | apply writes_only_lift
    | apply writes_only_exit
    | apply writes_only_error
    | apply writes_only_setenv
    | apply writes_only_create_spark_session
    | apply writes_only_read_json
    | apply writes_only_write_parquet
    | apply writes_only_ret ].

Section Rerun.

Lemma writes_only_process_song_data spark input_data output_data :
  writes_only (process_song_data spark input_data output_data).
Proof. unfold process_song_data. cbv zeta. writes_only. Qed.

Lemma writes_only_process_log_data spark input_data output_data :
  writes_only (process_log_data spark input_data output_data).
Proof. unfold process_log_data. cbv zeta. writes_only. Qed.

Lemma writes_only_script h : writes_only (script h).
Proof.
  unfold script. apply writes_only_bind; [unfold module_level; writes_only|intros _].
  unfold main. cbv zeta.
  apply writes_only_bind; [writes_only|intros spark].
  apply writes_only_bind; [apply writes_only_process_song_data|intros _].
  apply writes_only_process_log_data.
Qed.

End Rerun.

(** ** The order of the reads *)

Section Issues.

Lemma issues_ret {A} (a : A) : issues [] (mret a : M A).
Proof. intros w. exists []. simpl. by rewrite app_nil_r. Qed.

Lemma issues_bind {A B} (l1 l2 : list string) (m : M A) (f : A → M B) :
  issues l1 m → (∀ a, issues l2 (f a)) → issues (l1 ++ l2) (m ≫= f).
Proof.
  intros Hm Hf w. destruct (Hm w) as (l1' & Hp1 & Hr1 & Hn1).
  unfold mbind, M_bind. destruct (m w) as [w1 [a|e|c]]; simpl in *.
  - rewrite (Hn1 a eq_refl) in Hr1. destruct (Hf a w1) as (l2' & Hp2 & Hr2 & Hn2).
    exists (l1 ++ l2'). split_and!.
    + by apply prefix_app.
    + by rewrite Hr2, Hr1, (assoc_L (++)).
    + intros b Hb. by rewrite (Hn2 b Hb).
  - exists l1'. split_and!; [by apply prefix_app_r|done|done].
  - exists l1'. split_and!; [by apply prefix_app_r|done|done].
Qed.

(** A guarded statement: the handler reads nothing and does not
    return. *)
Lemma issues_guarded {A} (l : list string) (msg : string) (body : M A) :
  issues l body → issues l (try_except body (λ e, error (msg +:+ str e);; exit)).
Proof.
  intros Hb w. destruct (Hb w) as (l' & Hp & Hr & Hn).
  unfold try_except. destruct (body w) as [w1 [a|e|c]]; simpl in *; by exists l'.
Qed.

Lemma issues_lift {A} (r : result A) : issues [] (lift r).
Proof. intros w. exists []. unfold lift. destruct r; simpl; by rewrite app_nil_r. Qed.

Lemma issues_exit {A} : issues [] (exit : M A).
Proof. intros w. exists []. simpl. by rewrite app_nil_r. Qed.

Lemma issues_error msg : issues [] (error msg).
Proof. intros w. exists []. simpl. by rewrite app_nil_r. Qed.

Lemma issues_setenv k v : issues [] (setenv k v).
Proof.
  intros w. exists []. unfold setenv. destruct (putenv_check v); simpl; by rewrite app_nil_r.
Qed.

Lemma issues_create_spark_session h : issues [] (create_spark_session h).
Proof.
  intros w. exists []. unfold create_spark_session, lift.
  destruct (getOrCreate h (environ w) _); simpl; by rewrite app_nil_r.
Qed.

Lemma issues_read_json spark path : issues [path] (read_json spark path).
Proof. intros w. by exists [path]. Qed.

Lemma issues_write_parquet spark cols path df : issues [] (write_parquet spark cols path df).
Proof.
  intros w. exists []. rewrite app_nil_r. split_and!; [done| |done].
  unfold write_parquet. destruct (check_write cols df); [done|].
  destruct (storage_fault spark path); [done|]. by destruct (fault df).
Qed.

End Issues.

Ltac issues :=
  repeat first
    [ eapply issues_bind; [|intros ?]
    | eapply issues_guarded
    | apply issues_lift
    | apply issues_setenv
    | apply issues_read_json
    | apply issues_write_parquet
    | apply issues_ret ].

Section ReadOrder.

Lemma issues_module_level file : issues [] (module_level file).
Proof.
  assert (∃ l, issues l (module_level file) ∧ l = []) as (l & H & <-); [|done].
  eexists. split; [unfold module_level; issues|reflexivity].
Qed.

Lemma issues_process_song_data spark input_data output_data :
  issues [input_data +:+ "song_data/*/*/*/*.json"]
         (process_song_data spark input_data output_data).
Proof.
  assert (∃ l, issues l (process_song_data spark input_data output_data)
               ∧ l = [input_data +:+ "song_data/*/*/*/*.json"]) as (l & H & <-); [|done].
  eexists. split; [unfold process_song_data; cbv zeta; issues|reflexivity].
Qed.

Lemma issues_process_log_data spark input_data output_data :
  issues [input_data +:+ "log_data/*.json"; input_data +:+ "song_data/*/*/*/*.json"]
         (process_log_data spark input_data output_data).
Proof.
  assert (∃ l, issues l (process_log_data spark input_data output_data)
               ∧ l = [input_data +:+ "log_data/*.json";
                      input_data +:+ "song_data/*/*/*/*.json"]) as (l & H & <-); [|done].
  eexists. split; [unfold process_log_data; cbv zeta; issues|reflexivity].
Qed.

Lemma issues_script h :
  issues [song_data_glob; log_data_glob; song_data_glob] (script h).
Proof.
  change (issues ([] ++ ([] ++ ([song_data_glob] ++ [log_data_glob; song_data_glob])))
                 (script h)).
  unfold script. apply issues_bind; [apply issues_module_level|intros _].
  unfold main. cbv zeta. apply issues_bind.
  { apply issues_guarded, issues_create_spark_session. }
  intros spark. apply issues_bind.
  - apply (issues_process_song_data spark "s3a://udacity-dend/" "s3a://gy-nano-bkt/").
  - intros _.
    apply (issues_process_log_data spark "s3a://udacity-dend/" "s3a://gy-nano-bkt/").
Qed.

End ReadOrder.

(** ** Projections of the frames read *)

Section SelectRecords.
Implicit Types (df t : DataFrame) (names : list string) (recs : list json_record).

(** A projection whose names all resolve succeeds. *)
Lemma select_total names df :
  (∀ c, c ∈ names → ∃ i, resolve c (columns df) = inr i) → ∃ t, select names df = inr t.
Proof.
  intros Hres.
  assert (∃ idxs, Forall2 (λ c i, resolve c (columns df) = inr i) names idxs) as [idxs H].
  { induction names as [|c names IH]; [by exists []|].
    destruct (Hres c) as [i Hi]; [by left|].
    destruct IH as [idxs H]; [intros c' Hc'; apply Hres; by right|].
    exists (i :: idxs). by constructor. }
  eexists. apply select_inr. eauto.
Qed.

(** A projection that names a column the frame lacks fails. *)
Lemma select_missing names df c :
  c ∈ names → c ∉ columns df → ∃ e, select names df = inl e.
Proof.
  intros Hc Hn. destruct (select names df) as [e|t] eqn:H; [eauto|].
  exfalso. by eapply Hn, select_columns_elem_of.
Qed.

Lemma elem_of_columns_frame_of_records recs c :
  c ∈ columns (frame_of_records recs) ↔ c ∈ keys recs.
Proof. simpl. by rewrite elem_of_remove_dups. Qed.

(** On a frame read from records a projection succeeds exactly when
    each of its names is a key of some record. *)
Lemma select_frame_of_records names recs :
  (∃ t, select names (frame_of_records recs) = inr t) ↔ names ⊆ keys recs.
Proof.
  split.
  - intros [t Ht] c Hc. apply elem_of_columns_frame_of_records.
    by eapply select_columns_elem_of.
  - intros Hsub. apply select_total. intros c Hc. apply resolve_NoDup.
    + apply NoDup_columns_frame_of_records.
    + by apply elem_of_columns_frame_of_records, Hsub.
Qed.

Lemma table_frame_of_records names recs :
  (∃ t, dropDuplicates <$> select names (frame_of_records recs) = inr t) ↔ names ⊆ keys recs.
Proof.
  rewrite <- select_frame_of_records. split.
  - intros [t (s & Hs & _)%result_fmap_inr]. eauto.
  - intros [s Hs]. exists (dropDuplicates s). apply result_fmap_inr. eauto.
Qed.

Lemma table_missing names df c :
  c ∈ names → c ∉ columns df → ∃ e, dropDuplicates <$> select names df = inl e.
Proof. intros Hc Hn. destruct (select_missing names df c Hc Hn) as [e ->]. by exists e. Qed.

End SelectRecords.

(** ** The writes of the two functions *)

Section Writes.
Implicit Types (df t : DataFrame) (recs : list json_record).

Lemma songs_table_writable recs t :
  songs_table_of (frame_of_records recs) = inr t →
  check_write ["year"; "artist_id"] t = inr () ∧ fault t = None.
Proof.
  intros (Hcols & Hf & _)%select_distinct. split; [|done].
  unfold check_write. rewrite Hcols. by vm_compute.
Qed.

Lemma artists_table_writable recs t :
  artists_table_of (frame_of_records recs) = inr t →
  check_write [] t = inr () ∧ fault t = None.
Proof.
  intros (Hcols & Hf & _)%select_distinct. split; [|done].
  unfold check_write. rewrite Hcols. by vm_compute.
Qed.

Lemma users_table_writable recs df1 t :
  filter_and_rename (frame_of_records recs) = inr df1 →
  users_table_of df1 = inr t →
  check_write [] t = inr () ∧ fault t = None.
Proof.
  intros (_ & Hf & _)%filter_and_rename_records (Hcols & Hft & _)%select_distinct.
  split; [|congruence]. unfold check_write. rewrite Hcols. by vm_compute.
Qed.

(** A write changes the store only. *)
Lemma write_parquet_rest spark cols path df w :
  environ (write_parquet spark cols path df w).1 = environ w
  ∧ diagnostics (write_parquet spark cols path df w).1 = diagnostics w
  ∧ reads (write_parquet spark cols path df w).1 = reads w.
Proof.
  unfold write_parquet. destruct (check_write cols df); [done|].
  destruct (storage_fault spark path); [done|]. by destruct (fault df).
Qed.

Lemma write_parquet_not_exited spark cols path df w w' c :
  write_parquet spark cols path df w ≠ (w', Exited c).
Proof.
  unfold write_parquet. destruct (check_write cols df); [done|].
  destruct (storage_fault spark path); [done|]. by destruct (fault df).
Qed.

(** A write the storage rejects changes nothing. *)
Lemma write_parquet_rejected spark cols path df w e :
  storage_fault spark path = Some e →
  ∃ e', write_parquet spark cols path df w = (w, Raised e').
Proof.
  intros Hf. unfold write_parquet. destruct (check_write cols df); [eauto|].
  rewrite Hf. eauto.
Qed.

(** [process_song_data] when nothing fails. *)
Lemma process_song_data_ok spark input_data output_data w recs songs artists :
  json_files spark (input_data +:+ "song_data/*/*/*/*.json") = inr recs →
  songs_table_of (frame_of_records recs) = inr songs →
  artists_table_of (frame_of_records recs) = inr artists →
  storage_fault spark (output_data +:+ "/songs") = None →
  storage_fault spark (output_data +:+ "/artists") = None →
  process_song_data spark input_data output_data w
  = (with_store (<[output_data +:+ "/artists" := mkParquet [] artists]>
                   (<[output_data +:+ "/songs" := mkParquet ["year"; "artist_id"] songs]>
                      (store w)))
                (add_read (input_data +:+ "song_data/*/*/*/*.json") w),
     Normal ()).
Proof.
  intros Hr Hs Ha Hf1 Hf2. unfold process_song_data. cbv zeta.
  destruct (songs_table_writable _ _ Hs) as [Hc1 Hn1].
  destruct (artists_table_writable _ _ Ha) as [Hc2 Hn2].
  rewrite run_guarded_read, Hr, run_guarded_lift, Hs, run_guarded_write.
  rewrite write_parquet_ok by done. rewrite run_guarded_lift, Ha.
  unfold try_except. by rewrite write_parquet_ok by done.
Qed.

(** [process_song_data] reads the song files once, whatever follows,
    and either returns or ends at the unbound [error]. *)
Lemma process_song_data_ends spark input_data output_data w :
  reads (process_song_data spark input_data output_data w).1
  = reads w ++ [input_data +:+ "song_data/*/*/*/*.json"]
  ∧ ((process_song_data spark input_data output_data w).2 = Normal ()
     ∨ (process_song_data spark input_data output_data w).2 = Raised (NameError "error")).
Proof.
  unfold process_song_data. cbv zeta. rewrite run_guarded_read.
  destruct (json_files spark _) as [e|recs]; [by split; [|right]|].
  rewrite run_guarded_lift.
  destruct (songs_table_of (frame_of_records recs)) as [e|songs]; [by split; [|right]|].
  rewrite run_guarded_write.
  pose proof (write_parquet_rest spark ["year"; "artist_id"] (output_data +:+ "/songs") songs
                (add_read (input_data +:+ "song_data/*/*/*/*.json") w)) as (_ & _ & H1).
  destruct (write_parquet spark ["year"; "artist_id"] _ songs _) as [w1 [[]|e|c]] eqn:Hw1;
    simpl in H1; [|by split; [|right]|by apply write_parquet_not_exited in Hw1].
  rewrite run_guarded_lift.
  destruct (artists_table_of (frame_of_records recs)) as [e|artists];
    [by split; [|right]|].
  rewrite run_guarded_write_last.
  pose proof (write_parquet_rest spark [] (output_data +:+ "/artists") artists w1)
    as (_ & _ & H2).
  destruct (write_parquet spark [] _ artists w1) as [w2 [[]|e|c]] eqn:Hw; simpl in *.
  - split; [congruence|by left].
  - split; [congruence|by right].
  - by apply write_parquet_not_exited in Hw.
Qed.

(** [process_song_data] when the song files cannot be read. *)
Lemma process_song_data_unread spark input_data output_data w e :
  json_files spark (input_data +:+ "song_data/*/*/*/*.json") = inl e →
  process_song_data spark input_data output_data w
  = (add_read (input_data +:+ "song_data/*/*/*/*.json") w, Raised (NameError "error")).
Proof.
  intros Hr. unfold process_song_data. cbv zeta. by rewrite run_guarded_read, Hr.
Qed.

(** [process_song_data] when the [songs] table cannot be projected. *)
Lemma process_song_data_no_songs spark input_data output_data w recs e :
  json_files spark (input_data +:+ "song_data/*/*/*/*.json") = inr recs →
  songs_table_of (frame_of_records recs) = inl e →
  process_song_data spark input_data output_data w
  = (add_read (input_data +:+ "song_data/*/*/*/*.json") w, Raised (NameError "error")).
Proof.
  intros Hr Hs. unfold process_song_data. cbv zeta.
  by rewrite run_guarded_read, Hr, run_guarded_lift, Hs.
Qed.

(** [process_song_data] when the storage rejects the write of
    [songs]. *)
Lemma process_song_data_songs_rejected spark input_data output_data w e :
  storage_fault spark (output_data +:+ "/songs") = Some e →
  process_song_data spark input_data output_data w
  = (add_read (input_data +:+ "song_data/*/*/*/*.json") w, Raised (NameError "error")).
Proof.
  intros Hf. unfold process_song_data. cbv zeta. rewrite run_guarded_read.
  destruct (json_files spark _) as [e0|recs]; [done|].
  rewrite run_guarded_lift.
  destruct (songs_table_of (frame_of_records recs)) as [e0|songs]; [done|].
  rewrite run_guarded_write.
  destruct (write_parquet_rejected spark ["year"; "artist_id"] (output_data +:+ "/songs")
              songs (add_read (input_data +:+ "song_data/*/*/*/*.json") w) e Hf)
    as [e' ->].
  done.
Qed.

(** [process_song_data] when the [songs] table is written and the
    [artists] table cannot be projected. *)
Lemma process_song_data_no_artists spark input_data output_data w recs songs e :
  json_files spark (input_data +:+ "song_data/*/*/*/*.json") = inr recs →
  songs_table_of (frame_of_records recs) = inr songs →
  storage_fault spark (output_data +:+ "/songs") = None →
  artists_table_of (frame_of_records recs) = inl e →
  process_song_data spark input_data output_data w
  = (with_store
       (<[output_data +:+ "/songs" := mkParquet ["year"; "artist_id"] songs]> (store w))
       (add_read (input_data +:+ "song_data/*/*/*/*.json") w),
     Raised (NameError "error")).
Proof.
  intros Hr Hs Hf He. destruct (songs_table_writable _ _ Hs) as [Hc1 Hn1].
  unfold process_song_data. cbv zeta.
  rewrite run_guarded_read, Hr, run_guarded_lift, Hs, run_guarded_write.
  rewrite write_parquet_ok by done. by rewrite run_guarded_lift, He.
Qed.

(** [process_song_data] when the [songs] table is written and the
    storage rejects the write of [artists]. *)
Lemma process_song_data_artists_rejected spark input_data output_data w recs songs e :
  json_files spark (input_data +:+ "song_data/*/*/*/*.json") = inr recs →
  songs_table_of (frame_of_records recs) = inr songs →
  storage_fault spark (output_data +:+ "/songs") = None →
  storage_fault spark (output_data +:+ "/artists") = Some e →
  process_song_data spark input_data output_data w
  = (with_store
       (<[output_data +:+ "/songs" := mkParquet ["year"; "artist_id"] songs]> (store w))
       (add_read (input_data +:+ "song_data/*/*/*/*.json") w),
     Raised (NameError "error")).
Proof.
  intros Hr Hs Hf He. destruct (songs_table_writable _ _ Hs) as [Hc1 Hn1].
  unfold process_song_data. cbv zeta.
  rewrite run_guarded_read, Hr, run_guarded_lift, Hs, run_guarded_write.
  rewrite write_parquet_ok by done. rewrite run_guarded_lift.
  destruct (artists_table_of (frame_of_records recs)) as [e0|artists]; [done|].
  rewrite run_guarded_write_last.
  by destruct (write_parquet_rejected spark [] (output_data +:+ "/artists") artists
                 (with_store
                    (<[output_data +:+ "/songs" := mkParquet ["year"; "artist_id"] songs]>
                       (store (add_read (input_data +:+ "song_data/*/*/*/*.json") w)))
                    (add_read (input_data +:+ "song_data/*/*/*/*.json") w)) e He)
    as [e' ->].
Qed.

(** [process_log_data] when the log files cannot be read. *)
Lemma process_log_data_unread spark input_data output_data w e :
  json_files spark (input_data +:+ "log_data/*.json") = inl e →
  process_log_data spark input_data output_data w
  = (add_read (input_data +:+ "log_data/*.json") w, Raised (NameError "error")).
Proof.
  intros Hr. unfold process_log_data. cbv zeta. by rewrite run_guarded_read, Hr.
Qed.

(** [process_log_data] up to line 127, when the statements before it
    pass: the [users] table is written, and [TimestampType] is
    unbound. *)
Lemma process_log_data_to_udf spark input_data output_data w recs users :
  json_files spark (input_data +:+ "log_data/*.json") = inr recs →
  users_of_log (frame_of_records recs) = inr users →
  storage_fault spark "/users" = None →
  process_log_data spark input_data output_data w
  = (with_store (<["/users" := mkParquet [] users]> (store w))
                (add_read (input_data +:+ "log_data/*.json") w),
     Raised (NameError "TimestampType")).
Proof.
  intros Hr Hu Hs.
  unfold users_of_log in Hu. apply result_bind_inr in Hu as (df1 & H1 & Hu).
  destruct (users_table_writable _ _ _ H1 Hu) as [Hc Hf].
  unfold process_log_data. cbv zeta.
  rewrite run_guarded_read, Hr, run_guarded_lift, H1, run_guarded_lift, Hu.
  rewrite run_guarded_write, os_path_join_absolute, write_parquet_ok by done.
  by rewrite run_lift.
Qed.

(** [process_log_data] ends where it does at line 127 only when the
    statements before it have passed. *)
Lemma process_log_data_at_udf spark input_data output_data w :
  (process_log_data spark input_data output_data w).2 = Raised (NameError "TimestampType") →
  ∃ recs users,
    json_files spark (input_data +:+ "log_data/*.json") = inr recs
    ∧ users_of_log (frame_of_records recs) = inr users
    ∧ storage_fault spark "/users" = None.
Proof.
  unfold process_log_data. cbv zeta. rewrite run_guarded_read.
  destruct (json_files spark _) as [e|recs] eqn:Hr; [done|].
  rewrite run_guarded_lift.
  destruct (filter_and_rename (frame_of_records recs)) as [e|df1] eqn:H1; [done|].
  rewrite run_guarded_lift.
  destruct (users_table_of df1) as [e|users] eqn:Hu; [done|].
  rewrite run_guarded_write, os_path_join_absolute.
  destruct (write_parquet spark [] "/users" users _) as [w1 [[]|e|c]] eqn:Hw;
    [|done|done].
  apply write_parquet_normal in Hw as (_ & Hs & _).
  intros _. exists recs, users. split_and!; [done| |done].
  unfold users_of_log. by rewrite H1.
Qed.

End Writes.

(** ** The dimension tables, from the records read *)

Section TablesFromRecords.
Implicit Types (t : DataFrame) (recs : list json_record) (names cols : list string).

(** A table projected from the frame read holds the fields of the
    records. *)
Lemma table_rows_frame_of_records names recs t :
  dropDuplicates <$> select names (frame_of_records recs) = inr t →
  rows t = remove_dups ((λ rec, (λ c, field c rec) <$> names) <$> recs).
Proof.
  intros (_ & _ & _ & _ & Hrows & _)%select_distinct.
  rewrite Hrows, rows_frame_of_records, <- list_fmap_compose. f_equal.
  apply list_fmap_ext. intros _ rec Hrec%list_elem_of_lookup_2. simpl.
  apply list_fmap_ext. intros _ c _. by apply named_frame_of_records.
Qed.

Lemma not_elem_of_rename c old new cols :
  c ∉ cols → c ≠ new → c ∉ (λ c', if decide (c' = old) then new else c') <$> cols.
Proof.
  intros Hc Hn (c' & Heq & Hc')%list_elem_of_fmap. by case_decide; simplify_eq.
Qed.

(** A column renamed to a name the schema does not hold resolves under
    the new name where it did under the old one. *)
Lemma resolve_rename_new old new cols i :
  new ∉ cols →
  resolve new ((λ c', if decide (c' = old) then new else c') <$> cols) = inr i
  ↔ resolve old cols = inr i.
Proof.
  intros Hn.
  assert (∀ j, ((λ c', if decide (c' = old) then new else c') <$> cols) !! j = Some new
               ↔ cols !! j = Some old) as Hiff.
  { intros j. rewrite list_lookup_fmap. destruct (cols !! j) as [c'|] eqn:Hj; simpl; [|done].
    case_decide as Hc; subst.
    - done.
    - split; intros [= ->]; [|done]. exfalso. by eapply Hn, list_elem_of_lookup_2. }
  rewrite !resolve_inr, Hiff. by setoid_rewrite Hiff.
Qed.

(** The three columns of the [users] table that lines 101 to 103
    rename, when the log records hold them under the old names only. *)
Lemma resolve_renamed_users cols i :
  "user_id" ∉ cols → "first_name" ∉ cols → "last_name" ∉ cols →
  (resolve "user_id" (rename_all cols) = inr i ↔ resolve "userId" cols = inr i)
  ∧ (resolve "first_name" (rename_all cols) = inr i ↔ resolve "firstName" cols = inr i)
  ∧ (resolve "last_name" (rename_all cols) = inr i ↔ resolve "lastName" cols = inr i).
Proof.
  intros H1 H2 H3. unfold rename_all. split_and!.
  - rewrite !(resolve_rename "user_id") by done. by apply resolve_rename_new.
  - rewrite !(resolve_rename "first_name") by done.
    rewrite resolve_rename_new by by apply not_elem_of_rename.
    by rewrite resolve_rename.
  - rewrite !(resolve_rename "last_name") by done.
    rewrite resolve_rename_new by by repeat apply not_elem_of_rename.
    by rewrite !resolve_rename.
Qed.

(** A row of the filtered frame holds, under the names of the [users]
    table, the fields of its record. *)
Lemma users_row_frame_of_records recs df1 u rec :
  filter_and_rename (frame_of_records recs) = inr df1 →
  users_table_of df1 = inr u →
  "user_id" ∉ keys recs → "first_name" ∉ keys recs → "last_name" ∉ keys recs →
  rec ∈ recs →
  (λ c, named df1 (row_of (columns (frame_of_records recs)) rec) c)
    <$> ["user_id"; "first_name"; "last_name"; "gender"; "level"]
  = (λ c, field c rec) <$> users_fields.
Proof.
  intros H1 Hu Hk1 Hk2 Hk3 Hrec.
  destruct (filter_and_rename_records recs df1 H1) as (_ & _ & _ & Hnamed).
  apply result_fmap_inr in Hu as (s & Hs & _).
  assert (∀ c, c ∈ ["user_id"; "first_name"; "last_name"; "gender"; "level"] →
               ∃ i, resolve c (columns df1) = inr i) as Hres
    by (intros c Hc; by eapply select_resolves).
  apply filter_and_rename_inr in H1 as (page & _ & Hdf1).
  assert (columns df1 = rename_all (columns (frame_of_records recs))) as Hcols
    by by rewrite Hdf1.
  set (cols := columns (frame_of_records recs)) in *.
  rewrite <- !elem_of_columns_frame_of_records in Hk1, Hk2, Hk3. fold cols in Hk1, Hk2, Hk3.
  assert (∀ c c' i, resolve c' (columns df1) = inr i → resolve c cols = inr i →
                    named df1 (row_of cols rec) c' = field c rec) as Hold.
  { intros c c' i Hi Hi'. rewrite (named_cell _ _ _ _ Hi).
    rewrite <- (named_frame_of_records recs rec c Hrec). fold cols.
    by rewrite (named_cell _ _ _ _ Hi'). }
  unfold users_fields. simpl. f_equal; [|f_equal; [|f_equal; [|f_equal; [|f_equal]]]].
  - destruct (Hres "user_id") as [i Hi]; [by apply (bool_decide_unpack _)|]. apply (Hold _ _ i Hi).
    rewrite Hcols in Hi. by apply (resolve_renamed_users cols i Hk1 Hk2 Hk3).
  - destruct (Hres "first_name") as [i Hi]; [by apply (bool_decide_unpack _)|]. apply (Hold _ _ i Hi).
    rewrite Hcols in Hi. by apply (resolve_renamed_users cols i Hk1 Hk2 Hk3).
  - destruct (Hres "last_name") as [i Hi]; [by apply (bool_decide_unpack _)|]. apply (Hold _ _ i Hi).
    rewrite Hcols in Hi. by apply (resolve_renamed_users cols i Hk1 Hk2 Hk3).
  - apply Hnamed; [done|]. by apply (bool_decide_unpack _).
  - apply Hnamed; [done|]. by apply (bool_decide_unpack _).
Qed.

End TablesFromRecords.

(** ** Dates *)

Section Dates.

(** The date of a day number is a date of that day number. *)
Lemma days_from_civil_civil_from_days (z : Z) :
  Calendar.days_from_civil (Calendar.civil_from_days z).1.1
                           (Calendar.civil_from_days z).1.2
                           (Calendar.civil_from_days z).2 = z.
Proof.
  unfold Calendar.civil_from_days. cbv zeta.
  set (z' := z + 719468).
  set (era := z' `div` 146097).
  set (doe := z' `mod` 146097).
  assert (z = era * 146097 + doe - 719468) as Hz.
  { unfold era, doe, z'. pose proof (Z.div_mod (z + 719468) 146097). lia. }
  assert (0 ≤ doe < 146097) as Hdoe by (apply Z.mod_pos_bound; lia).
  clearbody era doe. clear z'.
  set (yoe := (doe - doe `div` 1460 + doe `div` 36524 - doe `div` 146096) `div` 365).
  assert (0 ≤ yoe ≤ 399) as Hyoe by (unfold yoe; Z.div_mod_to_equations; lia).
  set (doy := doe - (365 * yoe + yoe `div` 4 - yoe `div` 100)).
  assert (0 ≤ doy ≤ 365) as Hdoy by (unfold doy, yoe; Z.div_mod_to_equations; lia).
  assert (doe = 365 * yoe + yoe `div` 4 - yoe `div` 100 + doy) as Hdoe' by (unfold doy; lia).
  clearbody doy. clearbody yoe.
  set (mp := (5 * doy + 2) `div` 153).
  assert (0 ≤ mp ≤ 11) as Hmp by (unfold mp; Z.div_mod_to_equations; lia).
  set (d := doy - (153 * mp + 2) `div` 5 + 1).
  assert (doy = (153 * mp + 2) `div` 5 + d - 1) as Hd by (unfold d; lia).
  clearbody d. clearbody mp. simpl.
  unfold Calendar.days_from_civil. cbv zeta.
  repeat case_decide; try lia.
  all: rewrite ?Z.add_simpl_r.
  all: replace ((yoe + era * 400) `div` 400) with era
         by (Z.div_mod_to_equations; lia).
  all: replace ((yoe + era * 400) `mod` 400) with yoe
         by (Z.div_mod_to_equations; lia).
  - replace (mp - 9 + 9) with mp by lia. lia.
  - lia.
Qed.

(** A day lies within the year of its date: at most 365 days after
    the first of January. *)
Lemma day_of_year_range (z : Z) :
  let y := (Calendar.civil_from_days z).1.1 in
  0 ≤ z - Calendar.days_from_civil y 1 1 ≤ 365.
Proof.
  intros y. pose proof (days_from_civil_civil_from_days z) as Hz. fold y in Hz.
  pose proof (civil_from_days_ranges z) as [Hm Hd].
  set (m := (Calendar.civil_from_days z).1.2) in *.
  set (d := (Calendar.civil_from_days z).2) in *.
  assert (m ≤ 2 → d ≤ 31) as _ by lia.
  assert (3 ≤ m → (153 * (m - 3) + 2) `div` 5 + d - 1 ≤ 305) as Hdoy.
  { intros Hm3. unfold m, d, Calendar.civil_from_days. cbv zeta. simpl.
    set (doe := (z + 719468) `mod` 146097).
    set (yoe := (doe - doe `div` 1460 + doe `div` 36524 - doe `div` 146096) `div` 365).
    set (doy := doe - (365 * yoe + yoe `div` 4 - yoe `div` 100)).
    set (mp := (5 * doy + 2) `div` 153).
    assert (0 ≤ doe < 146097) as Hdoe by (apply Z.mod_pos_bound; lia).
    assert (0 ≤ doy ≤ 365) as Hdoy by (unfold doy, yoe; Z.div_mod_to_equations; lia).
    assert (0 ≤ mp ≤ 11) as Hmp by (unfold mp; Z.div_mod_to_equations; lia).
    assert (m = if decide (mp < 10) then mp + 3 else mp - 9) as Hmm by done.
    clearbody doy. case_decide; [|lia].
    replace (mp + 3 - 3) with mp by lia. unfold mp. Z.div_mod_to_equations. lia. }
  clearbody m d y. rewrite <- Hz. clear Hz z.
  unfold Calendar.days_from_civil. cbv zeta.
  destruct (decide (1 ≤ 2)) as [_|?]; [|lia].
  replace ((153 * (1 + 9) + 2) `div` 5 + 1 - 1) with 306 by done.
  case_decide.
  - Z.div_mod_to_equations. lia.
  - specialize (Hdoy ltac:(lia)). Z.div_mod_to_equations. lia.
Qed.

Lemma weekofyear_range tz us : 1 ≤ Calendar.weekofyear tz us ≤ 53.
Proof.
  unfold Calendar.weekofyear. cbv zeta.
  set (thursday := Calendar.local_day tz us - (Calendar.local_day tz us + 3) `mod` 7 + 3).
  pose proof (day_of_year_range thursday) as H. cbv zeta in H.
  Z.div_mod_to_equations. lia.
Qed.

Lemma dayofweek_range tz us : 1 ≤ Calendar.dayofweek tz us ≤ 7.
Proof. unfold Calendar.dayofweek. Z.div_mod_to_equations. lia. Qed.

End Dates.

(** ** The schema of the join *)

Section JoinSchema.
Implicit Types (df song_df : DataFrame) (c : string) (cols : list string).

Lemma add_calendar_columns tz df df' :
  add_calendar tz (millis_to_datetime tz) df = inr df' →
  columns df'
  = put_name "weekday" (put_name "year" (put_name "month" (put_name "week"
      (put_name "day" (put_name "hour" (put_name "datetime" (columns df))))))).
Proof.
  unfold add_calendar. intros H.
  apply result_bind_inr in H as (ts & _ & H).
  repeat (apply result_bind_inr in H as (? & _ & H)).
  by injection H as <-.
Qed.

(** A name both sides of a join hold cannot be resolved in it. *)
Lemma resolve_app_both c cols1 cols2 :
  c ∈ cols1 → c ∈ cols2 → ∃ e, resolve c (cols1 ++ cols2) = inl e.
Proof.
  intros [i Hi]%list_elem_of_lookup [j Hj]%list_elem_of_lookup.
  destruct (resolve c (cols1 ++ cols2)) as [e|k] eqn:H; [eauto|]. exfalso.
  apply resolve_inr in H as [_ Hu].
  assert (i = k) as Hik by (apply Hu; by apply lookup_app_l_Some).
  assert ((length cols1 + j)%nat = k) as Hjk.
  { apply Hu. by rewrite lookup_app_r, Nat.add_comm, Nat.add_sub by lia. }
  apply lookup_lt_Some in Hi. lia.
Qed.

(** A projection fails when one of its names does not resolve. *)
Lemma select_unresolved names df c e :
  c ∈ names → resolve c (columns df) = inl e → ∃ e', select names df = inl e'.
Proof.
  intros Hc He. destruct (select names df) as [e'|t] eqn:H; [eauto|].
  destruct (select_resolves names df t c H Hc) as [i Hi]. congruence.
Qed.

Lemma year_in_prepared tz log_df df : prepare tz log_df = inr df → "year" ∈ columns df.
Proof.
  intros (df1 & df2 & _ & _ & ->%add_calendar_columns)%prepare_inr.
  apply put_name_subseteq, elem_of_put_name.
Qed.

End JoinSchema.

(** ** Fact rows and dimension rows *)

Section References.
Implicit Types (df song_df sp : DataFrame) (l s o : row) (c : string).

(** A row of the fact table comes from a log row and a song row that
    match. *)
Lemma songplays_row_inv layout df song_df sp o :
  wf df → wf song_df →
  songplays_table_of layout df song_df = inr sp →
  o ∈ rows sp →
  ∃ a b l s i,
    l ∈ rows df ∧ s ∈ rows song_df
    ∧ (∀ c, c ∈ fact_names → ∃ k, resolve c (columns (join df song_df a b)) = inr k)
    ∧ columns sp = "songplay_id" :: fact_names
    ∧ o = VInt i :: ((λ c, named (join df song_df a b) (l ++ s) c) <$> fact_names).
Proof.
  intros Hwf Hwfs Hsp Ho.
  destruct (songplays_rows layout df song_df sp Hwf Hwfs Hsp)
    as (a & b & _ & _ & Hcols & Hres & Hrows).
  rewrite Hrows in Ho. apply elem_of_zip_with in Ho as (j & i & -> & Hj & _).
  simpl in Hj. apply list_elem_of_bind in Hj as (l & Hj & Hl).
  apply list_elem_of_fmap in Hj as (s & -> & [_ Hs]%list_elem_of_filter).
  by exists a, b, l, s, i.
Qed.

(** Lines 130 to 143 leave the columns they do not set as they were. *)
Lemma prepared_row tz df1 df2 df3 l :
  wf df1 →
  add_start_time (millis_to_datetime tz) df1 = inr df2 →
  add_calendar tz (millis_to_datetime tz) df2 = inr df3 →
  l ∈ rows df3 →
  length l = length (columns df3)
  ∧ ∃ r, r ∈ rows df1
         ∧ ∀ c i, c ∉ ["start_time"; "datetime"; "hour"; "day"; "week"; "month"; "year";
                       "weekday"] →
                  resolve c (columns df3) = inr i → named df3 l c = named df1 r c.
Proof.
  intros Hwf H2 H3 Hl.
  destruct (add_start_time_views tz df1 df2 H2) as (g1 & Hr2 & HV2).
  destruct (add_calendar_views tz df2 df3 H3) as (g2 & Hr3 & HV3).
  rewrite Hr3, Hr2, <- list_fmap_compose in Hl.
  apply list_elem_of_fmap in Hl as (r & -> & Hr). simpl.
  assert (views df1 r (named df1 r)) as HV1.
  { apply views_named. unfold wf in Hwf. rewrite Forall_forall in Hwf. by apply Hwf. }
  pose proof (HV3 _ _ (HV2 _ _ HV1)) as HV. split; [apply HV|].
  exists r. split; [done|]. intros c i Hc Hi.
  rewrite (views_named_resolved _ _ _ _ _ HV Hi).
  unfold calendar_view, start_time_view.
  repeat case_decide; try done; subst; exfalso; apply Hc; by apply (bool_decide_unpack _).
Qed.

Lemma columns_prepared tz df1 df2 df3 :
  add_start_time (millis_to_datetime tz) df1 = inr df2 → add_calendar tz (millis_to_datetime tz) df2 = inr df3 →
  columns df1 ⊆ columns df3.
Proof.
  intros (ts & _ & ->)%add_start_time_inr ->%add_calendar_columns. simpl.
  repeat (etrans; [|apply put_name_subseteq]). done.
Qed.

End References.

(** ** What the records give *)

Section Sound.
Implicit Types (recs : list json_record).

(** A key of the records resolves in the frame read. *)
Lemma resolve_key recs c :
  c ∈ keys recs → ∃ i, resolve c (columns (frame_of_records recs)) = inr i.
Proof.
  intros Hc. apply resolve_NoDup; [apply NoDup_columns_frame_of_records|].
  by apply elem_of_columns_frame_of_records.
Qed.

(** The [users] table can be built when the log records hold [page]
    and the five fields under their old names only. *)
Lemma users_of_log_total recs :
  "page" ∈ keys recs → users_fields ⊆ keys recs →
  "user_id" ∉ keys recs → "first_name" ∉ keys recs → "last_name" ∉ keys recs →
  ∃ users, users_of_log (frame_of_records recs) = inr users.
Proof.
  intros Hpage Hsub H1 H2 H3. unfold users_of_log.
  destruct (resolve_key recs "page" Hpage) as [page Hp].
  set (cols := columns (frame_of_records recs)) in *.
  set (df1 := mkFrame (rename_all cols)
                (filter (λ r, cell r page = VStr "NextSong" ∧ VStr "NextSong" ≠ VNull)
                        (rows (frame_of_records recs)))
                (fault (frame_of_records recs))).
  assert (filter_and_rename (frame_of_records recs) = inr df1) as Hdf1.
  { apply filter_and_rename_inr. by exists page. }
  destruct (select_total ["user_id"; "first_name"; "last_name"; "gender"; "level"] df1)
    as [t Ht].
  - rewrite <- !elem_of_columns_frame_of_records in H1, H2, H3. fold cols in H1, H2, H3.
    assert (∀ c, c ∈ users_fields → ∃ i, resolve c cols = inr i) as Hres
      by (intros c Hc; by apply resolve_key, Hsub).
    intros c Hc. simpl.
    repeat (apply elem_of_cons in Hc as [->|Hc]); [| | | | |by apply elem_of_nil in Hc].
    + destruct (Hres "userId") as [i Hi]; [by apply (bool_decide_unpack _)|].
      exists i. by apply (resolve_renamed_users cols i H1 H2 H3).
    + destruct (Hres "firstName") as [i Hi]; [by apply (bool_decide_unpack _)|].
      exists i. by apply (resolve_renamed_users cols i H1 H2 H3).
    + destruct (Hres "lastName") as [i Hi]; [by apply (bool_decide_unpack _)|].
      exists i. by apply (resolve_renamed_users cols i H1 H2 H3).
    + destruct (Hres "gender") as [i Hi]; [by apply (bool_decide_unpack _)|].
      exists i. unfold rename_all. by rewrite !(resolve_rename "gender") by done.
    + destruct (Hres "level") as [i Hi]; [by apply (bool_decide_unpack _)|].
      exists i. unfold rename_all. by rewrite !(resolve_rename "level") by done.
  - exists (dropDuplicates t). apply result_bind_inr. exists df1. split; [done|].
    unfold users_table_of. by rewrite Ht.
Qed.

End Sound.

(** ** The sample records *)

Section SampleRecords.

Lemma plain_nil : plain [].
Proof. apply (bool_decide_unpack _). vm_compute. exact I. Qed.

Lemma plain_songs : plain Sample.songs.
Proof. apply (bool_decide_unpack _). vm_compute. exact I. Qed.

Lemma plain_events : plain Sample.events.
Proof. apply (bool_decide_unpack _). vm_compute. exact I. Qed.

Lemma plain_song_without_artist : plain [Sample.song_without_artist].
Proof. apply (bool_decide_unpack _). vm_compute. exact I. Qed.

End SampleRecords.

(** * The claims *)

(** C1.  The [songs] table holds its partition columns [year] and
    [artist_id], and the [time] table its partition columns [year] and
    [month]: their writes pass the analysis.  The fact table does not:
    the projection of lines 174 and 175 leaves neither [year] nor
    [month] for the write of line 183, which fails its analysis.  So,
    whatever the session, the paths and the state of the store,
    [process_log_data] does not return, and what the store holds at
    [song_plays] under the output root is what it held before. *)
Theorem song_plays_never_written (spark : SparkSession) (input_data output_data : string)
    (w : world) :
  (∀ df t, songs_table_of df = inr t → check_write ["year"; "artist_id"] t = inr ())
  ∧ (∀ df t, time_table_of df = inr t → check_write ["year"; "month"] t = inr ())
  ∧ (∀ a, (process_log_data spark input_data output_data w).2 ≠ Normal a)
  ∧ (∀ layout df song_df sp,
       songplays_table_of layout df song_df = inr sp →
       ("year" ∉ columns sp) ∧ ("month" ∉ columns sp)
       ∧ (write_parquet spark ["year"; "month"] (output_data +:+ "/song_plays") sp w).2
         = Raised (AnalysisException "Partition column `year` not found in schema"))
  ∧ store (process_log_data spark input_data output_data w).1
      !! (output_data +:+ "/song_plays")
    = store w !! (output_data +:+ "/song_plays").
Proof.
  set (R := [input_data +:+ "log_data/*.json"]).
  set (W := [os_path_join output_data "/users"]).
  pose proof (tidy_process_log_data (footprint R W) (λ p, p ∈ R) (λ p, p ∈ W)
                (footprint_read R W) (footprint_write R W)
                spark input_data output_data) as H.
  assert (output_data +:+ "/song_plays" ∉ W) as Hp.
  { unfold W. intros [Hu|Hn]%elem_of_cons.
    - symmetry in Hu. by apply users_path_not_song_plays in Hu.
    - by apply elem_of_nil in Hn. }
  specialize (H ltac:(unfold R; by left) ltac:(unfold W; by left) w).
  split_and!.
  - intros df t (Hcols & _)%select_distinct. unfold check_write. rewrite Hcols.
    by vm_compute.
  - intros df t (Hcols & _)%select_distinct. unfold check_write. rewrite Hcols.
    by vm_compute.
  - intros a Ha. rewrite (surjective_pairing (process_log_data _ _ _ _)) in H.
    rewrite Ha in H. by destruct H.
  - intros layout df song_df sp Hsp.
    pose proof (songplays_not_partitionable _ _ _ _ Hsp) as Hcheck.
    apply songplays_table_of_inr in Hsp as (a & b & _ & _ & (Hcols & _)%select_rows).
    split_and!.
    + rewrite Hcols. by apply (bool_decide_unpack _).
    + rewrite Hcols. by apply (bool_decide_unpack _).
    + unfold write_parquet. by rewrite Hcheck.
  - destruct (process_log_data spark input_data output_data w) as [w' [a|e|c]].
    + by destruct H.
    + destruct H as [(_ & _ & Hs) _]. simpl. by apply Hs.
    + done.
Qed.

(** C2.  The [users] table goes to [/users], whatever the output root:
    [os.path.join] drops the root before an absolute second component.
    In the sample run the root holds [songs] and [artists], and no
    [users]. *)
Theorem users_written_outside_root :
  (∀ output_data, os_path_join output_data "/users" = "/users")
  ∧ String.prefix "s3a://gy-nano-bkt/" (os_path_join "s3a://gy-nano-bkt/" "/users") = false
  ∧ (map_to_list (store (run Sample.machine).1)).*1
    = ["/users"; "s3a://gy-nano-bkt//songs"; "s3a://gy-nano-bkt//artists"].
Proof. split_and!; [done|done|by vm_compute]. Qed.

(** C3.  No run reports a failure as the handlers mean to.  Every
    handler calls [error], a name the script binds nowhere: the call
    raises [NameError] before a line is written and before [exit()] is
    reached.  No run returns from [main] either, since line 127 raises
    the [NameError] of [TimestampType] when the statements before it
    pass.  So every run ends by an uncaught [NameError] of one of the
    two names, the script has written no diagnostic line, and the
    status of the process is 1, that of an uncaught exception. *)
Theorem failure_reporting (h : host) :
  (∃ e, (run h).2 = Raised e ∧ unbound e)
  ∧ diagnostics (run h).1 = []
  ∧ exit_status (run h).2 = 1
  ∧ (∀ A (body : M A) (msg : string) (w w' : world) (e : exn),
       body w = (w', Raised e) →
       try_except body (λ e, error (msg +:+ str e);; exit) w
       = (w', Raised (NameError "error")))
  ∧ (∀ e, credentials (dl_cfg h) = inl e → (run h).2 = Raised (NameError "error")).
Proof.
  destruct (run_outcome h) as (e & He & Hu & Hd & _).
  split_and!; [by exists e|done|by rewrite He| |].
  - intros A body msg w w' e' Hb. unfold try_except. by rewrite Hb.
  - intros e' Hc. destruct (script_failure h e' initial Hc) as (E & Hs & _).
    unfold run. by rewrite Hs.
Qed.

(** A run that cannot read the song files: the handler of lines 47 to
    49 raises the [NameError] of [error]; no line is written and the
    status is 1. *)
Lemma failed_run_writes_no_line :
  run Sample.machine_without_songs
  = (mkWorld (<["AWS_SECRET_ACCESS_KEY" := "hunter2"]> (<["AWS_ACCESS_KEY_ID" := "AKIA"]> ∅))
             [] [song_data_glob] ∅,
     Raised (NameError "error"))
  ∧ exit_status (run Sample.machine_without_songs).2 = 1.
Proof. split; by vm_compute. Qed.

(** C4.  The fact builder is an inner join of the log rows with the
    song rows on [artist = artist_name], exact and null-free: after the
    id, the fact rows are, log row by log row, one row per matching song,
    holding the log row's [start_time], [user_id], [level],
    [session_id], [location], [user_agent] and the song's [song_id],
    [artist_id].  A log row whose artist equals no song's [artist_name]
    gives no row; one log row with [k] matching songs gives exactly [k]
    rows. *)
Theorem songplay_join_semantics (layout : list nat) (df song_df sp : DataFrame) :
  wf df → wf song_df →
  ["start_time"; "user_id"; "level"; "session_id"; "location"; "user_agent"] ⊆ columns df →
  ["song_id"; "artist_id"] ⊆ columns song_df →
  songplays_table_of layout df song_df = inr sp →
  drop 1 <$> rows sp
    = (l ← rows df; fact_row df song_df l <$> matching_songs df song_df l)
  ∧ (∀ l s, s ∈ matching_songs df song_df l ↔
            s ∈ rows song_df
            ∧ named df l "artist" = named song_df s "artist_name"
            ∧ named df l "artist" ≠ VNull)
  ∧ (∀ l, (∀ s, s ∈ rows song_df → named df l "artist" ≠ named song_df s "artist_name") →
          matching_songs df song_df l = [])
  ∧ (∀ l, rows df = [l] →
          length (rows sp) = length (matching_songs df song_df l)
          ∧ drop 1 <$> rows sp = fact_row df song_df l <$> matching_songs df song_df l).
Proof.
  intros Hwf Hwfs Hl Hs Hsp.
  destruct (songplays_rows layout df song_df sp Hwf Hwfs Hsp)
    as (a & b & Ha & Hb & Hcols & Hres & Hrows).
  assert (drop 1 <$> rows sp
          = (l ← rows df; fact_row df song_df l <$> matching_songs df song_df l)) as Hfacts.
  { rewrite Hrows, fmap_zip_with. simpl.
    rewrite zip_with_const_l by by rewrite length_monotonic_ids.
    rewrite list_fmap_bind_r. apply list_bind_ext_elem_of. intros l Hin.
    rewrite <- list_fmap_compose, (join_filter df song_df a b l Ha Hb).
    apply list_fmap_ext. intros _ s _. simpl.
    apply fact_columns; [|done|done|done].
    unfold wf in Hwf. rewrite Forall_forall in Hwf. by apply Hwf. }
  split_and!; [done| | |].
  - intros l s. unfold matching_songs, sql_eq. rewrite list_elem_of_filter. tauto.
  - intros l Hno. unfold matching_songs.
    induction (rows song_df) as [|s ss IH]; [done|].
    rewrite filter_cons_False.
    + apply IH. intros s' Hs'. apply Hno. by right.
    + intros [Heq _]. by apply (Hno s); [left|].
  - intros l Hone. rewrite Hone in Hfacts. simpl in Hfacts.
    rewrite app_nil_r in Hfacts. split; [|done].
    apply (f_equal length) in Hfacts. by rewrite !length_fmap in Hfacts.
Qed.

(** C5.  Only the log rows with [page = "NextSong"] reach the three
    tables of [process_log_data]: a row with any other page can be
    dropped from the log frame without changing [users], [time] or
    [song_plays], and a log frame without played rows leaves the three
    tables empty. *)
Theorem filter_invariant (tz : Z) (layout : list nat) (cols : list string)
    (rs1 rs2 : list row) (r : row) (f : option exn) (song_df : DataFrame) (page : nat) :
  resolve "page" cols = inr page →
  cell r page ≠ VStr "NextSong" →
  let log_df := mkFrame cols (rs1 ++ r :: rs2) f in
  let log_df' := mkFrame cols (rs1 ++ rs2) f in
  users_of_log log_df = users_of_log log_df'
  ∧ time_of_log tz log_df = time_of_log tz log_df'
  ∧ songplays_of_log tz layout log_df song_df = songplays_of_log tz layout log_df' song_df
  ∧ (∀ df0, (∀ r0, r0 ∈ rows df0 → named df0 r0 "page" ≠ VStr "NextSong") →
     (∀ u, users_of_log df0 = inr u → rows u = [])
     ∧ (∀ t, time_of_log tz df0 = inr t → rows t = [])
     ∧ (∀ sp, songplays_of_log tz layout df0 song_df = inr sp → rows sp = [])).
Proof.
  intros Hpage Hr log_df log_df'.
  assert (filter_and_rename log_df = filter_and_rename log_df') as Hfr.
  { unfold filter_and_rename, attr, log_df, log_df'. simpl. rewrite Hpage. simpl.
    unfold filter_eq. simpl. by rewrite !filter_app, filter_cons_False by by intros [? _]. }
  assert (prepare tz log_df = prepare tz log_df') as Hprep
    by (unfold prepare; by rewrite Hfr).
  split_and!.
  - unfold users_of_log. by rewrite Hfr.
  - unfold time_of_log. by rewrite Hprep.
  - unfold songplays_of_log. by rewrite Hprep.
  - intros df0 Hpages.
    assert (∀ df, filter_and_rename df0 = inr df → rows df = []) as Hnone.
    { intros df (page' & Hpage' & ->)%filter_and_rename_inr. simpl.
      apply elem_of_nil_inv. intros r0 [[Hp _] Hr0]%list_elem_of_filter.
      apply (Hpages r0 Hr0). by rewrite (named_cell _ _ _ _ Hpage'). }
    assert (∀ df, prepare tz df0 = inr df → rows df = []) as Hnone'.
    { intros df (df1 & df2 & H1 & H2 & H3)%prepare_inr.
      destruct (add_start_time_views tz df1 df2 H2) as (g1 & Hr2 & _).
      destruct (add_calendar_views tz df2 df H3) as (g2 & Hr3 & _).
      by rewrite Hr3, Hr2, (Hnone df1 H1). }
    split_and!.
    + unfold users_of_log. intros u (df & Hdf & Hu)%result_bind_inr.
      apply select_distinct in Hu as (_ & _ & _ & _ & -> & _).
      by rewrite (Hnone df Hdf).
    + unfold time_of_log. intros t (df & Hdf & Ht)%result_bind_inr.
      apply select_distinct in Ht as (_ & _ & _ & _ & -> & _).
      by rewrite (Hnone' df Hdf).
    + unfold songplays_of_log. intros sp (df & Hdf & Hsp)%result_bind_inr.
      apply songplays_table_of_inr in Hsp as (a & b & _ & _ & Hsel).
      apply select_rows in Hsel as (_ & _ & ->). simpl.
      by rewrite (Hnone' df Hdf).
Qed.

(** C6.  Each of the four dimension tables ([songs], [artists], [users],
    [time]) has no two equal rows and no more rows than the frame it is
    built from (for [users] and [time] also: than the log frame read);
    its rows are exactly the projections of the input rows, so rows are
    merged only when they agree on every projected column: two song
    rows with one [song_id] and two titles give two rows of [songs]. *)
Theorem dimension_tables_deduplicated (df t : DataFrame) :
  songs_table_of df = inr t ∨ artists_table_of df = inr t
  ∨ users_table_of df = inr t ∨ time_table_of df = inr t →
  NoDup (rows t)
  ∧ (length (rows t) ≤ length (rows df))%nat
  ∧ (∀ o, o ∈ rows t ↔ ∃ r, r ∈ rows df ∧ o = (λ c, named df r c) <$> columns t)
  ∧ (songs_table_of df = inr t →
     ∀ r1 r2, r1 ∈ rows df → r2 ∈ rows df →
       named df r1 "song_id" = named df r2 "song_id" →
       named df r1 "title" ≠ named df r2 "title" →
       ∃ o1 o2, o1 ∈ rows t ∧ o2 ∈ rows t ∧ o1 ≠ o2
                ∧ named t o1 "song_id" = named t o2 "song_id"
                ∧ named t o1 "title" = named df r1 "title"
                ∧ named t o2 "title" = named df r2 "title")
  ∧ (∀ log_df, filter_and_rename log_df = inr df → users_table_of df = inr t →
       (length (rows t) ≤ length (rows log_df))%nat)
  ∧ (∀ tz log_df, prepare tz log_df = inr df → time_table_of df = inr t →
       (length (rows t) ≤ length (rows log_df))%nat).
Proof.
  intros H.
  assert (∃ names, dropDuplicates <$> select names df = inr t) as [names Hsel].
  { destruct H as [H|[H|[H|H]]]; eexists; exact H. }
  apply select_distinct in Hsel as (Hcols & _ & Hnd & Hlen & _ & Hin).
  split_and!; [done|done|by rewrite Hcols| | |].
  - clear H Hcols Hin names Hnd Hlen. intros H r1 r2 Hr1 Hr2 Hid Htitle.
    apply select_distinct in H as (Hcols & _ & _ & _ & _ & Hin).
    exists ((λ c, named df r1 c) <$> ["song_id"; "title"; "artist_id"; "year"; "duration"]),
           ((λ c, named df r2 c) <$> ["song_id"; "title"; "artist_id"; "year"; "duration"]).
    split_and!.
    + apply Hin. eauto.
    + apply Hin. eauto.
    + simpl. congruence.
    + unfold named at 1 3, attr. by rewrite Hcols.
    + unfold named at 1, attr. by rewrite Hcols.
    + unfold named at 1, attr. by rewrite Hcols.
  - intros log_df Hf _. etrans; [exact Hlen|]. by eapply length_filter_and_rename.
  - intros tz log_df Hp _. etrans; [exact Hlen|]. by eapply length_prepare.
Qed.

(** C7.  The time table is never built.  Line 127 evaluates
    [TimestampType()], a name the script does not import, outside every
    [try]: whatever the session, the paths and the state of the store,
    [process_log_data] ends by a [NameError] and leaves what the store
    holds at [time] under the output root as it was.  When the log
    files are read, the [users] table is built and the storage accepts
    it, the function ends at line 127, past the read of the log
    files. *)
Theorem time_table_never_built (spark : SparkSession) (input_data output_data : string)
    (w : world) :
  TimestampType = inl (NameError "TimestampType")
  ∧ (∃ e, (process_log_data spark input_data output_data w).2 = Raised e ∧ unbound e)
  ∧ store (process_log_data spark input_data output_data w).1 !! (output_data +:+ "/time")
    = store w !! (output_data +:+ "/time")
  ∧ (∀ recs users,
       json_files spark (input_data +:+ "log_data/*.json") = inr recs →
       plain recs →
       users_of_log (frame_of_records recs) = inr users →
       storage_fault spark "/users" = None →
       (process_log_data spark input_data output_data w).2
       = Raised (NameError "TimestampType")
       ∧ reads (process_log_data spark input_data output_data w).1
         = reads w ++ [input_data +:+ "log_data/*.json"]).
Proof.
  set (R := [input_data +:+ "log_data/*.json"]).
  set (W := [os_path_join output_data "/users"]).
  destruct (tidy_never (footprint R W) (process_log_data spark input_data output_data) w)
    as (e & He & Hu & _ & _ & Hs).
  { apply (tidy_process_log_data (footprint R W) (λ p, p ∈ R) (λ p, p ∈ W)
             (footprint_read R W) (footprint_write R W)); [by left|by left]. }
  split_and!; [done|by exists e| |].
  - apply Hs. unfold W. intros [Hp|Hn]%elem_of_cons.
    + by apply time_path_not_users in Hp.
    + by apply elem_of_nil in Hn.
  - intros recs users Hr _ Hus Hf.
    by rewrite (process_log_data_to_udf _ _ _ _ _ _ Hr Hus Hf).
Qed.

(** The log stage of the sample run: the [users] table is written, the
    function ends at line 127, and no [time] table is stored. *)
Lemma sample_log_stage_ends_at_line_127 :
  (process_log_data Sample.spark "s3a://udacity-dend/" "s3a://gy-nano-bkt/" initial).2
  = Raised (NameError "TimestampType")
  ∧ (map_to_list
       (store (process_log_data Sample.spark "s3a://udacity-dend/" "s3a://gy-nano-bkt/"
                 initial).1)).*1
    = ["/users"].
Proof. split; by vm_compute. Qed.

(** C8.  Every row of the join gets a [songplay_id]: the fact table has
    one row, and one id, for each pair of a log row and a matching
    song.  Along the rows the ids increase strictly, so no two rows
    share one, provided the engine's layout keeps below 2^30 partitions
    of at most 2^33 rows each. *)
Theorem songplay_id_assignment (layout : list nat) (df song_df sp : DataFrame) :
  wf df → wf song_df →
  songplays_table_of layout df song_df = inr sp →
  Z.of_nat (length layout) < 2 ^ 30 →
  Forall (λ k, Z.of_nat k ≤ 2 ^ 33) layout →
  Z.of_nat (length (rows df ≫= matching_songs df song_df) - sum_list layout) ≤ 2 ^ 33 →
  length (rows sp) = length (rows df ≫= matching_songs df song_df)
  ∧ ∃ ids : list Z,
      (λ r, named sp r "songplay_id") <$> rows sp = VInt <$> ids
      ∧ length ids = length (rows df ≫= matching_songs df song_df)
      ∧ StronglySorted Z.lt ids
      ∧ NoDup ids.
Proof.
  intros Hwf Hwfs Hsp Hparts Hsizes Hrest.
  destruct (songplays_rows layout df song_df sp Hwf Hwfs Hsp)
    as (a & b & Ha & Hb & Hcols & Hres & Hrows).
  set (J := join df song_df a b) in *.
  assert (length (rows J) = length (rows df ≫= matching_songs df song_df)) as HJ.
  { rewrite <- (length_fmap (λ _, ()) (rows J)).
    rewrite <- (length_fmap (λ _, ()) (rows df ≫= matching_songs df song_df)).
    f_equal. unfold J. simpl. rewrite !list_fmap_bind_r.
    apply list_bind_ext_elem_of. intros l _.
    by rewrite <- list_fmap_compose, (join_filter df song_df a b l Ha Hb). }
  assert (length (rows sp) = length (rows J)) as Hlen.
  { rewrite Hrows, length_zip_with, length_monotonic_ids. lia. }
  split; [congruence|].
  exists (monotonic_ids 0 layout (length (rows J))).
  destruct (monotonic_ids_sorted 0 layout (length (rows J))) as [Hsorted _];
    [done|lia|done|by rewrite HJ|].
  split_and!; [|by rewrite length_monotonic_ids|done|by apply StronglySorted_lt_NoDup].
  rewrite Hrows, fmap_zip_with.
  rewrite <- (zip_with_const_r VInt (rows J)) by by rewrite length_monotonic_ids.
  apply zip_with_ext_elem_of. intros j i _.
  unfold named, attr. by rewrite Hcols.
Qed.




Lemma sample_run_writes_songs :
  is_Some (store (run Sample.machine).1 !! "s3a://gy-nano-bkt//songs").
Proof. vm_compute. eauto. Qed.

Lemma run_without_config_writes_nothing :
  store (run Sample.machine_without_config).1 !! "s3a://gy-nano-bkt//songs" = None.
Proof. by vm_compute. Qed.


(** The two values matter: the engine is started with them.  On an
    engine whose storage knows the first key only, the run with the
    first config stores tables and the run with the second stores
    none. *)
Lemma config_decides_what_the_engine_may_read :
  credentials Sample.dl_cfg_sample = inr ("AKIA", "hunter2")
  ∧ credentials Sample.dl_cfg_other = inr ("AKIB", "swordfish")
  ∧ is_Some (store (run (mkHost Sample.dl_cfg_sample Sample.gateway)).1
               !! "s3a://gy-nano-bkt//songs")
  ∧ store (run (mkHost Sample.dl_cfg_other Sample.gateway)).1 = ∅.
Proof. split_and!; [by vm_compute|by vm_compute|vm_compute; eauto|by vm_compute]. Qed.

(** * The claims on the sample inputs *)

Lemma songplay_join_semantics_witness :
  drop 1 <$> rows Sample.songplays_table
  = (l ← rows Sample.prepared;
     fact_row Sample.prepared Sample.song_df l
       <$> matching_songs Sample.prepared Sample.song_df l).
Proof.
  destruct (songplay_join_semantics [2%nat; 2%nat] Sample.prepared Sample.song_df
              Sample.songplays_table) as [H _]; [| | | | |exact H].
  - apply (bool_decide_unpack _). vm_compute. exact I.
  - apply (bool_decide_unpack _). vm_compute. exact I.
  - apply (bool_decide_unpack _). vm_compute. exact I.
  - apply (bool_decide_unpack _). vm_compute. exact I.
  - vm_compute. reflexivity.
Defined.

Lemma filter_invariant_witness :
  users_of_log Sample.log_df
  = users_of_log (mkFrame (columns Sample.log_df)
                          (take 2 (rows Sample.log_df) ++ drop 3 (rows Sample.log_df)) None).
Proof.
  destruct (filter_invariant 0 [] (columns Sample.log_df)
              (take 2 (rows Sample.log_df)) (drop 3 (rows Sample.log_df))
              (row_of (columns Sample.log_df)
                      (Sample.event "Home" "Band" "7" "free" 1000000000500))
              None Sample.song_df 0%nat) as [H _]; [| |exact H].
  - vm_compute. reflexivity.
  - vm_compute. discriminate.
Defined.

Lemma dimension_tables_deduplicated_witness :
  NoDup (rows Sample.songs_table)
  ∧ (length (rows Sample.songs_table) ≤ length (rows Sample.song_df))%nat.
Proof.
  destruct (dimension_tables_deduplicated Sample.song_df Sample.songs_table)
    as (Hnd & Hlen & _).
  - left. vm_compute. reflexivity.
  - exact (conj Hnd Hlen).
Defined.

Lemma songplay_id_assignment_witness :
  length (rows Sample.songplays_table)
  = length (rows Sample.prepared ≫= matching_songs Sample.prepared Sample.song_df)
  ∧ ∃ ids : list Z,
      (λ r, named Sample.songplays_table r "songplay_id") <$> rows Sample.songplays_table
      = VInt <$> ids
      ∧ length ids
        = length (rows Sample.prepared ≫= matching_songs Sample.prepared Sample.song_df)
      ∧ StronglySorted Z.lt ids
      ∧ NoDup ids.
Proof.
  apply (songplay_id_assignment [2%nat; 2%nat] Sample.prepared Sample.song_df).
  - apply (bool_decide_unpack _). vm_compute. exact I.
  - apply (bool_decide_unpack _). vm_compute. exact I.
  - vm_compute. reflexivity.
  - vm_compute. reflexivity.
  - repeat constructor; vm_compute; discriminate.
  - vm_compute. discriminate.
Defined.



(** * Further properties of the script *)





(** X3.  When the credentials are in place and the engine gives no
    session, the run ends in the handler of lines 199 to 201, at the
    unbound [error]: the two credentials are exported, nothing is read
    and nothing is stored. *)
Theorem session_failure_stops_the_run (file : cfg_file)
    (g : gmap string string → list (string * string) → result SparkSession)
    (key secret : string) (e : exn) :
  credentials file = inr (key, secret) →
  g (<["AWS_SECRET_ACCESS_KEY" := secret]> (<["AWS_ACCESS_KEY_ID" := key]> ∅))
    [("spark.jars.packages", "org.apache.hadoop:hadoop-aws:2.7.0")] = inl e →
  run (mkHost file g)
  = (mkWorld (<["AWS_SECRET_ACCESS_KEY" := secret]> (<["AWS_ACCESS_KEY_ID" := key]> ∅))
             [] [] ∅,
     Raised (NameError "error")).
Proof.
  intros Hc Hg. unfold run.
  rewrite (script_credentials (mkHost file g) key secret initial Hc).
  by rewrite (main_without_session _ _ e).
Qed.

Lemma session_failure_stops_the_run_witness :
  run (mkHost Sample.dl_cfg_sample (λ _ _, inl Sample.no_gateway))
  = (mkWorld (<["AWS_SECRET_ACCESS_KEY" := "hunter2"]> (<["AWS_ACCESS_KEY_ID" := "AKIA"]> ∅))
             [] [] ∅,
     Raised (NameError "error")).
Proof.
  apply (session_failure_stops_the_run Sample.dl_cfg_sample (λ _ _, inl Sample.no_gateway)
           "AKIA" "hunter2" Sample.no_gateway).
  - vm_compute. reflexivity.
  - reflexivity.
Defined.

(** X4.  [process_song_data] on sound input.  When the song files are
    read, each of the nine columns the function projects is a key of
    some record and the storage accepts the two writes, the function
    returns: it has read the song files once and left the [songs]
    table, partitioned by [year] and [artist_id], and the [artists]
    table under the output root.  It returns only when the song files
    are read and the storage accepts the two writes. *)
Theorem song_stage_returns (spark : SparkSession) (input_data output_data : string)
    (w : world) :
  (∀ recs,
     json_files spark (input_data +:+ "song_data/*/*/*/*.json") = inr recs →
     plain recs →
     songs_columns ++ artists_columns ⊆ keys recs →
     storage_fault spark (output_data +:+ "/songs") = None →
     storage_fault spark (output_data +:+ "/artists") = None →
     ∃ songs artists,
       songs_table_of (frame_of_records recs) = inr songs
       ∧ artists_table_of (frame_of_records recs) = inr artists
       ∧ process_song_data spark input_data output_data w
         = (with_store
              (<[output_data +:+ "/artists" := mkParquet [] artists]>
                 (<[output_data +:+ "/songs" := mkParquet ["year"; "artist_id"] songs]>
                    (store w)))
              (add_read (input_data +:+ "song_data/*/*/*/*.json") w),
            Normal ()))
  ∧ (∀ a, (process_song_data spark input_data output_data w).2 = Normal a →
       (∃ recs, json_files spark (input_data +:+ "song_data/*/*/*/*.json") = inr recs)
       ∧ storage_fault spark (output_data +:+ "/songs") = None
       ∧ storage_fault spark (output_data +:+ "/artists") = None).
Proof.
  split.
  - intros recs Hr _ Hkeys Hf1 Hf2.
    destruct (proj2 (table_frame_of_records songs_columns recs)) as [songs Hs].
    { intros c Hc. apply Hkeys, elem_of_app. by left. }
    destruct (proj2 (table_frame_of_records artists_columns recs)) as [artists Ha].
    { intros c Hc. apply Hkeys, elem_of_app. by right. }
    exists songs, artists. split_and!; [done|done|].
    by apply (process_song_data_ok _ _ _ _ recs).
  - intros a. unfold process_song_data. cbv zeta. rewrite run_guarded_read.
    destruct (json_files spark _) as [e|recs] eqn:Hr; [done|].
    rewrite run_guarded_lift.
    destruct (songs_table_of (frame_of_records recs)) as [e|songs] eqn:Hs; [done|].
    rewrite run_guarded_write.
    destruct (write_parquet spark ["year"; "artist_id"] _ songs _) as [w1 [[]|e|c]] eqn:Hw1;
      [|done|done].
    apply write_parquet_normal in Hw1 as (_ & Hf1 & _).
    rewrite run_guarded_lift.
    destruct (artists_table_of (frame_of_records recs)) as [e|artists] eqn:Ha; [done|].
    rewrite run_guarded_write_last.
    destruct (write_parquet spark [] _ artists w1) as [w2 [[]|e|c]] eqn:Hw2;
      [|done|done].
    apply write_parquet_normal in Hw2 as (_ & Hf2 & _).
    intros _. split_and!; [by exists recs|done|done].
Qed.

(** X5.  When a column of the [songs] table is a key of no song record
    (as with a data set that holds no record at all),
    [process_song_data] stops at the projection of line 53: it has read
    the song files, stores nothing and ends in the handler of lines 55
    to 57, at the unbound [error]. *)
Theorem song_stage_stops_on_a_missing_song_key (spark : SparkSession)
    (input_data output_data : string) (w : world) (recs : list json_record) (c : string) :
  json_files spark (input_data +:+ "song_data/*/*/*/*.json") = inr recs →
  plain recs →
  c ∈ songs_columns → c ∉ keys recs →
  (∃ e, songs_table_of (frame_of_records recs) = inl e)
  ∧ process_song_data spark input_data output_data w
    = (add_read (input_data +:+ "song_data/*/*/*/*.json") w, Raised (NameError "error")).
Proof.
  intros Hr _ Hc Hn.
  destruct (table_missing songs_columns (frame_of_records recs) c Hc) as [e He].
  { by rewrite elem_of_columns_frame_of_records. }
  change (songs_table_of (frame_of_records recs) = inl e) in He.
  split; [by exists e|]. by apply (process_song_data_no_songs _ _ _ _ recs e).
Qed.

Lemma song_stage_stops_on_a_missing_song_key_witness :
  process_song_data (mkSession (λ _, inr []) (λ _, None) 0 [])
                    "s3a://udacity-dend/" "s3a://gy-nano-bkt/" initial
  = (add_read song_data_glob initial, Raised (NameError "error")).
Proof.
  refine (proj2 (song_stage_stops_on_a_missing_song_key
                   (mkSession (λ _, inr []) (λ _, None) 0 [])
                   "s3a://udacity-dend/" "s3a://gy-nano-bkt/" initial [] "song_id"
                   _ _ _ _)).
  - reflexivity.
  - exact plain_nil.
  - apply (bool_decide_unpack _). vm_compute. exact I.
  - apply (bool_decide_unpack _). vm_compute. exact I.
Defined.

(** X6.  The two tables of [process_song_data] are not written
    together.  When the song records hold every column of [songs] and
    lack a column of [artists], the [songs] table is written, then the
    projection of line 69 fails: the function ends in the handler of
    lines 71 to 73, at the unbound [error], with the [songs] table in
    place and no [artists] table written. *)
Theorem songs_written_before_artists_fail (spark : SparkSession)
    (input_data output_data : string) (w : world) (recs : list json_record) (c : string) :
  json_files spark (input_data +:+ "song_data/*/*/*/*.json") = inr recs →
  plain recs →
  songs_columns ⊆ keys recs →
  c ∈ artists_columns → c ∉ keys recs →
  storage_fault spark (output_data +:+ "/songs") = None →
  ∃ songs,
    songs_table_of (frame_of_records recs) = inr songs
    ∧ (∃ e, artists_table_of (frame_of_records recs) = inl e)
    ∧ process_song_data spark input_data output_data w
      = (with_store
           (<[output_data +:+ "/songs" := mkParquet ["year"; "artist_id"] songs]> (store w))
           (add_read (input_data +:+ "song_data/*/*/*/*.json") w),
         Raised (NameError "error")).
Proof.
  intros Hr _ Hkeys Hc Hn Hf.
  destruct (proj2 (table_frame_of_records songs_columns recs) Hkeys) as [songs Hs].
  destruct (table_missing artists_columns (frame_of_records recs) c Hc) as [e He].
  { by rewrite elem_of_columns_frame_of_records. }
  change (songs_table_of (frame_of_records recs) = inr songs) in Hs.
  change (artists_table_of (frame_of_records recs) = inl e) in He.
  exists songs. split_and!; [done|by exists e|].
  by apply (process_song_data_no_artists _ _ _ _ recs songs e).
Qed.

Lemma songs_written_before_artists_fail_witness :
  ∃ songs,
    songs_table_of (frame_of_records [Sample.song_without_artist]) = inr songs
    ∧ (∃ e, artists_table_of (frame_of_records [Sample.song_without_artist]) = inl e)
    ∧ process_song_data Sample.spark_without_artists
                        "s3a://udacity-dend/" "s3a://gy-nano-bkt/" initial
      = (with_store
           (<["s3a://gy-nano-bkt//songs" := mkParquet ["year"; "artist_id"] songs]> ∅)
           (add_read song_data_glob initial),
         Raised (NameError "error")).
Proof.
  apply (songs_written_before_artists_fail Sample.spark_without_artists
           "s3a://udacity-dend/" "s3a://gy-nano-bkt/" initial
           [Sample.song_without_artist] "artist_name").
  - reflexivity.
  - exact plain_song_without_artist.
  - apply (bool_decide_unpack _). vm_compute. exact I.
  - apply (bool_decide_unpack _). vm_compute. exact I.
  - apply (bool_decide_unpack _). vm_compute. exact I.
  - reflexivity.
Defined.

(** X7.  A write the storage rejects changes nothing.  When the
    storage refuses the destination of the [songs] table,
    [process_song_data] ends at the unbound [error] of a handler
    whatever the song files hold: it has read the song files, the store
    is as it was, and the [artists] table is not written. *)
Theorem rejected_write_stops_the_song_stage (spark : SparkSession)
    (input_data output_data : string) (w : world) (e : exn) :
  storage_fault spark (output_data +:+ "/songs") = Some e →
  process_song_data spark input_data output_data w
  = (add_read (input_data +:+ "song_data/*/*/*/*.json") w, Raised (NameError "error"))
  ∧ store (process_song_data spark input_data output_data w).1 = store w.
Proof.
  intros Hf. by rewrite (process_song_data_songs_rejected _ _ _ _ e Hf).
Qed.

Lemma rejected_write_stops_the_song_stage_witness :
  process_song_data Sample.spark_read_only "s3a://udacity-dend/" "s3a://gy-nano-bkt/" initial
  = (add_read song_data_glob initial, Raised (NameError "error"))
  ∧ store (process_song_data Sample.spark_read_only "s3a://udacity-dend/"
             "s3a://gy-nano-bkt/" initial).1 = store initial.
Proof.
  apply (rejected_write_stops_the_song_stage Sample.spark_read_only
           "s3a://udacity-dend/" "s3a://gy-nano-bkt/" initial Sample.access_denied).
  reflexivity.
Defined.

(** X8.  The two tables of [process_song_data] hold, without
    repetition, the fields of the song records under the projected
    keys: a row for each record, the null value where a record lacks
    the key. *)
Theorem song_tables_from_records (recs : list json_record) :
  plain recs →
  (∀ t, songs_table_of (frame_of_records recs) = inr t →
        columns t = songs_columns
        ∧ NoDup (rows t)
        ∧ ∀ o, o ∈ rows t ↔ ∃ rec, rec ∈ recs ∧ o = (λ c, field c rec) <$> songs_columns)
  ∧ (∀ t, artists_table_of (frame_of_records recs) = inr t →
          columns t = artists_columns
          ∧ NoDup (rows t)
          ∧ ∀ o, o ∈ rows t ↔ ∃ rec, rec ∈ recs ∧ o = (λ c, field c rec) <$> artists_columns)
  ∧ (∀ rec c, c ∉ rec.*1 → field c rec = VNull).
Proof.
  intros _.
  assert (∀ names t, dropDuplicates <$> select names (frame_of_records recs) = inr t →
            columns t = names
            ∧ NoDup (rows t)
            ∧ ∀ o, o ∈ rows t ↔ ∃ rec, rec ∈ recs ∧ o = (λ c, field c rec) <$> names) as H.
  { intros names t Ht. pose proof (table_rows_frame_of_records names recs t Ht) as Hrows.
    apply select_distinct in Ht as (Hcols & _ & Hnd & _).
    split_and!; [done|done|]. intros o.
    rewrite Hrows, elem_of_remove_dups, list_elem_of_fmap. split.
    - intros (rec & -> & Hrec). eauto.
    - intros (rec & Hrec & ->). eauto. }
  split_and!.
  - intros t Ht. by apply H.
  - intros t Ht. by apply H.
  - intros rec c. apply field_not_key.
Qed.

Lemma song_tables_from_records_witness :
  columns Sample.songs_table = songs_columns ∧ NoDup (rows Sample.songs_table).
Proof.
  destruct (song_tables_from_records Sample.songs) as (H & _).
  - exact plain_songs.
  - destruct (H Sample.songs_table) as (Hc & Hn & _).
    + vm_compute. reflexivity.
    + exact (conj Hc Hn).
Defined.

(** X9.  Log records without a [page] key.  The filter of line 100
    fails on the attribute [df.page]: [process_log_data] has read the
    log files, writes nothing and ends in the handler of lines 107 to
    109, at the unbound [error]. *)
Theorem log_stage_stops_on_a_missing_key (spark : SparkSession)
    (input_data output_data : string) (w : world) (logs : list json_record) :
  json_files spark (input_data +:+ "log_data/*.json") = inr logs →
  "page" ∉ keys logs →
  (∃ e, filter_and_rename (frame_of_records logs) = inl e)
  ∧ process_log_data spark input_data output_data w
    = (add_read (input_data +:+ "log_data/*.json") w, Raised (NameError "error")).
Proof.
  intros Hlog Hpage.
  destruct (resolve_not_elem_of "page" (columns (frame_of_records logs))) as [e He].
  { by rewrite elem_of_columns_frame_of_records. }
  assert (filter_and_rename (frame_of_records logs) = inl e) as Hf.
  { unfold filter_and_rename, attr. by rewrite He. }
  split; [by exists e|]. unfold process_log_data. cbv zeta.
  by rewrite run_guarded_read, Hlog, run_guarded_lift, Hf.
Qed.

Lemma log_stage_stops_on_a_missing_key_witness :
  process_log_data (mkSession (λ _, inr []) (λ _, None) 0 [])
                   "s3a://udacity-dend/" "s3a://gy-nano-bkt/" initial
  = (add_read log_data_glob initial, Raised (NameError "error")).
Proof.
  refine (proj2 (log_stage_stops_on_a_missing_key (mkSession (λ _, inr []) (λ _, None) 0 [])
                   "s3a://udacity-dend/" "s3a://gy-nano-bkt/" initial [] _ _)).
  - reflexivity.
  - apply (bool_decide_unpack _). vm_compute. exact I.
Defined.

(** X10.  The [users] table holds, without repetition, the fields
    [userId], [firstName], [lastName], [gender] and [level] of the log
    records of played songs, under the names [user_id], [first_name],
    [last_name], [gender] and [level], when no log record holds a key
    named as one of the three renamed columns.  It can be built when
    the records hold [page] and the five fields. *)
Theorem users_table_from_records (recs : list json_record) :
  plain recs →
  "user_id" ∉ keys recs → "first_name" ∉ keys recs → "last_name" ∉ keys recs →
  (∀ u, users_of_log (frame_of_records recs) = inr u →
     columns u = ["user_id"; "first_name"; "last_name"; "gender"; "level"]
     ∧ NoDup (rows u)
     ∧ ∀ o, o ∈ rows u ↔
            ∃ rec, rec ∈ recs ∧ field "page" rec = VStr "NextSong"
                   ∧ o = [field "userId" rec; field "firstName" rec; field "lastName" rec;
                          field "gender" rec; field "level" rec])
  ∧ ("page" ∈ keys recs → users_fields ⊆ keys recs →
     ∃ u, users_of_log (frame_of_records recs) = inr u).
Proof.
  intros _ Hk1 Hk2 Hk3. split; [|intros; by apply users_of_log_total].
  intros u. unfold users_of_log. intros (df1 & H1 & Hu)%result_bind_inr.
  destruct (filter_and_rename_records recs df1 H1) as (Hrows & _).
  pose proof Hu as (Hcols & _ & Hnd & _ & Hr & _)%select_distinct.
  assert (rows u = remove_dups ((λ rec, (λ c, field c rec) <$> users_fields)
                                  <$> filter played recs)) as Hru.
  { rewrite Hr, Hrows, <- list_fmap_compose. f_equal.
    apply list_fmap_ext. intros _ rec [_ Hrec]%list_elem_of_lookup_2%list_elem_of_filter.
    simpl. by apply (users_row_frame_of_records recs df1 u rec). }
  split_and!; [done|done|].
  intros o. rewrite Hru, elem_of_remove_dups, list_elem_of_fmap. split.
  - intros (rec & -> & [Hp Hrec]%list_elem_of_filter). by exists rec.
  - intros (rec & Hrec & Hp & ->). exists rec. split; [done|].
    by apply list_elem_of_filter.
Qed.

Lemma users_table_from_records_witness :
  columns (Sample.table_of (users_of_log Sample.log_df))
  = ["user_id"; "first_name"; "last_name"; "gender"; "level"]
  ∧ NoDup (rows (Sample.table_of (users_of_log Sample.log_df))).
Proof.
  destruct (users_table_from_records Sample.events) as (H & _).
  - exact plain_events.
  - apply (bool_decide_unpack _). vm_compute. exact I.
  - apply (bool_decide_unpack _). vm_compute. exact I.
  - apply (bool_decide_unpack _). vm_compute. exact I.
  - destruct (H (Sample.table_of (users_of_log Sample.log_df))) as (Hc & Hn & _).
    + vm_compute. reflexivity.
    + exact (conj Hc Hn).
Defined.

(** X11.  [process_log_data] on sound input.  When the log files are
    read, the [users] table can be built and the storage accepts it,
    [process_log_data] reads the log files, writes the [users] table at
    [/users] and ends at line 127 by the [NameError] of
    [TimestampType], outside every handler: neither the [time] table
    nor the fact table is built, and the song files are not read a
    second time. *)
Theorem log_stage_on_sound_input (spark : SparkSession) (input_data output_data : string)
    (w : world) (logs : list json_record) (users : DataFrame) :
  json_files spark (input_data +:+ "log_data/*.json") = inr logs →
  plain logs →
  users_of_log (frame_of_records logs) = inr users →
  storage_fault spark "/users" = None →
  process_log_data spark input_data output_data w
  = (mkWorld (environ w) (diagnostics w)
             (reads w ++ [input_data +:+ "log_data/*.json"])
             (<["/users" := mkParquet [] users]> (store w)),
     Raised (NameError "TimestampType")).
Proof.
  intros Hlog _ Hu Hf. by rewrite (process_log_data_to_udf _ _ _ _ _ _ Hlog Hu Hf).
Qed.

Lemma log_stage_on_sound_input_witness :
  process_log_data Sample.spark "s3a://udacity-dend/" "s3a://gy-nano-bkt/" initial
  = (mkWorld ∅ [] [log_data_glob]
             (<["/users" := mkParquet [] (Sample.table_of (users_of_log Sample.log_df))]> ∅),
     Raised (NameError "TimestampType")).
Proof.
  apply (log_stage_on_sound_input Sample.spark "s3a://udacity-dend/" "s3a://gy-nano-bkt/"
           initial Sample.events (Sample.table_of (users_of_log Sample.log_df))).
  - reflexivity.
  - exact plain_events.
  - vm_compute. reflexivity.
  - reflexivity.
Defined.



(** X14.  In the frame joined at line 172 the name [year] is borne by
    two columns, the year of the play (line 142) and the year of the
    song: it cannot be resolved there, and no projection of the joined
    frame that names [year] succeeds. *)
Theorem year_is_ambiguous_after_the_join (tz : Z) (log_df df song_df : DataFrame)
    (a b : nat) (layout : list nat) (names : list string) :
  prepare tz log_df = inr df →
  "year" ∈ columns song_df →
  (∃ e, attr (join df song_df a b) "year" = inl e)
  ∧ ("year" ∈ names →
     ∃ e, select names (withColumn_id "songplay_id" layout (join df song_df a b)) = inl e).
Proof.
  intros Hprep Hsong.
  destruct (resolve_app_both "year" (columns df) (columns song_df)) as [e He];
    [by eapply year_in_prepared|done|].
  split; [by exists e|]. intros Hn.
  apply (select_unresolved names _ "year" e Hn). simpl.
  by rewrite resolve_put_name_ne.
Qed.

Lemma year_is_ambiguous_after_the_join_witness :
  ∃ e, attr (join Sample.prepared Sample.song_df 1 3) "year" = inl e.
Proof.
  destruct (year_is_ambiguous_after_the_join 0 Sample.log_df Sample.prepared Sample.song_df
              1 3 [] []) as [H _].
  - vm_compute. reflexivity.
  - apply (bool_decide_unpack _). vm_compute. exact I.
  - exact H.
Defined.

(** X15.  The rows of the fact table refer to rows of the dimension
    tables built from the same records: for every row of [song_plays]
    there is a row of [time] with its [start_time], a row of [users]
    with its [user_id] and [level], a row of [songs] with its [song_id]
    and [artist_id], and a row of [artists] with its [artist_id]. *)
Theorem fact_rows_refer_to_dimension_rows (tz : Z) (layout : list nat)
    (logs songs : list json_record) (sp users time songs_table artists_table : DataFrame) :
  songplays_of_log tz layout (frame_of_records logs) (frame_of_records songs) = inr sp →
  users_of_log (frame_of_records logs) = inr users →
  time_of_log tz (frame_of_records logs) = inr time →
  songs_table_of (frame_of_records songs) = inr songs_table →
  artists_table_of (frame_of_records songs) = inr artists_table →
  ∀ o, o ∈ rows sp →
    (∃ r, r ∈ rows time ∧ named time r "start_time" = named sp o "start_time")
    ∧ (∃ r, r ∈ rows users
            ∧ named users r "user_id" = named sp o "user_id"
            ∧ named users r "level" = named sp o "level")
    ∧ (∃ r, r ∈ rows songs_table
            ∧ named songs_table r "song_id" = named sp o "song_id"
            ∧ named songs_table r "artist_id" = named sp o "artist_id")
    ∧ (∃ r, r ∈ rows artists_table
            ∧ named artists_table r "artist_id" = named sp o "artist_id").
Proof.
  intros Hsp Hu Ht Hs Ha o Ho.
  unfold songplays_of_log in Hsp. apply result_bind_inr in Hsp as (df3 & Hprep & Hsp).
  unfold time_of_log in Ht. rewrite Hprep in Ht. simpl in Ht.
  unfold users_of_log in Hu. apply result_bind_inr in Hu as (df1 & H1 & Hu).
  pose proof Hprep as (df1' & df2 & H1' & H2 & H3)%prepare_inr.
  assert (df1' = df1) as -> by congruence. clear H1'.
  pose proof (wf_filter_and_rename _ _ H1 (wf_frame_of_records logs)) as Hwf1.
  assert (wf df3) as Hwf3.
  { unfold wf. apply Forall_forall. intros l Hl.
    by destruct (prepared_row tz df1 df2 df3 l Hwf1 H2 H3 Hl) as [? _]. }
  set (song_df := frame_of_records songs) in *.
  destruct (songplays_row_inv layout df3 song_df sp o Hwf3 (wf_frame_of_records songs)
              Hsp Ho) as (a & b & l & s & i & Hl & Hsong & Hres & Hcols & ->).
  set (J := join df3 song_df a b) in *.
  assert (∀ c, c ∈ fact_names →
               named sp (VInt i :: ((λ c, named J (l ++ s) c) <$> fact_names)) c
               = named J (l ++ s) c) as Hfact.
  { intros c Hc. unfold named at 1, attr. rewrite Hcols. unfold fact_names in *.
    repeat (apply elem_of_cons in Hc as [->|Hc]); [done..|by apply elem_of_nil in Hc]. }
  destruct (prepared_row tz df1 df2 df3 l Hwf1 H2 H3 Hl) as (Hlen & r & Hr & Hkeep).
  pose proof (columns_prepared tz df1 df2 df3 H2 H3) as Hsub.
  pose proof Hu as (su & Hsu & _)%result_fmap_inr.
  pose proof Ht as (st & Hst & _)%result_fmap_inr.
  pose proof Hs as (ss & Hss & _)%result_fmap_inr.
  pose proof Ha as (sa & Hsa & _)%result_fmap_inr.
  assert (∀ c, c ∈ fact_names → c ∈ columns df3 →
               ∃ k, resolve c (columns df3) = inr k
                    ∧ named J (l ++ s) c = named df3 l c) as Hleft.
  { intros c Hc Hin. destruct (Hres c Hc) as [k Hk]. exists k. split.
    - by apply (resolve_app_l c (columns df3) (columns song_df)).
    - by apply (named_join_l df3 song_df a b l s c k). }
  assert (∀ c, c ∈ fact_names → c ∈ columns song_df →
               named J (l ++ s) c = named song_df s c) as Hright.
  { intros c Hc Hin. destruct (Hres c Hc) as [k Hk].
    by apply (named_join_r df3 song_df a b l s c k). }
  apply select_distinct in Hu as (Hcu & _ & _ & _ & _ & Hinu).
  apply select_distinct in Ht as (Hct & _ & _ & _ & _ & Hint).
  apply select_distinct in Hs as (Hcs & _ & _ & _ & _ & Hins).
  apply select_distinct in Ha as (Hca & _ & _ & _ & _ & Hina).
  split_and!.
  - eexists. split; [apply Hint; eauto|].
    rewrite Hfact by by apply (bool_decide_unpack _).
    destruct (Hleft "start_time") as (k & _ & ->); [by apply (bool_decide_unpack _)| |].
    { eapply select_columns_elem_of; [exact Hst|]. by apply (bool_decide_unpack _). }
    unfold named at 1, attr. by rewrite Hct.
  - eexists. split; [apply Hinu; eauto|].
    rewrite !Hfact by by apply (bool_decide_unpack _).
    destruct (Hleft "user_id") as (k & Hk & ->); [by apply (bool_decide_unpack _)| |].
    { apply Hsub. eapply select_columns_elem_of; [exact Hsu|].
      by apply (bool_decide_unpack _). }
    destruct (Hleft "level") as (k' & Hk' & ->); [by apply (bool_decide_unpack _)| |].
    { apply Hsub. eapply select_columns_elem_of; [exact Hsu|].
      by apply (bool_decide_unpack _). }
    rewrite (Hkeep "user_id" k), (Hkeep "level" k');
      [|by apply (bool_decide_unpack _)|done|by apply (bool_decide_unpack _)|done].
    split; unfold named at 1, attr; by rewrite Hcu.
  - eexists. split; [apply Hins; eauto|].
    rewrite !Hfact by by apply (bool_decide_unpack _).
    rewrite (Hright "song_id"), (Hright "artist_id");
      [|by apply (bool_decide_unpack _)
       |eapply select_columns_elem_of; [exact Hss|]; by apply (bool_decide_unpack _)
       |by apply (bool_decide_unpack _)
       |eapply select_columns_elem_of; [exact Hss|]; by apply (bool_decide_unpack _)].
    split; unfold named at 1, attr; by rewrite Hcs.
  - eexists. split; [apply Hina; eauto|].
    rewrite !Hfact by by apply (bool_decide_unpack _).
    rewrite (Hright "artist_id");
      [|by apply (bool_decide_unpack _)
       |eapply select_columns_elem_of; [exact Hss|]; by apply (bool_decide_unpack _)].
    unfold named at 1, attr. by rewrite Hca.
Qed.

Lemma fact_rows_refer_to_dimension_rows_witness :
  ∃ r, r ∈ rows Sample.time_table
       ∧ named Sample.time_table r "start_time"
         = named Sample.songplays_table (hd [] (rows Sample.songplays_table)) "start_time".
Proof.
  refine (proj1 (fact_rows_refer_to_dimension_rows 0 [2%nat; 2%nat]
                   Sample.events Sample.songs
                   Sample.songplays_table (Sample.table_of (users_of_log Sample.log_df))
                   Sample.time_table Sample.songs_table
                   (Sample.table_of (artists_table_of Sample.song_df))
                   _ _ _ _ _ (hd [] (rows Sample.songplays_table)) _)).
  - vm_compute. reflexivity.
  - vm_compute. reflexivity.
  - vm_compute. reflexivity.
  - vm_compute. reflexivity.
  - vm_compute. reflexivity.
  - apply (bool_decide_unpack _). vm_compute. exact I.
Defined.

(** X16.  Whatever the host, a run reads the song files, then the log
    files, then the song files a second time (lines 46, 93 and 165),
    and nothing else: the reads of a run are an initial part of this
    sequence.  [process_song_data] that returns has read the song files
    once. *)
Theorem reads_in_order (h : host) :
  reads (run h).1 `prefix_of` [song_data_glob; log_data_glob; song_data_glob]
  ∧ (log_data_glob ∈ reads (run h).1 →
     ∃ l, reads (run h).1 = song_data_glob :: log_data_glob :: l)
  ∧ ∀ spark input_data output_data w a,
      (process_song_data spark input_data output_data w).2 = Normal a →
      reads (process_song_data spark input_data output_data w).1
      = reads w ++ [input_data +:+ "song_data/*/*/*/*.json"].
Proof.
  destruct (issues_script h initial) as (l & Hp & Hr & _).
  unfold run. rewrite Hr. simpl. split_and!; [done| |].
  - destruct Hp as [k Hk]. intros Hin.
    destruct l as [|x [|y l]]; simplify_eq/=.
    + by apply elem_of_nil in Hin.
    + apply list_elem_of_singleton in Hin. discriminate.
    + eauto.
  - intros spark input_data output_data w a Ha.
    destruct (issues_process_song_data spark input_data output_data w) as (l' & _ & Hr' & Hn).
    by rewrite Hr', (Hn a Ha).
Qed.


(** X18.  A run on sound input.  With the credentials in the config, a
    session, readable song and log files from which the [songs],
    [artists] and [users] tables can be built and a storage that
    accepts the writes, a run exports the credentials, reads the song
    files and then the log files, stores three tables ([songs] and
    [artists] under the output root, [users] at [/users]), writes no
    line and ends at line 127 by the [NameError] of [TimestampType]. *)
Theorem run_on_sound_input (h : host) (spark : SparkSession) (key secret : string)
    (songs logs : list json_record) (songs_table artists_table users : DataFrame) :
  credentials (dl_cfg h) = inr (key, secret) →
  getOrCreate h (<["AWS_SECRET_ACCESS_KEY" := secret]> (<["AWS_ACCESS_KEY_ID" := key]> ∅))
    [("spark.jars.packages", "org.apache.hadoop:hadoop-aws:2.7.0")] = inr spark →
  json_files spark song_data_glob = inr songs →
  json_files spark log_data_glob = inr logs →
  plain songs → plain logs →
  songs_table_of (frame_of_records songs) = inr songs_table →
  artists_table_of (frame_of_records songs) = inr artists_table →
  users_of_log (frame_of_records logs) = inr users →
  storage_fault spark "s3a://gy-nano-bkt//songs" = None →
  storage_fault spark "s3a://gy-nano-bkt//artists" = None →
  storage_fault spark "/users" = None →
  run h
  = (mkWorld (<["AWS_SECRET_ACCESS_KEY" := secret]> (<["AWS_ACCESS_KEY_ID" := key]> ∅))
             []
             [song_data_glob; log_data_glob]
             (<["/users" := mkParquet [] users]>
                (<["s3a://gy-nano-bkt//artists" := mkParquet [] artists_table]>
                   (<["s3a://gy-nano-bkt//songs"
                      := mkParquet ["year"; "artist_id"] songs_table]> ∅))),
     Raised (NameError "TimestampType")).
Proof.
  intros Hcred Hg Hsongs Hlogs _ _ Hs Ha Hu Hf1 Hf2 Hf3. unfold run.
  rewrite (script_credentials h key secret initial Hcred).
  rewrite (main_with_session _ _ spark) by done.
  rewrite (process_song_data_ok spark "s3a://udacity-dend/" "s3a://gy-nano-bkt/" _
             songs songs_table artists_table) by done.
  by rewrite (process_log_data_to_udf spark "s3a://udacity-dend/" "s3a://gy-nano-bkt/" _
                logs users) by done.
Qed.

Lemma run_on_sound_input_witness :
  run Sample.machine
  = (mkWorld (<["AWS_SECRET_ACCESS_KEY" := "hunter2"]> (<["AWS_ACCESS_KEY_ID" := "AKIA"]> ∅))
             []
             [song_data_glob; log_data_glob]
             (<["/users" := mkParquet [] (Sample.table_of (users_of_log Sample.log_df))]>
                (<["s3a://gy-nano-bkt//artists"
                   := mkParquet [] (Sample.table_of (artists_table_of Sample.song_df))]>
                   (<["s3a://gy-nano-bkt//songs"
                      := mkParquet ["year"; "artist_id"] Sample.songs_table]> ∅))),
     Raised (NameError "TimestampType")).
Proof.
  apply (run_on_sound_input Sample.machine Sample.spark "AKIA" "hunter2"
           Sample.songs Sample.events).
  - vm_compute. reflexivity.
  - reflexivity.
  - reflexivity.
  - reflexivity.
  - exact plain_songs.
  - exact plain_events.
  - vm_compute. reflexivity.
  - vm_compute. reflexivity.
  - vm_compute. reflexivity.
  - reflexivity.
  - reflexivity.
  - reflexivity.
Defined.
